(** * KKrasta Keyworder: the frontier-expansion engine

    A shallow embedding of [kkrasta_keyworder.py]: keyword validation, the
    seven suggestion clients, the sink ([_save_keyword]), seeding
    ([get_seed_keywords], [start_scraping]) and the worker loop
    ([scrape_keywords_worker]) run by several threads over one shared queue
    and one shared set.

    Conventions.
    - A Python [str] is a [string]; one [ascii] stands for one character.
    - A Python [int] is a [Z].
    - [Set[str]] is a [gset string]; the [Queue] is a list whose head is the
      next element out.
    - A client appends the field it reads from the payload without testing
      its type (Google, YouTube and eBay apart): a suggestion is a string or
      some other JSON value, on which the worker's [suggestion.strip()]
      raises.
    - [print] raises [UnicodeEncodeError] on a text that [sys.stdout] cannot
      encode, a lone surrogate from a JSON escape for one.  The fixed texts
      the program prints are taken to be encodable, so a [print] raises
      exactly when the keyword it interpolates is not.  The two places where
      a keyword is printed outside a [try] of its own, and the suggestion
      loop, are where the handler that closes the loop body is entered.
    - Terminal decoration (colours, banners, progress lines) and Tor
      identity changes do not influence the engine and are left out.  The
      network, with whatever proxy a request goes through, is the [Upstream]
      of a client; the proxy rotation and the interactive set-up are
      modelled on their own, after the run. *)

From Stdlib Require Import ZArith Lia Ascii String.
From stdpp Require Import base strings list gmap sets pretty.

Local Open Scope string_scope.
Local Open Scope list_scope.
Local Open Scope Z_scope.

(* ===================================================================== *)
(** ** Text helpers *)
(* ===================================================================== *)

Module Text.

(** [str.isspace] on the characters below 256: TAB..CR, FS..US, space,
    NEL and NBSP. *)
Definition is_space (c : ascii) : bool :=
  let n := nat_of_ascii c in
  ((9 <=? n) && (n <=? 13) || (28 <=? n) && (n <=? 32)
   || (n =? 133) || (n =? 160))%nat.

Fixpoint lstrip (s : string) : string :=
  match s with
  | EmptyString => EmptyString
  | String c s' => if is_space c then lstrip s' else s
  end.

Fixpoint rstrip (s : string) : string :=
  match s with
  | EmptyString => EmptyString
  | String c s' =>
      match rstrip s' with
      | EmptyString => if is_space c then EmptyString else String c EmptyString
      | r => String c r
      end
  end.

(** [s.strip()] *)
Definition strip (s : string) : string := rstrip (lstrip s).

(** [len(s)] *)
Definition len (s : string) : Z := Z.of_nat (String.length s).

(** [not s] for a string: true exactly on the empty string. *)
Definition falsy (s : string) : bool :=
  match s with EmptyString => true | _ => false end.

Definition eqb (a b : string) : bool := bool_decide (a = b).

(** [l[:n]] for [0 <= n] *)
Definition slice_to {A} (n : nat) (l : list A) : list A := take n l.

End Text.

(* ===================================================================== *)
(** ** Suggestion clients *)
(* ===================================================================== *)

Inductive SearchEngine :=
| GOOGLE | YOUTUBE | BING | AMAZON | YAHOO | EBAY | DUCKDUCKGO | DUCKDUCKGO_TOR.

Global Instance SearchEngine_eq_dec : EqDecision SearchEngine.
Proof. solve_decision. Defined.

(** What one [session.get ... raise_for_status ... response.json()] sequence
    ends in: one of the three exception classes the clients catch, or the
    decoded payload. *)
Inductive Fetched (B : Type) :=
| RequestException          (* network error, timeout, HTTP error status *)
| JSONDecodeError           (* the body is not JSON *)
| OtherException            (* anything else raised inside the [try] *)
| Decoded (body : B).
Arguments RequestException {B}.
Arguments JSONDecodeError {B}.
Arguments OtherException {B}.
Arguments Decoded {B} body.

(** The upstream service: what [session.get] ends in, retries of the
    mounted adapter included, by the text sent in the query parameter. *)
Definition Upstream (B : Type) := string → Fetched B.

(** What a client appends to its list: a JSON string, or a JSON value of
    another type (null, a number, a list, an object). *)
Inductive Suggestion :=
| Str (s : string)
| NotStr.

Global Instance Suggestion_eq_dec : EqDecision Suggestion.
Proof. solve_decision. Defined.

(** Google and YouTube: [data[1]] when [len(data) > 1] and it is a list;
    its elements are strings or something else. *)
Inductive GItem := GStr (s : string) | GOther.
Inductive GoogleData :=
| GNoList                         (* the shape test on [data] fails *)
| GList (data1 : list GItem).

(** Bing: [data['AS']['Results'][i]['Suggests'][j]['Txt']], every level
    optional, the value of any type. *)
Record BingSuggest := { Txt : option Suggestion }.
Record BingResult := { Suggests : option (list BingSuggest) }.
Record BingData := { AS_Results : option (list BingResult) }.

(** Amazon: [data['suggestions'][i]['value']]; Yahoo: [data['r'][i]['k']];
    the value of any type. *)
Record KeyedList := { entries : option (list (option Suggestion)) }.

(** eBay: the groups [re.findall] captures in [response.text]. *)
Record EbayPage := { matches : list string }.

(** DuckDuckGo: [data] is a list (or not); an element is a dict that may
    hold ['phrase'] with a value of any type, a string, or something
    else. *)
Inductive DItem := DDict (phrase : option Suggestion) | DStr (s : string) | DOther.
Inductive DuckData := DNotList | DList (data : list DItem).

Inductive Client :=
| GoogleClient (net : Upstream GoogleData)
| YouTubeClient (net : Upstream GoogleData)
| BingClient (net : Upstream BingData)
| AmazonClient (net : Upstream KeyedList)
| YahooClient (net : Upstream KeyedList)
| EbayClient (net : Upstream EbayPage)
| DuckDuckGoClient (net : Upstream DuckData).

Module SearchEngineClient.

Import Text.

(** [_validate_keyword] *)
Definition _validate_keyword (keyword : string) : bool :=
  if falsy keyword || falsy (strip keyword) then false
  else if 200 <? len (strip keyword) then false
  else true.

(** [re.sub(r'<[^>]+>', '', s)]: [inside] holds the characters read since
    an unmatched ['<'] (most recent first), [None] outside a candidate
    tag. *)
Fixpoint drop_tags (inside : option (list ascii)) (s : string) : string :=
  match s, inside with
  | EmptyString, None => EmptyString
  | EmptyString, Some buf => String "<"%char (string_of_list_ascii (rev buf))
  | String c s', None =>
      if Ascii.eqb c "<"%char then drop_tags (Some []) s'
      else String c (drop_tags None s')
  | String c s', Some buf =>
      if Ascii.eqb c ">"%char then
        match buf with
        | [] => String "<"%char (String ">"%char (drop_tags None s'))
        | _ => drop_tags None s'
        end
      else drop_tags (Some (c :: buf)) s'
  end.

(** [value != keyword]: a value that is no string differs from every
    keyword. *)
Definition differs (value : Suggestion) (keyword : string) : bool :=
  match value with
  | Str s => negb (eqb s keyword)
  | NotStr => true
  end.

(** The comprehension of [GoogleClient.get_suggestions]:
    [[s for s in data[1] if s != keyword and isinstance(s, str)]] *)
Definition google_pick (keyword : string) (data1 : list GItem) : list string :=
  omap (λ it, match it with
              | GStr s => if eqb s keyword then None else Some s
              | GOther => None
              end) data1.

(** Bing's nested loops. *)
Definition bing_pick (keyword : string) (d : BingData) : list Suggestion :=
  match AS_Results d with
  | None => []
  | Some results =>
      results ≫= (λ result,
        match Suggests result with
        | None => []
        | Some suggests =>
            omap (λ suggest,
              match Txt suggest with
              | Some t => if differs t keyword then Some t else None
              | None => None
              end) suggests
        end)
  end.

(** Amazon's and Yahoo's loop. *)
Definition keyed_pick (keyword : string) (d : KeyedList) : list Suggestion :=
  match entries d with
  | None => []
  | Some items =>
      omap (λ item,
        match item with
        | Some v => if differs v keyword then Some v else None
        | None => None
        end) items
  end.

(** eBay's loop over the regex matches. *)
Definition ebay_pick (keyword : string) (p : EbayPage) : list string :=
  omap (λ m,
    let clean_suggestion := strip (drop_tags None m) in
    if falsy clean_suggestion then None
    else if eqb clean_suggestion keyword then None
    else Some clean_suggestion) (matches p).

(** DuckDuckGo's loop over [data[1:]]. *)
Definition duck_pick (keyword : string) (d : DuckData) : list Suggestion :=
  match d with
  | DNotList => []
  | DList data =>
      if 1 <? Z.of_nat (length data) then
        omap (λ item,
          match item with
          | DDict (Some phrase) => if differs phrase keyword then Some phrase else None
          | DDict None => None
          | DStr s => if eqb s keyword then None else Some (Str s)
          | DOther => None
          end) (drop 1 data)
      else []
  end.

(** The common frame of the seven [get_suggestions]: validate, call
    [session.get] once with the stripped keyword, pick from the payload, cut
    to [limit]; every exception ends in the empty list.  Returns the
    suggestions and the texts [session.get] was called with; how often the
    adapter sends each of them is the upstream's affair. *)
Definition fetch_and_pick {B} (net : Upstream B) (pick : string → B → list Suggestion)
    (limit : nat) (keyword : string) : list Suggestion * list string :=
  if negb (_validate_keyword keyword) then ([], [])
  else
    let q := strip keyword in
    match net q with
    | Decoded data => (slice_to limit (pick keyword data), [q])
    | RequestException | JSONDecodeError | OtherException => ([], [q])
    end.

Definition google_shape (keyword : string) (d : GoogleData) : list string :=
  match d with
  | GList data1 => google_pick keyword data1
  | GNoList => []
  end.

(** The picks that keep strings only: the comprehension of Google and
    YouTube tests [isinstance(s, str)], eBay's matches are texts. *)
Definition texts {B} (pick : string → B → list string) (keyword : string) (d : B)
    : list Suggestion :=
  Str <$> pick keyword d.

(** [client.get_suggestions(keyword)] with the calls of [session.get]. *)
Definition get_suggestions_traced (c : Client) (keyword : string)
    : list Suggestion * list string :=
  match c with
  | GoogleClient net => fetch_and_pick net (texts google_shape) 20 keyword
  | YouTubeClient net => fetch_and_pick net (texts google_shape) 20 keyword
  | BingClient net => fetch_and_pick net bing_pick 20 keyword
  | AmazonClient net => fetch_and_pick net keyed_pick 20 keyword
  | YahooClient net => fetch_and_pick net keyed_pick 20 keyword
  | EbayClient net => fetch_and_pick net (texts ebay_pick) 10 keyword
  | DuckDuckGoClient net => fetch_and_pick net duck_pick 20 keyword
  end.

Definition get_suggestions (c : Client) (keyword : string) : list Suggestion :=
  fst (get_suggestions_traced c keyword).

End SearchEngineClient.

(* ===================================================================== *)
(** ** The application object *)
(* ===================================================================== *)

(** [ScrapingConfig], without [delay_between_requests] and
    [output_filename]: the delay is a float that only feeds [time.sleep]. *)
Record ScrapingConfig := {
  max_threads : Z;
  timeout : Z;
  max_retries : Z;
  max_keywords_per_engine : Z;
  save_to_file : bool
}.

(** The dataclass defaults. *)
Definition ScrapingConfig_default : ScrapingConfig :=
  {| max_threads := 5; timeout := 10; max_retries := 3;
     max_keywords_per_engine := 1000; save_to_file := true |}.

(** [ScrapingConfig.validate] *)
Definition validate (c : ScrapingConfig) : bool :=
  if max_threads c <? 1 then false
  else if timeout c <? 1 then false
  else if max_retries c <? 0 then false
  else if max_keywords_per_engine c <? 1 then false
  else true.

(** What the run only reads: the fields of [KeywordSheeter] that
    [setup_interactive_menu] fixes, and the terminal, which tells of a
    keyword whether [sys.stdout] can encode a message that interpolates it.
    The fixed parts of the messages (colour codes, emoji, engine names) are
    taken to be within the terminal's encoding: a [print] fails on the
    keyword or not at all. *)
Record Setup := {
  selected_engines : list SearchEngine;
  scraping_config : ScrapingConfig;
  clients : SearchEngine → option Client;       (* the [clients] dict *)
  output_file : option string;
  stdout_encodes : string → bool
}.

(** The fields the run changes, with what it leaves in the world: the
    output file, the terminal, the error log.  [disk] scripts the file
    system: its head tells whether the next [open] of the output file
    succeeds; once it is used up every [open] succeeds.  [put_log] and
    [query_log] are ghost records of every [keyword_queue.put] and of every
    keyword handed to a client's [get_suggestions]. *)
Record KeywordSheeter := {
  scraped_keywords : gset string;
  keyword_queue : list string;
  stop_event : bool;
  file_lines : list string;
  terminal : list string;
  error_log : list string;
  disk : list bool;
  put_log : list string;
  query_log : list string
}.

(** [KeywordSheeter.__init__] *)
Definition KeywordSheeter_init (disk0 : list bool) : KeywordSheeter :=
  {| scraped_keywords := ∅; keyword_queue := []; stop_event := false;
     file_lines := []; terminal := []; error_log := []; disk := disk0;
     put_log := []; query_log := [] |}.

Definition set_scraped (f : gset string → gset string) (s : KeywordSheeter) :=
  {| scraped_keywords := f (scraped_keywords s); keyword_queue := keyword_queue s;
     stop_event := stop_event s; file_lines := file_lines s;
     terminal := terminal s; error_log := error_log s; disk := disk s;
     put_log := put_log s; query_log := query_log s |}.

Definition set_queue (q : list string) (s : KeywordSheeter) :=
  {| scraped_keywords := scraped_keywords s; keyword_queue := q;
     stop_event := stop_event s; file_lines := file_lines s;
     terminal := terminal s; error_log := error_log s; disk := disk s;
     put_log := put_log s; query_log := query_log s |}.

Definition set_stop (s : KeywordSheeter) :=
  {| scraped_keywords := scraped_keywords s; keyword_queue := keyword_queue s;
     stop_event := true; file_lines := file_lines s;
     terminal := terminal s; error_log := error_log s; disk := disk s;
     put_log := put_log s; query_log := query_log s |}.

Definition set_file (f : list string) (d : list bool) (s : KeywordSheeter) :=
  {| scraped_keywords := scraped_keywords s; keyword_queue := keyword_queue s;
     stop_event := stop_event s; file_lines := f;
     terminal := terminal s; error_log := error_log s; disk := d;
     put_log := put_log s; query_log := query_log s |}.

Definition show (line : string) (s : KeywordSheeter) :=
  {| scraped_keywords := scraped_keywords s; keyword_queue := keyword_queue s;
     stop_event := stop_event s; file_lines := file_lines s;
     terminal := terminal s ++ [line]; error_log := error_log s; disk := disk s;
     put_log := put_log s; query_log := query_log s |}.

Definition logger_error (msg : string) (s : KeywordSheeter) :=
  {| scraped_keywords := scraped_keywords s; keyword_queue := keyword_queue s;
     stop_event := stop_event s; file_lines := file_lines s;
     terminal := terminal s; error_log := error_log s ++ [msg]; disk := disk s;
     put_log := put_log s; query_log := query_log s |}.

Definition note_query (keyword : string) (s : KeywordSheeter) :=
  {| scraped_keywords := scraped_keywords s; keyword_queue := keyword_queue s;
     stop_event := stop_event s; file_lines := file_lines s;
     terminal := terminal s; error_log := error_log s; disk := disk s;
     put_log := put_log s; query_log := query_log s ++ [keyword] |}.

(** [self.keyword_queue.put(keyword)] *)
Definition put (keyword : string) (s : KeywordSheeter) :=
  {| scraped_keywords := scraped_keywords s;
     keyword_queue := keyword_queue s ++ [keyword];
     stop_event := stop_event s; file_lines := file_lines s;
     terminal := terminal s; error_log := error_log s; disk := disk s;
     put_log := put_log s ++ [keyword]; query_log := query_log s |}.

(* ===================================================================== *)
(** ** Exceptions *)
(* ===================================================================== *)

(** A statement either completes or raises; both leave a state behind.
    [AttributeError] stands for what a value that is no string raises in
    the condition of the suggestion loop ([TypeError] from the membership
    test if it is unhashable, [AttributeError] from [strip] otherwise). *)
Inductive Exn := OSError | UnicodeEncodeError | AttributeError.

Inductive Outcome (A : Type) :=
| Returned (a : A)
| Raised (e : Exn) (a : A).
Arguments Returned {A} a.
Arguments Raised {A} e a.

Definition state_of {A} (o : Outcome A) : A :=
  match o with Returned a => a | Raised _ a => a end.

Definition and_then {A} (o : Outcome A) (k : A → Outcome A) : Outcome A :=
  match o with Returned a => k a | Raised e a => Raised e a end.

(** [try: body / except Exception as e: handler] *)
Definition try_except {A} (body : Outcome A) (handler : Exn → A → Outcome A)
    : Outcome A :=
  match body with Returned a => Returned a | Raised e a => handler e a end.

Notation "o >>> k" := (and_then o k) (at level 60, right associativity).

(* ===================================================================== *)
(** ** The sink *)
(* ===================================================================== *)

(** [with open(self.output_file, 'a') as f: f.write(keyword + newline)]:
    raises [OSError] when the file system refuses, and then writes
    nothing. *)
Definition append_line (keyword : string) (s : KeywordSheeter) : Outcome KeywordSheeter :=
  match disk s with
  | false :: d => Raised OSError (set_file (file_lines s) d s)
  | true :: d => Returned (set_file (file_lines s ++ [keyword]) d s)
  | [] => Returned (set_file (file_lines s ++ [keyword]) [] s)
  end.

(** [print] of a line that interpolates [text]: shown, or refused by the
    encoder before anything is written. *)
Definition print (cfg : Setup) (text : string) (s : KeywordSheeter)
    : Outcome KeywordSheeter :=
  if stdout_encodes cfg text then Returned s else Raised UnicodeEncodeError s.

(** [_save_keyword]: the [print] stands before the [try]. *)
Definition _save_keyword (cfg : Setup) (keyword source : string) (s : KeywordSheeter)
    : Outcome KeywordSheeter :=
  print cfg keyword s >>> λ s,
  Returned (show keyword s) >>> λ s,
  if save_to_file (scraping_config cfg) && bool_decide (is_Some (output_file cfg)) then
    try_except (append_line keyword s)
      (λ e s, Returned (logger_error "Error saving to file" s))
  else Returned s.

(* ===================================================================== *)
(** ** Seeding *)
(* ===================================================================== *)

(** What the operator answers to [get_seed_keywords]: a typed line, or a
    file path whose file yields its lines or cannot be read. *)
Inductive SeedInput :=
| TypeManually (seed_input : string)
| LoadFromFile (lines : option (list string)).

Definition newline : string := String "010"%char EmptyString.

(** [for line in f] for a file opened in text mode, with [content] still to
    be read and [line] the characters of the line being read: a line ends
    at a line feed, at a carriage return, or at the two in a row, and is
    handed over with one line feed at its end; what follows the last line
    end is a line too. *)
Fixpoint readlines (line content : string) : list string :=
  match content with
  | EmptyString => if Text.falsy line then [] else [line]
  | String c rest =>
      if Ascii.eqb c "010"%char then
        (line +:+ newline) :: readlines EmptyString rest
      else if Ascii.eqb c "013"%char then
        match rest with
        | String c' rest' =>
            if Ascii.eqb c' "010"%char then
              (line +:+ newline) :: readlines EmptyString rest'
            else (line +:+ newline) :: readlines EmptyString rest
        | EmptyString => [line +:+ newline]
        end
      else readlines (line +:+ String c EmptyString) rest
  end.

(** [s.split(',')] *)
Fixpoint split_comma (s : string) : list string :=
  match s with
  | EmptyString => [EmptyString]
  | String c s' =>
      if Ascii.eqb c ","%char then EmptyString :: split_comma s'
      else match split_comma s' with
           | h :: t => String c h :: t
           | [] => [String c EmptyString]
           end
  end.

(** [[x.strip() for x in xs if x.strip()]] *)
Definition stripped_nonblank (xs : list string) : list string :=
  omap (λ x, if Text.falsy (Text.strip x) then None else Some (Text.strip x)) xs.

(** [get_seed_keywords]: the list it returns.  The warning it prints for a
    seed that is skipped shows the first fifty characters of a text the
    operator has typed at this terminal or that was decoded from a UTF-8
    file, and is taken to succeed. *)
Definition get_seed_keywords (input : SeedInput) : list string :=
  let keywords :=
    match input with
    | TypeManually seed_input =>
        if Text.falsy seed_input then [] else stripped_nonblank (split_comma seed_input)
    | LoadFromFile (Some lines) => stripped_nonblank lines
    | LoadFromFile None => []
    end in
  filter (λ keyword, ¬ (200 < Text.len keyword)) keywords.

(* ===================================================================== *)
(** ** The worker *)
(* ===================================================================== *)

(** [engine.value] *)
Definition engine_value (e : SearchEngine) : string :=
  match e with
  | GOOGLE => "Google" | YOUTUBE => "YouTube" | BING => "Bing"
  | AMAZON => "Amazon" | YAHOO => "Yahoo" | EBAY => "eBay"
  | DUCKDUCKGO => "DuckDuckGo (Clearnet)"
  | DUCKDUCKGO_TOR => "DuckDuckGo (via Tor)"
  end.

(** How a worker left [scrape_keywords_worker]: the early [return], the
    [while] condition turned false, or the [break] on [Empty]. *)
Inductive Exit := NoClient | GuardFalse | QueueEmpty.

(** Where a worker thread stands.  Between two of these points the thread
    performs one action: the test of the [while] condition (which reads the
    stop flag), a [Queue.get], a block under [results_lock], or the [print]
    of the keyword followed by the call of its own client.  The [for] loop
    over the suggestions holds the lock from its first iteration to its last
    or to the one that raises; a [get] of another thread that falls between
    two of its [put]s returns what it would return after the loop, so the
    loop is one action.  An action that raises ends in the handler of the
    loop body, which logs, counts a failure and goes back to the loop
    test. *)
Inductive PC :=
| Start                                   (* entering the function *)
| LoopHead                                (* about to test the [while] condition *)
| Waiting                                 (* the condition held; inside [get] *)
| Popped (keyword : string)               (* [get] returned, lock not yet taken *)
| Querying (keyword : string)             (* recorded as scraped, about to query *)
| Handling (keyword : string) (suggestions : list Suggestion)
| Finished (why : Exit).

(** The locals of [scrape_keywords_worker]; [issued] is a ghost count of the
    calls of [client.get_suggestions]. *)
Record Worker := {
  engine : SearchEngine;
  pc : PC;
  scraped_count : Z;
  consecutive_failures : Z;
  issued : Z
}.

(** The threshold is a local constant of the function. *)
Definition max_consecutive_failures : Z := 5.

(** The locals at the entry of the function. *)
Definition spawn (e : SearchEngine) : Worker :=
  {| engine := e; pc := Start; scraped_count := 0;
     consecutive_failures := 0; issued := 0 |}.

(** The same locals at another position. *)
Definition goto (p : PC) (w : Worker) : Worker :=
  {| engine := engine w; pc := p; scraped_count := scraped_count w;
     consecutive_failures := consecutive_failures w; issued := issued w |}.

(** The [for suggestion in suggestions] loop, run under [results_lock].
    On a value that is no string the condition raises; on a string that
    cannot be printed [_save_keyword] raises, after the [put]. *)
Fixpoint add_suggestions (cfg : Setup) (source : string) (suggestions : list Suggestion)
    (s : KeywordSheeter) : Outcome KeywordSheeter :=
  match suggestions with
  | [] => Returned s
  | NotStr :: _ => Raised AttributeError s
  | Str suggestion :: rest =>
      if bool_decide (suggestion ∉ scraped_keywords s)
         && (0 <? Text.len (Text.strip suggestion))
      then
        Returned (put suggestion s) >>> λ s,
        _save_keyword cfg suggestion source s >>> λ s,
        add_suggestions cfg source rest s
      else add_suggestions cfg source rest s
  end.

(** The [while] condition. *)
Definition loop_guard (cfg : Setup) (s : KeywordSheeter) (w : Worker) : bool :=
  negb (stop_event s)
  && (scraped_count w <? max_keywords_per_engine (scraping_config cfg))
  && (consecutive_failures w <? max_consecutive_failures).

(** [client.get_suggestions(keyword)] for the worker's engine. *)
Definition ask (cfg : Setup) (e : SearchEngine) (keyword : string) : list Suggestion :=
  match clients cfg e with
  | Some client => SearchEngineClient.get_suggestions client keyword
  | None => []
  end.

(** One action of a worker thread. *)
Definition worker_step (cfg : Setup) (s : KeywordSheeter) (w : Worker)
    : KeywordSheeter * Worker :=
  match pc w with
  | Start =>
      match clients cfg (engine w) with
      | None => (logger_error "No client available" s, goto (Finished NoClient) w)
      | Some _ => (s, goto LoopHead w)
      end
  | LoopHead =>
      if loop_guard cfg s w then (s, goto Waiting w)
      else (s, goto (Finished GuardFalse) w)
  | Waiting =>
      (* [get(timeout=5)]: the oldest keyword, or [Empty] and [break] *)
      match keyword_queue s with
      | keyword :: q => (set_queue q s, goto (Popped keyword) w)
      | [] => (s, goto (Finished QueueEmpty) w)
      end
  | Popped keyword =>
      if bool_decide (keyword ∈ scraped_keywords s) then (s, goto LoopHead w)
      else (set_scraped (λ ks, ks ∪ {[keyword]}) s, goto (Querying keyword) w)
  | Querying keyword =>
      (* the "Scraping:" line, then [client.get_suggestions(keyword)] *)
      match print cfg keyword s with
      | Returned s =>
          (note_query keyword s,
           {| engine := engine w;
              pc := Handling keyword (ask cfg (engine w) keyword);
              scraped_count := scraped_count w;
              consecutive_failures := consecutive_failures w;
              issued := issued w + 1 |})
      | Raised _ s =>
          (logger_error "Error in worker" s,
           {| engine := engine w; pc := LoopHead;
              scraped_count := scraped_count w;
              consecutive_failures := consecutive_failures w + 1;
              issued := issued w |})
      end
  | Handling keyword suggestions =>
      match suggestions with
      | _ :: _ =>
          (* the counter is reset before the loop *)
          match add_suggestions cfg (engine_value (engine w)) suggestions s with
          | Returned s' =>
              (s', {| engine := engine w; pc := LoopHead;
                      scraped_count := scraped_count w + 1;
                      consecutive_failures := 0;
                      issued := issued w |})
          | Raised _ s' =>
              (logger_error "Error in worker" s',
               {| engine := engine w; pc := LoopHead;
                  scraped_count := scraped_count w;
                  consecutive_failures := 0 + 1;
                  issued := issued w |})
          end
      | [] =>
          (s, {| engine := engine w; pc := LoopHead;
                 scraped_count := scraped_count w + 1;
                 consecutive_failures := consecutive_failures w + 1;
                 issued := issued w |})
      end
  | Finished _ => (s, w)
  end.

(** [scrape_keywords_worker(engine)] run by a thread on its own: [fuel]
    actions from the entry of the function, no other thread in between. *)
Definition scrape_keywords_worker (cfg : Setup) (e : SearchEngine) (fuel : nat)
    (s : KeywordSheeter) : KeywordSheeter * Worker :=
  Nat.iter fuel (λ sw, worker_step cfg sw.1 sw.2) (s, spawn e).

(** The test after the loop that reports a tripped breaker. *)
Definition tripped (w : Worker) : bool :=
  max_consecutive_failures <=? consecutive_failures w.

(** Has the worker left the function? *)
Definition finished (w : Worker) : bool :=
  match pc w with Finished _ => true | _ => false end.

(* ===================================================================== *)
(** ** The run *)
(* ===================================================================== *)

(** The application object together with its worker threads, one for each
    selected engine.  Every interleaving of the threads is a run; the pool's
    [max_threads] only rules some of them out. *)
Record Run := {
  app : KeywordSheeter;
  workers : list Worker
}.

(** What happens next: thread [i] performs its next action, or the operator
    presses Ctrl+C. *)
Inductive Event := Step (i : nat) | Interrupt.

(** Ctrl+C sets the stop flag; a step of a thread that does not exist
    changes nothing. *)
Definition run_event (cfg : Setup) (r : Run) (ev : Event) : Run :=
  match ev with
  | Step i =>
      match workers r !! i with
      | Some w =>
          let sw := worker_step cfg (app r) w in
          {| app := sw.1; workers := <[i := sw.2]> (workers r) |}
      | None => r
      end
  | Interrupt => {| app := set_stop (app r); workers := workers r |}
  end.

(** A schedule, played from left to right. *)
Definition run_events (cfg : Setup) (r : Run) (evs : list Event) : Run :=
  foldl (run_event cfg) r evs.

(** [open(self.output_file, 'w')] followed by an empty write. *)
Definition truncate_file (s : KeywordSheeter) : Outcome KeywordSheeter :=
  match disk s with
  | false :: d => Raised OSError (set_file (file_lines s) d s)
  | true :: d => Returned (set_file [] d s)
  | [] => Returned (set_file [] [] s)
  end.

(** [start_scraping] up to the submission of the workers. *)
Definition start_scraping (cfg : Setup) (input : SeedInput) (s : KeywordSheeter) : Run :=
  match get_seed_keywords input with
  | [] => {| app := s; workers := [] |}
  | seed_keywords =>
      let s1 :=
        if save_to_file (scraping_config cfg) && bool_decide (is_Some (output_file cfg))
        then state_of (try_except (truncate_file s)
                         (λ e s, Returned (logger_error "Error initializing output file" s)))
        else s in
      {| app := foldl (λ s keyword, put keyword s) s1 seed_keywords;
         workers := spawn <$> selected_engines cfg |}
  end.

(* ===================================================================== *)
(** ** Proxies and Tor *)
(* ===================================================================== *)

Inductive ProxyType := HTTPS | SOCKS5.

(** [ProxyType(text)]; [None] stands for the [ValueError] of a text that is
    no value of the enumeration. *)
Definition ProxyType_of (text : string) : option ProxyType :=
  if Text.eqb text "HTTPS" then Some HTTPS
  else if Text.eqb text "SOCKS5" then Some SOCKS5
  else None.

Record ProxyConfig := {
  enabled : bool;
  proxy_type : option ProxyType;
  proxies : list string;
  current_proxy_index : Z
}.

(** The dataclass defaults. *)
Definition ProxyConfig_default : ProxyConfig :=
  {| enabled := false; proxy_type := None; proxies := []; current_proxy_index := 0 |}.

(** [l[i]] on a Python list: a negative index counts from the end; [None]
    stands for [IndexError]. *)
Definition py_index {A} (l : list A) (i : Z) : option A :=
  let n := Z.of_nat (length l) in
  if (0 <=? i) && (i <? n) then l !! Z.to_nat i
  else if (- n <=? i) && (i <? 0) then l !! Z.to_nat (n + i)
  else None.

Module ProxyConfig.

(** What a call that may move the cursor ends in: the returned value and
    the object as the call leaves it, or [IndexError], raised before
    anything is written. *)
Inductive Call (A : Type) :=
| Gives (a : A) (c : ProxyConfig)
| IndexError.
Arguments Gives {A} a c.
Arguments IndexError {A}.

Definition set_index (i : Z) (c : ProxyConfig) : ProxyConfig :=
  {| enabled := enabled c; proxy_type := proxy_type c; proxies := proxies c;
     current_proxy_index := i |}.

(** [get_next_proxy] *)
Definition get_next_proxy (c : ProxyConfig) : Call (option string) :=
  match proxies c with
  | [] => Gives None c
  | _ :: _ =>
      match py_index (proxies c) (current_proxy_index c) with
      | Some proxy =>
          Gives (Some proxy)
            (set_index ((current_proxy_index c + 1) `mod` Z.of_nat (length (proxies c))) c)
      | None => IndexError
      end
  end.

(** [ProxyConfig.validate] *)
Definition validate (c : ProxyConfig) : bool :=
  if negb (enabled c) then true
  else if bool_decide (proxy_type c = None) then false
  else if bool_decide (proxies c = []) then false
  else true.

End ProxyConfig.

(** [TorManager], without the controller and its lock. *)
Record TorManager := {
  control_port : Z;
  socks_port : Z
}.

Module TorManager.

(** [TorManager()] with the default ports; [None] stands for the
    [ImportError] raised without the stem library. *)
Definition init (STEM_AVAILABLE : bool) : option TorManager :=
  if negb STEM_AVAILABLE then None
  else Some {| control_port := 9051; socks_port := 9050 |}.

(** [get_proxy_dict] *)
Definition get_proxy_dict (t : TorManager) : gmap string string :=
  {[ "http" := "socks5://127.0.0.1:" +:+ pretty (socks_port t);
     "https" := "socks5://127.0.0.1:" +:+ pretty (socks_port t) ]}.

End TorManager.

(** [SearchEngineClient._get_proxies], for a client of engine [e] that
    holds [tor_manager] and shares the proxy configuration [c]. *)
Definition _get_proxies (e : SearchEngine) (tor_manager : option TorManager)
    (c : ProxyConfig) : ProxyConfig.Call (option (gmap string string)) :=
  match bool_decide (e = DUCKDUCKGO_TOR), tor_manager with
  | true, Some t => ProxyConfig.Gives (Some (TorManager.get_proxy_dict t)) c
  | _, _ =>
      if negb (enabled c) then ProxyConfig.Gives None c
      else
        match ProxyConfig.get_next_proxy c with
        | ProxyConfig.IndexError => ProxyConfig.IndexError
        | ProxyConfig.Gives None c' => ProxyConfig.Gives None c'
        | ProxyConfig.Gives (Some proxy) c' =>
            if Text.falsy proxy then ProxyConfig.Gives None c'
            else
              match proxy_type c' with
              | Some HTTPS =>
                  ProxyConfig.Gives (Some {[ "http" := proxy; "https" := proxy ]}) c'
              | Some SOCKS5 =>
                  ProxyConfig.Gives
                    (Some {[ "http" := "socks5://" +:+ proxy;
                             "https" := "socks5://" +:+ proxy ]}) c'
              | None => ProxyConfig.Gives None c'
              end
        end
  end.

(* ===================================================================== *)
(** ** The interactive set-up *)
(* ===================================================================== *)

(** What [setup_interactive_menu] works on: the fields of [KeywordSheeter]
    that the run only reads, the proxy configuration and the Tor manager. *)
Record Settings := {
  setup : Setup;
  proxy_config : ProxyConfig;
  tor_manager : option TorManager
}.

(** [KeywordSheeter.__init__], for these fields, at the terminal [tty]. *)
Definition Settings_init (tty : string → bool) : Settings :=
  {| setup := {| selected_engines := []; scraping_config := ScrapingConfig_default;
                 clients := λ _, None; output_file := None;
                 stdout_encodes := tty |};
     proxy_config := ProxyConfig_default;
     tor_manager := None |}.

Definition with_engines (es : list SearchEngine) (self : Settings) : Settings :=
  {| setup := {| selected_engines := es;
                 scraping_config := scraping_config (setup self);
                 clients := clients (setup self);
                 output_file := output_file (setup self);
                 stdout_encodes := stdout_encodes (setup self) |};
     proxy_config := proxy_config self;
     tor_manager := tor_manager self |}.

Definition with_proxy_config (c : ProxyConfig) (self : Settings) : Settings :=
  {| setup := setup self; proxy_config := c; tor_manager := tor_manager self |}.

Definition with_tor_manager (t : TorManager) (self : Settings) : Settings :=
  {| setup := setup self; proxy_config := proxy_config self; tor_manager := Some t |}.

Definition with_scraping_config (c : ScrapingConfig) (self : Settings) : Settings :=
  {| setup := {| selected_engines := selected_engines (setup self);
                 scraping_config := c;
                 clients := clients (setup self);
                 output_file := output_file (setup self);
                 stdout_encodes := stdout_encodes (setup self) |};
     proxy_config := proxy_config self;
     tor_manager := tor_manager self |}.

Definition with_output_file (f : string) (self : Settings) : Settings :=
  {| setup := {| selected_engines := selected_engines (setup self);
                 scraping_config := scraping_config (setup self);
                 clients := clients (setup self);
                 output_file := Some f;
                 stdout_encodes := stdout_encodes (setup self) |};
     proxy_config := proxy_config self;
     tor_manager := tor_manager self |}.

Definition with_client (e : SearchEngine) (c : Client) (self : Settings) : Settings :=
  {| setup := {| selected_engines := selected_engines (setup self);
                 scraping_config := scraping_config (setup self);
                 clients := λ e', if bool_decide (e' = e) then Some c
                                  else clients (setup self) e';
                 output_file := output_file (setup self);
                 stdout_encodes := stdout_encodes (setup self) |};
     proxy_config := proxy_config self;
     tor_manager := tor_manager self |}.

(** What a prompt ends in: Ctrl+C raised out of it, or its answer; the
    answer of a prompt that was cancelled is [None]. *)
Inductive Asked (A : Type) :=
| KeyboardInterrupt
| Answered (a : option A).
Arguments KeyboardInterrupt {A}.
Arguments Answered {A} a.

(** How a step of the menu ends: [sys.exit(code)], an exception that
    leaves it, or its last statement. *)
Inductive PyError := ValueError | TypeError.

Inductive Menu (A : Type) :=
| SysExit (code : Z)
| Escapes (e : PyError)
| Completed (a : A).
Arguments SysExit {A} code.
Arguments Escapes {A} e.
Arguments Completed {A} a.

Definition menu_then {A B} (m : Menu A) (k : A → Menu B) : Menu B :=
  match m with
  | SysExit code => SysExit code
  | Escapes e => Escapes e
  | Completed a => k a
  end.

(** [for engine in SearchEngine] *)
Definition all_engines : list SearchEngine :=
  [GOOGLE; YOUTUBE; BING; AMAZON; YAHOO; EBAY; DUCKDUCKGO; DUCKDUCKGO_TOR].

(** [sub in s] on strings. *)
Fixpoint contains (sub s : string) : bool :=
  String.prefix sub s
  || match s with
     | EmptyString => false
     | String _ s' => contains sub s'
     end.

(** The [choices] list of [_select_search_engines]. *)
Definition choices (STEM_AVAILABLE : bool) : list string :=
  (λ engine,
     if bool_decide (engine = DUCKDUCKGO_TOR) && negb STEM_AVAILABLE
     then engine_value engine +:+ " (Disabled - stem not available)"
     else engine_value engine) <$> all_engines.

(** The choices the checkbox shows. *)
Definition offered (STEM_AVAILABLE : bool) : list string :=
  filter (λ choice, contains "Disabled" choice = false) (choices STEM_AVAILABLE).

(** [_select_search_engines]; [answer] is what the checkbox returns. *)
Definition _select_search_engines (answer : Asked (list string)) (self : Settings)
    : Menu Settings :=
  match answer with
  | KeyboardInterrupt => SysExit 0
  | Answered None | Answered (Some []) => SysExit 1
  | Answered (Some selected) =>
      Completed
        (with_engines (filter (λ engine, engine_value engine ∈ selected) all_engines) self)
  end.

(** What reading the proxy list file ends in. *)
Inductive FileRead :=
| FileNotFoundError
| ReadError
| Content (lines : list string).

(** [[e for e in self.selected_engines if e != SearchEngine.DUCKDUCKGO_TOR]] *)
Definition without_tor (es : list SearchEngine) : list SearchEngine :=
  filter (λ e, e ≠ DUCKDUCKGO_TOR) es.

(** The first half of [_configure_proxy_settings]: the proxy prompts.
    [proxy_file] is what opening and reading the answered path ends in. *)
Definition ask_proxies (use_proxy : Asked bool) (proxy_type_answer : Asked string)
    (proxy_file : Asked FileRead) (self : Settings) : Menu Settings :=
  match use_proxy with
  | KeyboardInterrupt => SysExit 0
  | Answered (Some true) =>
      match proxy_type_answer with
      | KeyboardInterrupt => SysExit 0
      | Answered t =>
          match t ≫= ProxyType_of with
          | None => Escapes ValueError
          | Some pt =>
              let on := {| enabled := true; proxy_type := Some pt;
                           proxies := proxies (proxy_config self);
                           current_proxy_index :=
                             current_proxy_index (proxy_config self) |} in
              let off := {| enabled := false; proxy_type := Some pt;
                            proxies := proxies (proxy_config self);
                            current_proxy_index :=
                              current_proxy_index (proxy_config self) |} in
              match proxy_file with
              | KeyboardInterrupt => SysExit 0
              | Answered (Some (Content lines)) =>
                  match stripped_nonblank lines with
                  | [] => Completed (with_proxy_config off self)
                  | loaded =>
                      Completed
                        (with_proxy_config
                           {| enabled := true; proxy_type := Some pt;
                              proxies := loaded;
                              current_proxy_index :=
                                current_proxy_index (proxy_config self) |} self)
                  end
              | Answered _ => Completed (with_proxy_config off self)
              end
          end
      end
  | Answered _ => Completed self
  end.

(** The second half: the Tor engine stays selected only with a manager
    that connected.  [tor_connects] is what [TorManager.connect] returns. *)
Definition require_tor (STEM_AVAILABLE tor_connects : bool) (self : Settings) : Settings :=
  if bool_decide (DUCKDUCKGO_TOR ∈ selected_engines (setup self)) then
    if negb STEM_AVAILABLE then
      with_engines (without_tor (selected_engines (setup self))) self
    else
      match TorManager.init STEM_AVAILABLE with
      | Some t =>
          let self := with_tor_manager t self in
          if negb tor_connects
          then with_engines (without_tor (selected_engines (setup self))) self
          else self
      | None => with_engines (without_tor (selected_engines (setup self))) self
      end
  else self.

(** [_configure_proxy_settings] *)
Definition _configure_proxy_settings (STEM_AVAILABLE : bool)
    (use_proxy : Asked bool) (proxy_type_answer : Asked string)
    (proxy_file : Asked FileRead) (tor_connects : bool) (self : Settings)
    : Menu Settings :=
  menu_then (ask_proxies use_proxy proxy_type_answer proxy_file self)
    (λ self, Completed (require_tor STEM_AVAILABLE tor_connects self)).

(** [int(text)] of the text answered: [None] stands for [ValueError]. *)
Definition IntText := option Z.

(** [_configure_scraping_settings]; a cancelled confirmation stores [None]
    in [save_to_file], which counts as false wherever it is read. *)
Definition _configure_scraping_settings (max_threads_answer : Asked IntText)
    (save_file : Asked bool) (filename : Asked string) (self : Settings)
    : Menu Settings :=
  match max_threads_answer with
  | KeyboardInterrupt => SysExit 0
  | Answered None => Escapes TypeError
  | Answered (Some None) => SysExit 0
  | Answered (Some (Some n)) =>
      let self :=
        with_scraping_config
          {| max_threads := n;
             timeout := timeout (scraping_config (setup self));
             max_retries := max_retries (scraping_config (setup self));
             max_keywords_per_engine :=
               max_keywords_per_engine (scraping_config (setup self));
             save_to_file := save_to_file (scraping_config (setup self)) |} self in
      match save_file with
      | KeyboardInterrupt => SysExit 0
      | Answered save_file =>
          let self :=
            with_scraping_config
              {| max_threads := max_threads (scraping_config (setup self));
                 timeout := timeout (scraping_config (setup self));
                 max_retries := max_retries (scraping_config (setup self));
                 max_keywords_per_engine :=
                   max_keywords_per_engine (scraping_config (setup self));
                 save_to_file := default false save_file |} self in
          if default false save_file then
            match filename with
            | KeyboardInterrupt => SysExit 0
            | Answered None => Escapes TypeError
            | Answered (Some f) => Completed (with_output_file f self)
            end
          else Completed self
      end
  end.

(** [_validate_configurations] *)
Definition _validate_configurations (self : Settings) : bool :=
  if negb (ProxyConfig.validate (proxy_config self)) then false
  else if negb (validate (scraping_config (setup self))) then false
  else true.

(** The endpoints the clients talk to, each with what it answers. *)
Record Network := {
  google_net : Upstream GoogleData;
  youtube_net : Upstream GoogleData;
  bing_net : Upstream BingData;
  amazon_net : Upstream KeyedList;
  yahoo_net : Upstream KeyedList;
  ebay_net : Upstream EbayPage;
  duckduckgo_net : Upstream DuckData;
  duckduckgo_tor_net : Upstream DuckData
}.

(** The [client_classes] table of [_initialize_clients], applied. *)
Definition client_classes (net : Network) (engine : SearchEngine) : Client :=
  match engine with
  | GOOGLE => GoogleClient (google_net net)
  | YOUTUBE => YouTubeClient (youtube_net net)
  | BING => BingClient (bing_net net)
  | AMAZON => AmazonClient (amazon_net net)
  | YAHOO => YahooClient (yahoo_net net)
  | EBAY => EbayClient (ebay_net net)
  | DUCKDUCKGO => DuckDuckGoClient (duckduckgo_net net)
  | DUCKDUCKGO_TOR => DuckDuckGoClient (duckduckgo_tor_net net)
  end.

(** [_initialize_clients]; [raises] tells for which engines the
    construction of the client raises. *)
Definition _initialize_clients (net : Network) (raises : SearchEngine → bool)
    (self : Settings) : Settings :=
  foldl (λ self engine,
           if raises engine then self
           else with_client engine (client_classes net engine) self)
        self (selected_engines (setup self)).

(** The operator's answers and what the environment does, in the order
    [setup_interactive_menu] meets them. *)
Record Session := {
  STEM_AVAILABLE : bool;
  engines_answer : Asked (list string);
  use_proxy_answer : Asked bool;
  proxy_type_answer : Asked string;
  proxy_file_read : Asked FileRead;
  tor_connects : bool;
  max_threads_answer : Asked IntText;
  save_file_answer : Asked bool;
  filename_answer : Asked string;
  network : Network;
  client_raises : SearchEngine → bool
}.

(** The three configuration steps of [setup_interactive_menu]. *)
Definition configure (io : Session) (self : Settings) : Menu Settings :=
  menu_then (_select_search_engines (engines_answer io) self) (λ self,
  menu_then (_configure_proxy_settings (STEM_AVAILABLE io) (use_proxy_answer io)
               (proxy_type_answer io) (proxy_file_read io) (tor_connects io) self)
    (λ self,
  _configure_scraping_settings (max_threads_answer io) (save_file_answer io)
    (filename_answer io) self)).

(** [setup_interactive_menu] *)
Definition setup_interactive_menu (io : Session) (self : Settings) : Menu Settings :=
  menu_then (configure io self) (λ self,
  if negb (_validate_configurations self) then SysExit 1
  else Completed (_initialize_clients (network io) (client_raises io) self)).

(* ===================================================================== *)
(** * Vocabulary of the properties *)
(* ===================================================================== *)

(** Predicates, invariants, measures and inputs that the statements below
    are written with. *)

(** ** Clients, sink, suggestion loop *)

(** The exchange for the request text [q] ended in an exception: the client
    got no decoded payload. *)
Definition reply_failed (c : Client) (q : string) : Prop :=
  match c with
  | GoogleClient net | YouTubeClient net => ∀ d, net q ≠ Decoded d
  | BingClient net => ∀ d, net q ≠ Decoded d
  | AmazonClient net | YahooClient net => ∀ d, net q ≠ Decoded d
  | EbayClient net => ∀ d, net q ≠ Decoded d
  | DuckDuckGoClient net => ∀ d, net q ≠ Decoded d
  end.

(** Does the next [open] of the output file succeed? *)
Definition write_ok (d : list bool) : bool :=
  match d with false :: _ => false | _ => true end.

(** Is writing to the output file switched on? *)
Definition saving (cfg : Setup) : bool :=
  save_to_file (scraping_config cfg) && bool_decide (is_Some (output_file cfg)).

(** The condition of the suggestion loop on a string: not in the scraped
    set and not blank. *)
Definition fresh (ks : gset string) (x : string) : bool :=
  bool_decide (x ∉ ks) && (0 <? Text.len (Text.strip x)).

(** What the suggestion loop puts on the queue, given the scraped set: the
    fresh strings, up to the first value that is no string, or up to and
    with the first fresh string that cannot be printed. *)
Fixpoint queued_by (cfg : Setup) (ks : gset string) (suggestions : list Suggestion)
    : list string :=
  match suggestions with
  | [] => []
  | NotStr :: _ => []
  | Str x :: rest =>
      if fresh ks x then
        if stdout_encodes cfg x then x :: queued_by cfg ks rest else [x]
      else queued_by cfg ks rest
  end.

(** The keywords of a list that the terminal can print. *)
Definition shown (cfg : Setup) (l : list string) : list string :=
  filter (λ x, stdout_encodes cfg x = true) l.

(** What it shows: all of them but the one that cannot be printed. *)
Definition shown_by (cfg : Setup) (ks : gset string) (suggestions : list Suggestion)
    : list string :=
  filter (λ x, stdout_encodes cfg x = true) (queued_by cfg ks suggestions).

(** Does the loop run to its end? *)
Fixpoint completes (cfg : Setup) (ks : gset string) (suggestions : list Suggestion)
    : bool :=
  match suggestions with
  | [] => true
  | NotStr :: _ => false
  | Str x :: rest =>
      if fresh ks x then stdout_encodes cfg x && completes cfg ks rest
      else completes cfg ks rest
  end.

(** The locals after the [Handling] action, taken with the scraped set
    [ks]. *)
Definition after_handling (cfg : Setup) (ks : gset string) (w : Worker)
    (suggestions : list Suggestion) : Worker :=
  {| engine := engine w; pc := LoopHead;
     scraped_count :=
       if completes cfg ks suggestions then scraped_count w + 1 else scraped_count w;
     consecutive_failures :=
       match suggestions with
       | [] => consecutive_failures w + 1
       | _ => if completes cfg ks suggestions then 0 else 1
       end;
     issued := issued w |}.

(** The locals after a [print] of the keyword that raised. *)
Definition after_print_failure (w : Worker) : Worker :=
  {| engine := engine w; pc := LoopHead;
     scraped_count := scraped_count w;
     consecutive_failures := consecutive_failures w + 1;
     issued := issued w |}.

(** The locals after the query. *)
Definition after_query (cfg : Setup) (w : Worker) (keyword : string) : Worker :=
  {| engine := engine w;
     pc := Handling keyword (ask cfg (engine w) keyword);
     scraped_count := scraped_count w;
     consecutive_failures := consecutive_failures w;
     issued := issued w + 1 |}.

(** A suggestion that is a string the terminal can print. *)
Definition printable (cfg : Setup) (v : Suggestion) : Prop :=
  ∃ x, v = Str x ∧ stdout_encodes cfg x = true.

(** The sources yield only such suggestions: the suggestion loop never
    raises. *)
Definition tame (cfg : Setup) : Prop :=
  ∀ e keyword, Forall (printable cfg) (ask cfg e keyword).

(** ** Counters of one worker *)

Definition cap (cfg : Setup) : Z := max_keywords_per_engine (scraping_config cfg).

(** What the loop keeps true of the counters: the count stays within the
    cap, a keyword in hand means the cap was not reached when it was taken,
    and [issued] runs one ahead of [scraped_count] exactly while an answer
    is being handled. *)
Definition cap_inv (cfg : Setup) (w : Worker) : Prop :=
  0 ≤ scraped_count w ∧ scraped_count w ≤ Z.max 0 (cap cfg) ∧
  match pc w with
  | Handling _ l =>
      issued w = scraped_count w + 1 ∧ scraped_count w < cap cfg
      ∧ Forall (printable cfg) l
  | Waiting | Popped _ | Querying _ =>
      issued w = scraped_count w ∧ scraped_count w < cap cfg
  | _ => issued w = scraped_count w
  end.


(** The worker's source never yields a suggestion. *)
Definition always_fails (cfg : Setup) (e : SearchEngine) : Prop :=
  ∀ keyword, ask cfg e keyword = [].

(** What the loop keeps true of a worker whose source always fails: every
    processed keyword was a failure, the counter never passes the threshold,
    and a loop ended by its condition saw the stop flag, the cap or the
    threshold. *)
Definition breaker_inv (cfg : Setup) (stop : bool) (w : Worker) : Prop :=
  0 ≤ scraped_count w ≤ consecutive_failures w
  ∧ consecutive_failures w ≤ max_consecutive_failures
  ∧ ((∀ k, stdout_encodes cfg k = true) → consecutive_failures w = scraped_count w)
  ∧ match pc w with
    | Handling _ l =>
        l = [] ∧ issued w = scraped_count w + 1
        ∧ consecutive_failures w < max_consecutive_failures
    | Waiting | Popped _ | Querying _ =>
        issued w = scraped_count w
        ∧ consecutive_failures w < max_consecutive_failures
    | Finished GuardFalse =>
        issued w = scraped_count w
        ∧ (stop = true ∨ cap cfg ≤ scraped_count w
           ∨ max_consecutive_failures ≤ consecutive_failures w)
    | _ => issued w = scraped_count w
    end.

(** [n] consecutive actions of one worker from any position, no other
    thread in between. *)
Definition solo (cfg : Setup) (n : nat) (sw : KeywordSheeter * Worker)
    : KeywordSheeter * Worker :=
  Nat.iter n (λ sw, worker_step cfg sw.1 sw.2) sw.

(** The locals after [n] more failed queries. *)
Definition after_failures (n : Z) (w : Worker) : Worker :=
  {| engine := engine w; pc := LoopHead;
     scraped_count := scraped_count w + n;
     consecutive_failures := consecutive_failures w + n;
     issued := issued w + n |}.

(** ** Deduplication *)

(** The keyword a worker has recorded as scraped and is about to query. *)
Definition pend (w : Worker) : option string :=
  match pc w with Querying keyword => Some keyword | _ => None end.

(** Those keywords over all workers. *)
Definition pending (ws : list Worker) : list string := omap pend ws.

(** Every keyword queried or about to be queried is in the scraped set, and
    none occurs twice. *)
Definition dedup_inv (r : Run) : Prop :=
  NoDup (query_log (app r) ++ pending (workers r))
  ∧ ∀ k, k ∈ query_log (app r) ++ pending (workers r) → k ∈ scraped_keywords (app r).

(** ** Termination *)

(** No source ever yields a suggestion. *)
Definition quiet (cfg : Setup) : Prop := ∀ e keyword, ask cfg e keyword = [].

(** Every suggestion any source yields belongs to the finite set [V]:
    the sources bring nothing from outside [V]. *)
Definition within (cfg : Setup) (V : gset string) : Prop :=
  ∀ e keyword x, Str x ∈ ask cfg e keyword → x ∈ V.

(** The keywords a worker holds belong to [V], and an answer in hand has at
    most twenty entries (the clients cut their lists). *)
Definition known_worker (V : gset string) (w : Worker) : Prop :=
  match pc w with
  | Popped k => k ∈ V
  | Handling _ l => (∀ x, Str x ∈ l → x ∈ V) ∧ (length l ≤ 20)%nat
  | _ => True
  end.

(** All keywords in circulation belong to [V]. *)
Definition known (V : gset string) (r : Run) : Prop :=
  (∀ k, k ∈ keyword_queue (app r) → k ∈ V) ∧ Forall (known_worker V) (workers r).

(** The work a worker still has in hand: a keyword about to be queried
    stands for the query, up to twenty new queue entries and their
    handling. *)
Definition weight (w : Worker) : nat :=
  match pc w with
  | Finished _ => 0
  | Waiting => 1
  | LoopHead => 2
  | Start => 3
  | Handling _ l => 3 + 5 * length l
  | Popped _ => 5
  | Querying _ => 104
  end.

(** The measure of a run: a hundred units for each keyword of [V] not yet
    scraped, five for each queued keyword (condition, take, test, and back,
    when it is skipped), and the work in hand. *)
Definition work (V : gset string) (r : Run) : nat :=
  (100 * size (V ∖ scraped_keywords (app r))
   + 5 * length (keyword_queue (app r)) + sum_list (weight <$> workers r))%nat.

(** Worker [i] exists and has not finished. *)
Definition live (r : Run) (i : nat) : Prop :=
  ∃ w, workers r !! i = Some w ∧ finished w = false.

(** A schedule that only steps workers that have not finished. *)
Fixpoint effective (cfg : Setup) (r : Run) (evs : list Event) : Prop :=
  match evs with
  | [] => True
  | ev :: evs' =>
      match ev with Step i => live r i | Interrupt => True end
      ∧ effective cfg (run_event cfg r ev) evs'
  end.

(** The number of worker actions in a schedule. *)
Definition is_step (ev : Event) : bool :=
  match ev with Step _ => true | Interrupt => false end.

Definition steps_in (evs : list Event) : nat := length (filter is_step evs).

Definition all_finished (r : Run) : Prop :=
  Forall (λ w, finished w = true) (workers r).

(** ** Inputs of the scenarios *)

(** A configuration with the given engines and clients, the default
    settings and the given cap, at a terminal that encodes every text. *)
Definition setup_with (engines : list SearchEngine)
    (cl : SearchEngine → option Client) (max_per_engine : Z) : Setup :=
  {| selected_engines := engines;
     scraping_config :=
       {| max_threads := 5; timeout := 10; max_retries := 3;
          max_keywords_per_engine := max_per_engine; save_to_file := true |};
     clients := cl;
     output_file := Some "keywords_output.txt";
     stdout_encodes := λ _, true |}.

(** A Google client whose every request fails. *)
Definition unreachable_google : Client := GoogleClient (λ _, RequestException).

(** The [clients] dict with a single entry, for Google. *)
Definition only_google (c : Client) (e : SearchEngine) : option Client :=
  match e with GOOGLE => Some c | _ => None end.

(** A Google client that answers every query with two of the seeds. *)
Definition seed_echo_google : Client :=
  GoogleClient (λ _, Decoded (GList [GStr "k1"; GStr "k2"])).

(** A seed file of six distinct keywords. *)
Definition six_lines : SeedInput :=
  LoadFromFile (Some ["k1"; "k2"; "k3"; "k4"; "k5"; "k6"]).

(** C3 as the specification words it: a worker whose source always fails,
    whose loop ended without starving and without a stop request, has made
    exactly five queries. *)
Definition halts_after_exactly_five (cfg : Setup) (r0 : Run) (i : nat) : Prop :=
  ∀ evs w,
    workers (run_events cfg r0 evs) !! i = Some w →
    pc w = Finished GuardFalse →
    stop_event (app (run_events cfg r0 evs)) = false →
    issued w = 5.


(** Two sources that answer every query with the same single suggestion. *)
Definition widget_google : Client :=
  GoogleClient (λ _, Decoded (GList [GStr "blue widget"])).

Definition widget_bing : Client :=
  BingClient (λ _, Decoded
    {| AS_Results :=
         Some [ {| Suggests := Some [ {| Txt := Some (Str "blue widget") |} ] |} ] |}).

Definition widget_setup : Setup :=
  setup_with [GOOGLE; BING]
    (λ e, match e with
          | GOOGLE => Some widget_google
          | BING => Some widget_bing
          | _ => None
          end) 1000.

(** Each worker takes one of the two seeds and records it; both then query
    and both handle the answer. *)
Definition widget_schedule : list Event :=
  [Step 0; Step 0; Step 0; Step 0; Step 1; Step 1; Step 1; Step 1;
   Step 0; Step 1; Step 0; Step 1]%nat.

(** C7's normal form of a keyword: trimmed, not empty, at most 200
    characters. *)
Definition normalized (keyword : string) : Prop :=
  Text.strip keyword = keyword ∧ keyword ≠ EmptyString ∧ Text.len keyword ≤ 200.

(** The text does not begin with white space. *)
Definition tight_left (s : string) : Prop :=
  match s with EmptyString => True | String c _ => Text.is_space c = false end.

(** A text of 201 characters. *)
Definition long_text : string := string_of_list_ascii (repeat "a"%char 201).

(** A source that answers with a padded and an over-long suggestion. *)
Definition shoes_google : Client :=
  GoogleClient (λ _, Decoded (GList [GStr "  running shoes "; GStr long_text])).

Definition shoes_setup : Setup :=
  setup_with [GOOGLE] (only_google shoes_google) 1000.

(** ** Keywords in circulation, the file, cancellation *)

(** A keyword with something left after trimming. *)
Definition nonblank (k : string) : Prop := Text.strip k ≠ EmptyString.

(** The keyword a worker has in hand. *)
Definition held (w : Worker) : list string :=
  match pc w with
  | Popped k | Querying k | Handling k _ => [k]
  | _ => []
  end.

(** The lines that reach the output file when the keywords [ks] are saved
    one after the other against the file-system script [d]: the keyword of
    a refused [open] is lost, the others are appended in order. *)
Fixpoint written (d : list bool) (ks : list string) : list string :=
  match ks with
  | [] => []
  | k :: ks' =>
      match d with
      | false :: d' => written d' ks'
      | true :: d' => k :: written d' ks'
      | [] => k :: ks'
      end
  end.

(** The successive actions of one worker, each against the shared state of
    its moment: between two of them other threads may have run. *)
Fixpoint steps_through (cfg : Setup) (ss : list KeywordSheeter) (w : Worker) : Worker :=
  match ss with
  | [] => w
  | s :: ss' => steps_through cfg ss' (worker_step cfg s w).2
  end.

(** How far a worker is from leaving the loop once the stop flag is up. *)
Definition rank (w : Worker) : nat :=
  match pc w with
  | Finished _ => 0
  | LoopHead => 1
  | Start => 2
  | Handling _ _ => 2
  | Querying _ => 3
  | Popped _ => 4
  | Waiting => 5
  end.

(** Every scraped keyword has been queried, or is about to be, or could not
    be printed; every queried keyword could. *)
Definition scraped_accounted (cfg : Setup) (r : Run) : Prop :=
  (∀ x, x ∈ scraped_keywords (app r) →
        x ∈ query_log (app r) ++ pending (workers r) ∨ stdout_encodes cfg x = false)
  ∧ Forall (λ k, stdout_encodes cfg k = true) (query_log (app r)).

(** The pieces of the operator's answer that [get_seed_keywords] reads. *)
Definition pieces (input : SeedInput) : list string :=
  match input with
  | TypeManually seed_input =>
      if Text.falsy seed_input then [] else split_comma seed_input
  | LoadFromFile (Some lines) => lines
  | LoadFromFile None => []
  end.

(** The failure count of a worker stays between zero and the threshold;
    anywhere but at the loop test and behind it, it is below the threshold;
    the processed count never goes down from zero. *)
Definition failures_inv (w : Worker) : Prop :=
  0 ≤ consecutive_failures w ≤ max_consecutive_failures
  ∧ 0 ≤ scraped_count w
  ∧ match pc w with
    | LoopHead | Finished GuardFalse => True
    | _ => consecutive_failures w < max_consecutive_failures
    end.

(** Every keyword in circulation has been put on the queue, and only
    non-blank keywords have been. *)
Definition circulating (r : Run) : Prop :=
  Forall nonblank (put_log (app r))
  ∧ keyword_queue (app r) ⊆ put_log (app r)
  ∧ query_log (app r) ⊆ put_log (app r)
  ∧ Forall (λ w, held w ⊆ put_log (app r)) (workers r).

(** A state with one keyword queued in which Ctrl+C has been pressed. *)
Definition stopped_app : KeywordSheeter :=
  set_stop (put "shoes" (KeywordSheeter_init [])).

(** A worker blocked in [get]. *)
Definition waiting_google : Worker := goto Waiting (spawn GOOGLE).

(** A file that holds the keywords one per line, as [_save_keyword] writes
    them. *)
Definition one_per_line (ks : list string) : string :=
  foldr (λ k rest, k +:+ newline +:+ rest) EmptyString ks.

(** The keyword holds no line end. *)
Definition single_line (k : string) : bool :=
  forallb (λ c, negb (Ascii.eqb c "010"%char || Ascii.eqb c "013"%char))
    (list_ascii_of_string k).

(** Each keyword with a line feed at its end. *)
Definition with_line_ends (ks : list string) : list string :=
  (λ k, k +:+ newline) <$> ks.

(** A piece of the operator's answer that yields no seed. *)
Definition unusable (p : string) : Prop :=
  Text.strip p = EmptyString ∨ 200 < Text.len (Text.strip p).

(** The application object over the output file of an earlier run, on a
    file system that refuses the next [open]. *)
Definition stale_app : KeywordSheeter :=
  set_file ["old keyword"] [false] (KeywordSheeter_init []).

(** A text as the group [([^<]+)] of eBay's pattern captures it: no
    character of it opens a tag. *)
Definition tagless (m : string) : Prop := "<"%char ∉ list_ascii_of_string m.

(** An eBay page with one related search. *)
Definition ebay_page : EbayPage := {| matches := [" vintage camera "] |}.

(** A worker that never entered the loop. *)
Definition idle (w : Worker) : Prop :=
  (pc w = Start ∨ pc w = Finished NoClient)
  ∧ scraped_count w = 0 ∧ consecutive_failures w = 0 ∧ issued w = 0.

(** ** The cap as a bound on the whole run *)

(** The requests the workers have sent, all together. *)
Definition total_issued (ws : list Worker) : Z := foldr (λ w a, issued w + a) 0 ws.

(** The iterations the cap still allows a worker. *)
Definition budget (cfg : Setup) (w : Worker) : nat :=
  Z.to_nat (cap cfg - scraped_count w).

(** How far a worker is from its next loop test. *)
Definition stage (w : Worker) : nat :=
  match pc w with
  | Finished _ => 0
  | Waiting => 1
  | LoopHead => 2
  | Start => 3
  | Handling _ _ => 3
  | Querying _ => 4
  | Popped _ => 5
  end.

(** What a worker can still cost: an iteration may put twenty keywords on
    the queue, and each of them costs a [get] and a look at the scraped
    set. *)
Definition load (cfg : Setup) (w : Worker) : nat := (stage w + 100 * budget cfg w)%nat.

Definition effort (cfg : Setup) (r : Run) : nat :=
  (5 * length (keyword_queue (app r)) + sum_list (load cfg <$> workers r))%nat.

(** The counters are within the cap and an answer in hand is short. *)
Definition capped (cfg : Setup) (w : Worker) : Prop :=
  cap_inv cfg w
  ∧ match pc w with Handling _ l => (length l ≤ 20)%nat | _ => True end.


(** Every keyword that was put on the queue is still there, or is in the
    scraped set, or is held by the worker that has just taken it. *)
Definition accounted (r : Run) : Prop :=
  ∀ k, k ∈ put_log (app r) →
       k ∈ keyword_queue (app r) ∨ k ∈ scraped_keywords (app r)
       ∨ ∃ w, w ∈ workers r ∧ pc w = Popped k.

(** ** Proxies and the set-up *)

(** [n] successive calls of [get_next_proxy], with what they returned. *)
Fixpoint successive_proxies (n : nat) (c : ProxyConfig)
    : ProxyConfig.Call (list (option string)) :=
  match n with
  | O => ProxyConfig.Gives [] c
  | S n' =>
      match ProxyConfig.get_next_proxy c with
      | ProxyConfig.IndexError => ProxyConfig.IndexError
      | ProxyConfig.Gives proxy c' =>
          match successive_proxies n' c' with
          | ProxyConfig.IndexError => ProxyConfig.IndexError
          | ProxyConfig.Gives rest c'' => ProxyConfig.Gives (proxy :: rest) c''
          end
      end
  end.

(** The cursor points into the list. *)
Definition cursor_valid (c : ProxyConfig) : Prop :=
  0 ≤ current_proxy_index c < Z.of_nat (length (proxies c)).

(** Proxies are on and a request finds all it needs: a type, a cursor
    inside the list, and no empty entry. *)
Definition ready (c : ProxyConfig) : Prop :=
  enabled c = true ∧ is_Some (proxy_type c) ∧ cursor_valid c
  ∧ Forall (λ proxy, proxy ≠ EmptyString) (proxies c).

(** The address a request is sent through, for the proxy [proxy]. *)
Definition endpoint (c : ProxyConfig) (proxy : string) : string :=
  match proxy_type c with
  | Some SOCKS5 => "socks5://" +:+ proxy
  | _ => proxy
  end.

(** Three SOCKS5 proxies, the second one next. *)
Definition three_proxies : ProxyConfig :=
  {| enabled := true; proxy_type := Some SOCKS5;
     proxies := ["10.0.0.1:1080"; "10.0.0.2:1080"; "10.0.0.3:1080"];
     current_proxy_index := 1 |}.

(** A network on which nothing answers. *)
Definition silent_network : Network :=
  {| google_net := λ _, RequestException; youtube_net := λ _, RequestException;
     bing_net := λ _, RequestException; amazon_net := λ _, RequestException;
     yahoo_net := λ _, RequestException; ebay_net := λ _, RequestException;
     duckduckgo_net := λ _, RequestException;
     duckduckgo_tor_net := λ _, RequestException |}.

(** A session: Google and Bing ticked, SOCKS5 proxies from a file of one
    proxy and a blank line, eight threads, results saved. *)
Definition sample_session : Session :=
  {| STEM_AVAILABLE := false;
     engines_answer := Answered (Some ["Google"; "Bing"]);
     use_proxy_answer := Answered (Some true);
     proxy_type_answer := Answered (Some "SOCKS5");
     proxy_file_read := Answered (Some (Content [" 10.0.0.1:1080 " +:+ newline; newline]));
     tor_connects := false;
     max_threads_answer := Answered (Some (Some 8));
     save_file_answer := Answered (Some true);
     filename_answer := Answered (Some "out.txt");
     network := silent_network;
     client_raises := λ _, false |}.

(** A terminal that encodes every text. *)
Definition plain_tty : string → bool := λ _, true.

(** The application with only the Tor engine selected. *)
Definition tor_selected : Settings :=
  with_engines [DUCKDUCKGO_TOR] (Settings_init plain_tty).

(** ** Suggestions that make the loop body raise *)

(** The texts of this model are over 256 characters, read as the code
    points below 256.  To have a text that a UTF-8 terminal refuses, the
    last of them is made to stand for a lone surrogate, which a JSON escape
    between [\ud800] and [\udfff] decodes to and which no UTF-8 encoder
    accepts. *)
Definition surrogate : ascii := "255"%char.

(** A terminal whose encoding is UTF-8: it refuses the texts that hold a
    lone surrogate. *)
Definition utf8_tty (s : string) : bool :=
  forallb (λ c, negb (Ascii.eqb c surrogate)) (list_ascii_of_string s).

Definition lone_surrogate : string := String surrogate EmptyString.

(** The same configuration at another terminal. *)
Definition at_terminal (tty : string → bool) (cfg : Setup) : Setup :=
  {| selected_engines := selected_engines cfg;
     scraping_config := scraping_config cfg;
     clients := clients cfg;
     output_file := output_file cfg;
     stdout_encodes := tty |}.

(** An Amazon service that answers every query with a longer keyword and a
    number. *)
Definition numeric_amazon : Client :=
  AmazonClient (λ q, Decoded {| entries := Some [Some (Str (q +:+ " case")); Some NotStr] |}).

Definition only_amazon (c : Client) (e : SearchEngine) : option Client :=
  match e with AMAZON => Some c | _ => None end.

Definition numeric_setup : Setup := setup_with [AMAZON] (only_amazon numeric_amazon) 1.

(** A Yahoo service that answers every query with a text holding a lone
    surrogate. *)
Definition surrogate_yahoo : Client :=
  YahooClient (λ _, Decoded {| entries := Some [Some (Str ("shoes " +:+ lone_surrogate))] |}).

(** Google cannot be reached, Yahoo answers as above; the terminal is a
    UTF-8 one and the cap is the default. *)
Definition surrogate_setup : Setup :=
  at_terminal utf8_tty
    (setup_with [GOOGLE; YAHOO]
       (λ e, match e with
             | GOOGLE => Some unreachable_google
             | YAHOO => Some surrogate_yahoo
             | _ => None
             end) 1000).

(** Yahoo's worker takes the first two seeds and queues its suggestion
    twice; Google's worker then runs alone. *)
Definition surrogate_schedule : list Event :=
  repeat (Step 1%nat) 11 ++ repeat (Step 0%nat) 26.


(** C6 as the specification words it: an answer that holds suggestions
    leaves the failure counter at zero. *)
Definition resets_on_success (cfg : Setup) : Prop :=
  ∀ s s2 w keyword c,
    pc w = Querying keyword → clients cfg (engine w) = Some c →
    stdout_encodes cfg keyword = true →
    SearchEngineClient.get_suggestions c keyword ≠ [] →
    consecutive_failures (worker_step cfg s2 (worker_step cfg s w).2).2 = 0.

(** C9 as the specification words it: [_save_keyword] never raises. *)
Definition save_never_raises (cfg : Setup) : Prop :=
  ∀ keyword source s, ∃ s', _save_keyword cfg keyword source s = Returned s'.

(* ===================================================================== *)
(** * Properties *)
(* ===================================================================== *)

(** ** Clients *)

Section ClientFacts.

Import Text SearchEngineClient.

Lemma falsy_spec (s : string) : falsy s = true ↔ s = EmptyString.
Proof. destruct s; simpl; split; congruence. Qed.

Lemma eqb_spec (a b : string) : eqb a b = true ↔ a = b.
Proof. unfold eqb. apply bool_decide_eq_true. Qed.

Lemma eqb_neq (a b : string) : eqb a b = false → a ≠ b.
Proof. unfold eqb. apply bool_decide_eq_false. Qed.

Lemma lstrip_empty : lstrip EmptyString = EmptyString.
Proof. reflexivity. Qed.

Lemma strip_empty : strip EmptyString = EmptyString.
Proof. reflexivity. Qed.

(** [_validate_keyword] rejects exactly the keywords whose trimmed text is
    empty or longer than 200 characters. *)
Lemma validate_keyword_false (keyword : string) :
  _validate_keyword keyword = false ↔
  strip keyword = EmptyString ∨ 200 < len (strip keyword).
Proof.
  unfold _validate_keyword.
  destruct (falsy keyword) eqn:Hk; simpl.
  - apply falsy_spec in Hk. subst. rewrite strip_empty. tauto.
  - destruct (falsy (strip keyword)) eqn:Hs.
    + apply falsy_spec in Hs. tauto.
    + destruct (Z.ltb_spec 200 (len (strip keyword))) as [Hlt|Hge].
      * tauto.
      * split; [discriminate|].
        intros [He|Hlt]; [|lia].
        apply falsy_spec in He. congruence.
Qed.

Lemma fetch_and_pick_invalid {B} (net : Upstream B) pick limit keyword :
  _validate_keyword keyword = false →
  fetch_and_pick net pick limit keyword = ([], []).
Proof. intros Hv. unfold fetch_and_pick. by rewrite Hv. Qed.

Lemma get_suggestions_invalid (c : Client) (keyword : string) :
  _validate_keyword keyword = false →
  get_suggestions_traced c keyword = ([], []).
Proof.
  intros Hv. destruct c; simpl; by apply fetch_and_pick_invalid.
Qed.

(** Each pick leaves the keyword out. *)
Lemma google_shape_excludes keyword d : keyword ∉ google_shape keyword d.
Proof.
  destruct d as [|data1]; simpl; [apply not_elem_of_nil|].
  unfold google_pick. intros [it [_ Hit]]%list_elem_of_omap.
  destruct it as [s|]; [|discriminate].
  destruct (eqb s keyword) eqn:He; [discriminate|].
  injection Hit as ->. by apply eqb_neq in He.
Qed.

Lemma differs_spec v keyword : differs v keyword = true ↔ v ≠ Str keyword.
Proof.
  destruct v as [s|]; simpl; [|done].
  unfold eqb. rewrite negb_true_iff, bool_decide_eq_false. split; congruence.
Qed.

Lemma bing_pick_excludes keyword d : Str keyword ∉ bing_pick keyword d.
Proof.
  unfold bing_pick. destruct (AS_Results d) as [results|]; [|apply not_elem_of_nil].
  intros [result [Hin _]]%list_elem_of_bind.
  destruct (Suggests result) as [suggests|]; [|by apply not_elem_of_nil in Hin].
  apply list_elem_of_omap in Hin as [suggest [_ Hs]].
  destruct (Txt suggest) as [t|]; [|discriminate].
  destruct (differs t keyword) eqn:He; [|discriminate].
  injection Hs as ->. by apply differs_spec in He.
Qed.

Lemma keyed_pick_excludes keyword d : Str keyword ∉ keyed_pick keyword d.
Proof.
  unfold keyed_pick. destruct (entries d) as [items|]; [|apply not_elem_of_nil].
  intros [item [_ Hs]]%list_elem_of_omap.
  destruct item as [v|]; [|discriminate].
  destruct (differs v keyword) eqn:He; [|discriminate].
  injection Hs as ->. by apply differs_spec in He.
Qed.

Lemma ebay_pick_excludes keyword p : keyword ∉ ebay_pick keyword p.
Proof.
  unfold ebay_pick. intros [m [_ Hs]]%list_elem_of_omap. simpl in Hs.
  destruct (falsy (strip (drop_tags None m))); [discriminate|].
  destruct (eqb (strip (drop_tags None m)) keyword) eqn:He; [discriminate|].
  injection Hs as Hs. by apply eqb_neq in He.
Qed.

Lemma duck_pick_excludes keyword d : Str keyword ∉ duck_pick keyword d.
Proof.
  destruct d as [|data]; simpl; [apply not_elem_of_nil|].
  destruct (1 <? Z.of_nat (length data)); [|apply not_elem_of_nil].
  intros [item [_ Hs]]%list_elem_of_omap.
  destruct item as [[phrase|]|s|]; try discriminate.
  - destruct (differs phrase keyword) eqn:He; [|discriminate].
    injection Hs as ->. by apply differs_spec in He.
  - destruct (eqb s keyword) eqn:He; [discriminate|].
    injection Hs as ->. by apply eqb_neq in He.
Qed.

Lemma texts_excludes {B} (pick : string → B → list string) keyword d :
  keyword ∉ pick keyword d → Str keyword ∉ texts pick keyword d.
Proof.
  intros Hpick. unfold texts. intros (x & [= <-] & Hx)%list_elem_of_fmap. done.
Qed.

Lemma fetch_and_pick_excludes {B} (net : Upstream B) pick limit keyword :
  (∀ d, Str keyword ∉ pick keyword d) →
  Str keyword ∉ (fetch_and_pick net pick limit keyword).1.
Proof.
  intros Hpick. unfold fetch_and_pick.
  destruct (negb (_validate_keyword keyword)); simpl; [apply not_elem_of_nil|].
  destruct (net (strip keyword)) as [| | |data]; simpl;
    try apply not_elem_of_nil.
  intros Hin. apply (Hpick data). unfold slice_to in Hin.
  by apply (subseteq_take limit).
Qed.

(** A failed exchange gives the empty list, whatever the exception. *)
Lemma fetch_and_pick_failed {B} (net : Upstream B) pick limit keyword :
  (∀ d, net (strip keyword) ≠ Decoded d) →
  (fetch_and_pick net pick limit keyword).1 = [].
Proof.
  intros Hfail. unfold fetch_and_pick.
  destruct (negb (_validate_keyword keyword)); [reflexivity|].
  destruct (net (strip keyword)) as [| | |data]; try reflexivity.
  by destruct (Hfail data).
Qed.

End ClientFacts.

Create HintDb picks.
#[global] Hint Resolve google_shape_excludes bing_pick_excludes keyed_pick_excludes
  ebay_pick_excludes duck_pick_excludes : picks.

Lemma get_suggestions_failed (c : Client) (keyword : string) :
  reply_failed c (Text.strip keyword) →
  SearchEngineClient.get_suggestions c keyword = [].
Proof.
  unfold SearchEngineClient.get_suggestions.
  destruct c; simpl; intros Hf; by apply fetch_and_pick_failed.
Qed.

(** C8: for every client, keyword and upstream behaviour, the list returned
    by [get_suggestions] does not contain the keyword it was called with. *)
Theorem get_suggestions_excludes_keyword (c : Client) (keyword : string) :
  Str keyword ∉ SearchEngineClient.get_suggestions c keyword.
Proof.
  unfold SearchEngineClient.get_suggestions.
  destruct c; simpl; apply fetch_and_pick_excludes; intros d;
    try apply texts_excludes; auto with picks.
Qed.

(** The comparison is with the keyword as it was passed.  For a padded
    keyword the request carries the stripped text, and an answer equal to
    that stripped text is kept. *)
Remark padded_keyword_echo :
  SearchEngineClient.get_suggestions
    (GoogleClient (λ q, Decoded (GList [GStr q; GStr "running shoes"]))) " shoes"
  = [Str "shoes"; Str "running shoes"].
Proof. reflexivity. Qed.

(** ** The sink *)

Lemma save_keyword_returns cfg keyword source s :
  ∃ s', _save_keyword cfg keyword source s =
          (if stdout_encodes cfg keyword then Returned s'
           else Raised UnicodeEncodeError s')
        ∧ scraped_keywords s' = scraped_keywords s
        ∧ keyword_queue s' = keyword_queue s
        ∧ stop_event s' = stop_event s
        ∧ put_log s' = put_log s
        ∧ query_log s' = query_log s
        ∧ terminal s' =
            (if stdout_encodes cfg keyword then terminal s ++ [keyword] else terminal s)
        ∧ file_lines s' =
            (if stdout_encodes cfg keyword && saving cfg && write_ok (disk s)
             then file_lines s ++ [keyword] else file_lines s).
Proof.
  unfold _save_keyword, print, saving.
  destruct (stdout_encodes cfg keyword); simpl; [|eauto 10].
  destruct (save_to_file (scraping_config cfg) && bool_decide (is_Some (output_file cfg)));
    simpl; [|eauto 10].
  unfold append_line. simpl.
  destruct (disk s) as [|[|] d]; simpl; eauto 10.
Qed.

(** C9, as amended: a failed write to the output file is logged and
    swallowed, but [_save_keyword] does raise to the worker when the
    terminal cannot encode the keyword: the [print] stands before the
    [try], and then the file is not touched.  In both cases the scraped set,
    the queue, the stop flag and the two ghost logs are exactly what they
    were. *)
Theorem save_keyword_swallows_write_failure cfg keyword source s :
  ∃ s', _save_keyword cfg keyword source s =
          (if stdout_encodes cfg keyword then Returned s'
           else Raised UnicodeEncodeError s')
        ∧ scraped_keywords s' = scraped_keywords s
        ∧ keyword_queue s' = keyword_queue s
        ∧ stop_event s' = stop_event s
        ∧ put_log s' = put_log s
        ∧ query_log s' = query_log s
        ∧ file_lines s' =
            (if stdout_encodes cfg keyword && saving cfg && write_ok (disk s)
             then file_lines s ++ [keyword] else file_lines s)
        ∧ error_log s' =
            (if stdout_encodes cfg keyword && saving cfg && negb (write_ok (disk s))
             then error_log s ++ ["Error saving to file"]
             else error_log s).
Proof.
  unfold _save_keyword, print, saving.
  destruct (stdout_encodes cfg keyword); simpl; [|eauto 10].
  destruct (save_to_file (scraping_config cfg) && bool_decide (is_Some (output_file cfg)));
    simpl; [|eauto 10].
  unfold append_line. simpl.
  destruct (disk s) as [|[|] d]; simpl; eauto 10.
Qed.

(** ** The suggestion loop *)

Lemma shown_by_nil cfg ks : shown_by cfg ks [] = [].
Proof. reflexivity. Qed.

Lemma shown_by_notstr cfg ks l : shown_by cfg ks (NotStr :: l) = [].
Proof. reflexivity. Qed.

Lemma queued_by_cons cfg ks x l :
  queued_by cfg ks (Str x :: l) =
  if fresh ks x then
    if stdout_encodes cfg x then x :: queued_by cfg ks l else [x]
  else queued_by cfg ks l.
Proof. reflexivity. Qed.

Lemma shown_by_cons cfg ks x l :
  shown_by cfg ks (Str x :: l) =
  if fresh ks x then
    if stdout_encodes cfg x then x :: shown_by cfg ks l else []
  else shown_by cfg ks l.
Proof.
  unfold shown_by. rewrite queued_by_cons.
  destruct (fresh ks x); [|done].
  destruct (stdout_encodes cfg x) eqn:He.
  - by rewrite filter_cons_True.
  - rewrite filter_cons_False; [done|]. by rewrite He.
Qed.

Lemma queued_by_elem cfg ks l x :
  x ∈ queued_by cfg ks l → Str x ∈ l ∧ fresh ks x = true.
Proof.
  induction l as [|[y|] l IH]; simpl; try by intros ?%not_elem_of_nil.
  destruct (fresh ks y) eqn:Hf.
  - destruct (stdout_encodes cfg y).
    + intros [->|Hx]%elem_of_cons; [split; [left|done]|].
      destruct (IH Hx). split; [by right|done].
    + intros ->%list_elem_of_singleton. split; [left|done].
  - intros Hx. destruct (IH Hx). split; [by right|done].
Qed.

Lemma queued_by_length cfg ks l : (length (queued_by cfg ks l) ≤ length l)%nat.
Proof.
  induction l as [|[y|] l IH]; simpl; try lia.
  destruct (fresh ks y); [|lia]. destruct (stdout_encodes cfg y); simpl; lia.
Qed.

Lemma completes_printable cfg ks l :
  Forall (printable cfg) l → completes cfg ks l = true.
Proof.
  induction 1 as [|v l (x & -> & Hx) _ IH]; [done|]. simpl.
  rewrite Hx, IH. by destruct (fresh ks x).
Qed.

(** The loop: what it has done to the state when it ends or raises. *)
Lemma add_suggestions_spec cfg source suggestions s :
  ∃ s', (if completes cfg (scraped_keywords s) suggestions
         then add_suggestions cfg source suggestions s = Returned s'
         else ∃ e, add_suggestions cfg source suggestions s = Raised e s')
        ∧ scraped_keywords s' = scraped_keywords s
        ∧ stop_event s' = stop_event s
        ∧ query_log s' = query_log s
        ∧ keyword_queue s' =
            keyword_queue s ++ queued_by cfg (scraped_keywords s) suggestions
        ∧ put_log s' =
            put_log s ++ queued_by cfg (scraped_keywords s) suggestions
        ∧ terminal s' =
            terminal s ++ shown_by cfg (scraped_keywords s) suggestions.
Proof.
  revert s. induction suggestions as [|[x|] l IH]; intros s.
  - exists s. cbn [add_suggestions completes queued_by].
    rewrite shown_by_nil, !app_nil_r. done.
  - cbn [add_suggestions completes]. rewrite queued_by_cons, shown_by_cons.
    fold (fresh (scraped_keywords s) x).
    destruct (fresh (scraped_keywords s) x); [|apply IH].
    destruct (save_keyword_returns cfg x source (put x s))
      as (s1 & Heq & Hk & Hq & Hst & Hp & Hl & Ht & _).
    cbn [and_then]. rewrite Heq.
    destruct (stdout_encodes cfg x); cbn [and_then andb].
    + destruct (IH s1) as (s2 & Hres & Hk2 & Hst2 & Hl2 & Hq2 & Hp2 & Ht2).
      exists s2. rewrite Hk in *. split; [done|]. simpl in *.
      rewrite Hk2, Hst2, Hl2, Hq2, Hp2, Ht2, Hq, Hst, Hp, Hl, Ht.
      rewrite <- !app_assoc. done.
    + exists s1. split; [by eexists|]. simpl in *.
      rewrite Hk, Hst, Hl, Hq, Hp, Ht, app_nil_r. done.
  - exists s. cbn [add_suggestions completes queued_by].
    split; [by eexists|]. rewrite shown_by_notstr, !app_nil_r. done.
Qed.

(** ** One step of a worker *)

Lemma handling_step cfg s w keyword suggestions :
  pc w = Handling keyword suggestions →
  ∃ s', worker_step cfg s w =
          (s', after_handling cfg (scraped_keywords s) w suggestions)
        ∧ scraped_keywords s' = scraped_keywords s
        ∧ stop_event s' = stop_event s
        ∧ query_log s' = query_log s
        ∧ keyword_queue s' =
            keyword_queue s ++ queued_by cfg (scraped_keywords s) suggestions
        ∧ put_log s' =
            put_log s ++ queued_by cfg (scraped_keywords s) suggestions
        ∧ terminal s' =
            terminal s ++ shown_by cfg (scraped_keywords s) suggestions.
Proof.
  intros Hpc. unfold worker_step, after_handling. rewrite Hpc.
  destruct suggestions as [|x l].
  - exists s. cbn [queued_by completes]. rewrite shown_by_nil, !app_nil_r. done.
  - destruct (add_suggestions_spec cfg (engine_value (engine w)) (x :: l) s)
      as (s' & Hres & H).
    destruct (completes cfg (scraped_keywords s) (x :: l)).
    + rewrite Hres. exists s'. done.
    + destruct Hres as [e ->]. exists (logger_error "Error in worker" s'). done.
Qed.

Lemma querying_step cfg s w keyword :
  pc w = Querying keyword →
  worker_step cfg s w =
  if stdout_encodes cfg keyword
  then (note_query keyword s, after_query cfg w keyword)
  else (logger_error "Error in worker" s, after_print_failure w).
Proof.
  intros Hpc. unfold worker_step, print. rewrite Hpc.
  by destruct (stdout_encodes cfg keyword).
Qed.

(** Splits an action by the position of the worker; the [Handling] case
    goes through [handling_step], the others through the definition. *)
Ltac by_position cfg s w :=
  let Hpc := fresh "Hpc" in
  destruct (pc w) as [| | |?k|?k|?k ?l|?e] eqn:Hpc;
  [ unfold worker_step; rewrite Hpc; destruct (clients cfg (engine w))
  | unfold worker_step; rewrite Hpc; destruct (loop_guard cfg s w)
  | unfold worker_step; rewrite Hpc; destruct (keyword_queue s)
  | unfold worker_step; rewrite Hpc;
    match goal with |- context [bool_decide ?P] => destruct (bool_decide P) end
  | unfold worker_step, print; rewrite Hpc;
    match goal with
    | |- context [stdout_encodes cfg ?k] => destruct (stdout_encodes cfg k)
    end
  | match type of Hpc with _ = Handling ?k ?l =>
      let s' := fresh "s'" in
      let H := fresh "H" in
      destruct (handling_step cfg s w k l Hpc) as (s' & -> & H)
    end
  | unfold worker_step; rewrite Hpc ].

Lemma worker_step_stop cfg s w :
  stop_event (worker_step cfg s w).1 = stop_event s.
Proof. by_position cfg s w; simpl; try done. by destruct H as (_ & H & _). Qed.

Lemma worker_step_engine cfg s w :
  engine (worker_step cfg s w).2 = engine w.
Proof. by_position cfg s w; simpl; done. Qed.

Lemma worker_step_finished cfg s w e :
  pc w = Finished e → worker_step cfg s w = (s, w).
Proof. intros Hpc. unfold worker_step. by rewrite Hpc. Qed.

(** C6, as amended: a worker that is about to query [keyword], at a
    terminal that can print it, ends the iteration with its failure counter
    one higher than before when the client returned no suggestion; when it
    returned some,
    the counter is reset, and stands at zero if the suggestion loop runs to
    its end, at one if it raises (on a value that is no string, or on a new
    suggestion that cannot be printed).  A failed exchange (network error,
    undecodable body, any other exception) makes the client return the empty
    list, so it is counted like an empty answer.  When the keyword cannot be
    printed no query is made and the handler counts one failure.  The shared
    state [s2] at the second action is arbitrary: other threads may have run
    in between. *)
Theorem failure_counter_transitions cfg s s2 w keyword c
    (Hpc : pc w = Querying keyword)
    (Hc : clients cfg (engine w) = Some c) :
  let w1 := (worker_step cfg s w).2 in
  let w2 := (worker_step cfg s2 w1).2 in
  let answer := SearchEngineClient.get_suggestions c keyword in
  (stdout_encodes cfg keyword = false →
   pc w1 = LoopHead ∧ issued w1 = issued w
   ∧ consecutive_failures w1 = consecutive_failures w + 1)
  ∧ (stdout_encodes cfg keyword = true →
     pc w1 = Handling keyword answer
     ∧ pc w2 = LoopHead
     ∧ consecutive_failures w2 =
         match answer with
         | [] => consecutive_failures w + 1
         | _ :: _ => if completes cfg (scraped_keywords s2) answer then 0 else 1
         end
     ∧ (answer ≠ [] → Forall (printable cfg) answer → consecutive_failures w2 = 0)
     ∧ (reply_failed c (Text.strip keyword) →
        answer = [] ∧ consecutive_failures w2 = consecutive_failures w + 1)).
Proof.
  intros w1 w2 answer. subst w1 w2.
  rewrite (querying_step cfg s w keyword Hpc). split; intros ->; [done|].
  cbn [snd]. unfold after_query, ask. rewrite Hc. fold answer.
  match goal with |- context [worker_step cfg s2 ?w'] =>
    destruct (handling_step cfg s2 w' keyword answer eq_refl) as (s' & -> & _)
  end.
  simpl. split; [done|]. split; [done|]. split; [done|]. split.
  - intros Hne Hall. rewrite (completes_printable _ _ _ Hall).
    by destruct answer.
  - intros Hfail. assert (answer = []) as Hnil by by apply get_suggestions_failed.
    by rewrite Hnil.
Qed.

(** C10: a keyword whose trimmed text is empty or longer than 200
    characters makes every client return the empty list without sending a
    request; a worker that is about to query such a keyword therefore ends
    the iteration with its failure counter one higher. *)
Theorem invalid_keyword_counts_as_failure cfg s s2 w keyword
    (Hinvalid : Text.strip keyword = EmptyString ∨ 200 < Text.len (Text.strip keyword))
    (Hpc : pc w = Querying keyword) :
  (∀ c, SearchEngineClient.get_suggestions_traced c keyword = ([], []))
  ∧ consecutive_failures (worker_step cfg s2 (worker_step cfg s w).2).2
    = consecutive_failures w + 1.
Proof.
  apply validate_keyword_false in Hinvalid.
  split; [intros c; by apply get_suggestions_invalid|].
  rewrite (querying_step cfg s w keyword Hpc).
  destruct (stdout_encodes cfg keyword); cbn [snd].
  - unfold after_query.
    assert (ask cfg (engine w) keyword = []) as ->.
    { unfold ask. destruct (clients cfg (engine w)) as [c|]; [|done].
      unfold SearchEngineClient.get_suggestions.
      by rewrite get_suggestions_invalid. }
    match goal with |- context [worker_step cfg s2 ?w'] =>
      destruct (handling_step cfg s2 w' keyword [] eq_refl) as (s' & -> & _)
    end.
    done.
  - unfold worker_step, after_print_failure. cbn [pc].
    by destruct (loop_guard cfg s2 _).
Qed.

(** ** Runs *)

Lemma run_events_snoc cfg r evs ev :
  run_events cfg r (evs ++ [ev]) = run_event cfg (run_events cfg r evs) ev.
Proof. unfold run_events. by rewrite foldl_snoc. Qed.

Lemma run_events_app cfg r evs evs' :
  run_events cfg r (evs ++ evs') = run_events cfg (run_events cfg r evs) evs'.
Proof. unfold run_events. by rewrite foldl_app. Qed.

(** A property that holds at the start and survives every event holds all
    along every run. *)
Lemma run_events_ind cfg (P : Run → Prop) r0 :
  P r0 → (∀ r ev, P r → P (run_event cfg r ev)) →
  ∀ evs, P (run_events cfg r0 evs).
Proof.
  intros H0 Hstep evs. induction evs as [|ev evs IH] using rev_ind.
  - done.
  - rewrite run_events_snoc. by apply Hstep.
Qed.

Lemma run_event_stop_mono cfg r ev :
  stop_event (app r) = true → stop_event (app (run_event cfg r ev)) = true.
Proof.
  intros Hs. destruct ev as [i|]; simpl; [|done].
  destruct (workers r !! i) as [w|]; simpl; [|done].
  by rewrite worker_step_stop.
Qed.

(** A property [L stop w] of one worker's locals, which may mention the stop
    flag, is kept by every event as soon as raising the flag keeps it and the
    worker's own actions keep it. *)
Lemma workers_invariant cfg (L : bool → Worker → Prop) :
  (∀ w, L false w → L true w) →
  (∀ s w, L (stop_event s) w → L (stop_event s) (worker_step cfg s w).2) →
  ∀ r ev,
    Forall (L (stop_event (app r))) (workers r) →
    Forall (L (stop_event (app (run_event cfg r ev)))) (workers (run_event cfg r ev)).
Proof.
  intros Hmono Hstep r ev Hall. destruct ev as [i|]; simpl.
  - destruct (workers r !! i) as [w|] eqn:Hw; simpl; [|done].
    rewrite worker_step_stop. apply Forall_insert; [done|].
    apply Hstep. by eapply Forall_lookup_1.
  - eapply Forall_impl; [exact Hall|].
    intros w Hw. destruct (stop_event (app r)); [done|by apply Hmono].
Qed.

Lemma start_scraping_workers cfg input s :
  Forall (λ w, pc w = Start ∧ scraped_count w = 0
               ∧ consecutive_failures w = 0 ∧ issued w = 0)
         (workers (start_scraping cfg input s)).
Proof.
  unfold start_scraping. destruct (get_seed_keywords input); simpl.
  - constructor.
  - apply Forall_fmap, Forall_true. done.
Qed.

(** *** The cap *)

Lemma loop_guard_true cfg s w :
  loop_guard cfg s w = true ↔
  stop_event s = false ∧ scraped_count w < cap cfg
  ∧ consecutive_failures w < max_consecutive_failures.
Proof.
  unfold loop_guard, cap. rewrite !andb_true_iff, negb_true_iff, !Z.ltb_lt. tauto.
Qed.

Lemma loop_guard_false cfg s w :
  loop_guard cfg s w = false ↔
  stop_event s = true ∨ cap cfg ≤ scraped_count w
  ∨ max_consecutive_failures ≤ consecutive_failures w.
Proof.
  unfold loop_guard, cap. rewrite !andb_false_iff, negb_false_iff, !Z.ltb_ge. tauto.
Qed.

Lemma cap_inv_step cfg s w :
  tame cfg → cap_inv cfg w → cap_inv cfg (worker_step cfg s w).2.
Proof.
  unfold cap_inv. intros Htame (H0 & Hmax & Hpc).
  destruct (pc w) as [| | |k|k|k l|e] eqn:Epc.
  6:{ destruct (handling_step cfg s w k l Epc) as (s' & -> & _).
      destruct Hpc as (Hi & Hlt & Hl). simpl.
      rewrite (completes_printable _ _ _ Hl). lia. }
  5:{ rewrite (querying_step cfg s w k Epc).
      destruct (stdout_encodes cfg k); simpl; [|lia].
      split; [done|]. split; [done|]. split; [lia|]. split; [lia|]. apply Htame. }
  all: unfold worker_step; rewrite Epc; simpl.
  - destruct (clients cfg (engine w)); simpl; done.
  - destruct (loop_guard cfg s w) eqn:Hg; simpl; [|done].
    apply loop_guard_true in Hg as (_ & Hlt & _). done.
  - destruct (keyword_queue s); simpl; [tauto|done].
  - destruct (bool_decide (k ∈ scraped_keywords s)); simpl; [tauto|done].
  - rewrite Epc. done.
Qed.

Lemma cap_inv_run cfg input s evs :
  tame cfg →
  Forall (cap_inv cfg) (workers (run_events cfg (start_scraping cfg input s) evs)).
Proof.
  intros Htame.
  apply (run_events_ind cfg (λ r, Forall (cap_inv cfg) (workers r))).
  - eapply Forall_impl; [apply start_scraping_workers|].
    intros w (Hpc & Hc & _ & Hi). unfold cap_inv. rewrite Hpc, Hc, Hi. lia.
  - intros r ev. apply (workers_invariant cfg (λ _, cap_inv cfg)); [done|].
    intros s' w. by apply cap_inv_step.
Qed.




(** *** The breaker *)

Lemma breaker_inv_step cfg s w :
  always_fails cfg (engine w) →
  breaker_inv cfg (stop_event s) w →
  breaker_inv cfg (stop_event s) (worker_step cfg s w).2.
Proof.
  unfold breaker_inv, max_consecutive_failures.
  intros Hfail (Hle & Hrange & Hall & Hpc).
  destruct (pc w) as [| | |k|k|k l|e] eqn:Epc.
  6:{ destruct (handling_step cfg s w k l Epc) as (s' & -> & _).
      destruct Hpc as (-> & ? & ?). simpl.
      split; [lia|]. split; [lia|]. split; [|done].
      intros Henc. specialize (Hall Henc). lia. }
  5:{ rewrite (querying_step cfg s w k Epc).
      destruct (stdout_encodes cfg k) eqn:Hk; simpl.
      - rewrite (Hfail k). intuition lia.
      - split; [lia|]. split; [lia|]. split; [|lia].
        intros Henc. by rewrite Henc in Hk. }
  all: unfold worker_step; rewrite Epc; simpl.
  - destruct (clients cfg (engine w)); simpl; done.
  - destruct (loop_guard cfg s w) eqn:Hg; simpl.
    + apply loop_guard_true in Hg as (_ & _ & Hlt).
      unfold max_consecutive_failures in Hlt. done.
    + apply loop_guard_false in Hg. unfold max_consecutive_failures in Hg. done.
  - destruct (keyword_queue s); simpl; [tauto|done].
  - destruct (bool_decide (k ∈ scraped_keywords s)); simpl; [tauto|done].
  - rewrite Epc. done.
Qed.

Lemma breaker_inv_run cfg input s evs :
  let r := run_events cfg (start_scraping cfg input s) evs in
  Forall (λ w, always_fails cfg (engine w) → breaker_inv cfg (stop_event (app r)) w)
         (workers r).
Proof.
  apply (run_events_ind cfg (λ r,
    Forall (λ w, always_fails cfg (engine w) → breaker_inv cfg (stop_event (app r)) w)
           (workers r))).
  - eapply Forall_impl; [apply start_scraping_workers|].
    intros w (Hpc & Hc & Hf & Hi) _. unfold breaker_inv, max_consecutive_failures.
    rewrite Hpc, Hc, Hi, Hf. repeat split; lia.
  - intros r ev.
    apply (workers_invariant cfg
             (λ stop w, always_fails cfg (engine w) → breaker_inv cfg stop w)).
    + intros w H Hf. specialize (H Hf). unfold breaker_inv in *.
      destruct H as (? & ? & ? & H). split; [done|]. split; [done|]. split; [done|].
      destruct (pc w) as [| | | | | |[| |]]; try done.
      destruct H as (? & [?|?]); [discriminate|tauto].
    + intros s' w H Hf. rewrite worker_step_engine in Hf.
      by apply breaker_inv_step; [|apply H].
Qed.

(** A finished worker never moves again. *)
Lemma finished_stays cfg r i w evs :
  workers r !! i = Some w → finished w = true →
  workers (run_events cfg r evs) !! i = Some w.
Proof.
  intros Hw Hfin.
  apply (run_events_ind cfg (λ r', workers r' !! i = Some w)); [done|].
  intros r' ev Hw'. destruct ev as [j|]; simpl; [|done].
  destruct (workers r' !! j) as [w'|] eqn:Hj; simpl; [|done].
  destruct (decide (j = i)) as [->|Hne].
  - assert (w' = w) as -> by congruence.
    unfold finished in Hfin. destruct (pc w) eqn:Epc; try done.
    rewrite (worker_step_finished cfg (app r') w _ Epc). simpl.
    by rewrite list_insert_id.
  - by rewrite list_lookup_insert_ne.
Qed.

(** *** A worker running alone *)

Lemma solo_add cfg n m sw : solo cfg (n + m) sw = solo cfg m (solo cfg n sw).
Proof.
  unfold solo. rewrite Nat.add_comm. apply Nat.iter_add.
Qed.

Lemma solo_S cfg n sw :
  solo cfg (S n) sw = worker_step cfg (solo cfg n sw).1 (solo cfg n sw).2.
Proof. reflexivity. Qed.

Lemma run_solo cfg r i w n :
  workers r !! i = Some w →
  app (run_events cfg r (repeat (Step i) n)) = (solo cfg n (app r, w)).1
  ∧ workers (run_events cfg r (repeat (Step i) n))
    = <[i := (solo cfg n (app r, w)).2]> (workers r).
Proof.
  intros Hw. induction n as [|n IH].
  - unfold run_events, solo. simpl. split; [done|]. by rewrite list_insert_id.
  - change (repeat (Step i) (S n)) with (Step i :: repeat (Step i) n).
    rewrite repeat_cons, run_events_snoc. destruct IH as [Ha Hws].
    unfold run_event. rewrite Hws, Ha.
    rewrite list_lookup_insert_eq by (by eapply lookup_lt_Some).
    rewrite solo_S. simpl. split; [done|]. by rewrite list_insert_insert_eq.
Qed.

Lemma guard_pass_step cfg s w :
  pc w = LoopHead → loop_guard cfg s w = true →
  worker_step cfg s w = (s, goto Waiting w).
Proof. intros Hpc Hg. unfold worker_step. by rewrite Hpc, Hg. Qed.

Lemma pop_step cfg s w keyword q :
  pc w = Waiting → keyword_queue s = keyword :: q →
  worker_step cfg s w = (set_queue q s, goto (Popped keyword) w).
Proof. intros Hpc Hq. unfold worker_step. by rewrite Hpc, Hq. Qed.

Lemma popped_fresh_step cfg s w keyword :
  pc w = Popped keyword → keyword ∉ scraped_keywords s →
  worker_step cfg s w =
  (set_scraped (λ ks, ks ∪ {[keyword]}) s, goto (Querying keyword) w).
Proof.
  intros Hpc Hk. unfold worker_step. rewrite Hpc.
  by rewrite bool_decide_eq_false_2.
Qed.

Lemma handling_nil_step cfg s w keyword :
  pc w = Handling keyword [] →
  worker_step cfg s w = (s, after_handling cfg (scraped_keywords s) w []).
Proof. intros Hpc. unfold worker_step. by rewrite Hpc. Qed.

(** One whole iteration on a keyword that is not yet scraped and can be
    printed, with a source that fails: five actions. *)
Lemma failing_iteration cfg s w keyword q :
  always_fails cfg (engine w) → pc w = LoopHead →
  loop_guard cfg s w = true →
  keyword_queue s = keyword :: q → keyword ∉ scraped_keywords s →
  stdout_encodes cfg keyword = true →
  solo cfg 5 (s, w) =
  (note_query keyword (set_scraped (λ ks, ks ∪ {[keyword]}) (set_queue q s)),
   after_failures 1 w).
Proof.
  intros Hfail Hpc Hg Hq Hfresh Henc.
  assert (solo cfg 1 (s, w) = (s, goto Waiting w)) as H1.
  { rewrite solo_S. by apply guard_pass_step. }
  assert (solo cfg 2 (s, w) = (set_queue q s, goto (Popped keyword) w)) as H2.
  { rewrite solo_S, H1. cbn [fst snd]. by erewrite pop_step. }
  assert (solo cfg 3 (s, w)
          = (set_scraped (λ ks, ks ∪ {[keyword]}) (set_queue q s),
             goto (Querying keyword) w)) as H3.
  { rewrite solo_S, H2. cbn [fst snd]. by erewrite popped_fresh_step. }
  assert (solo cfg 4 (s, w)
          = (note_query keyword (set_scraped (λ ks, ks ∪ {[keyword]}) (set_queue q s)),
             {| engine := engine w; pc := Handling keyword [];
                scraped_count := scraped_count w;
                consecutive_failures := consecutive_failures w;
                issued := issued w + 1 |})) as H4.
  { rewrite solo_S, H3. cbn [fst snd].
    erewrite querying_step by reflexivity. rewrite Henc.
    unfold after_query. cbn [engine goto].
    by rewrite (Hfail keyword). }
  rewrite solo_S, H4. cbn [fst snd]. by erewrite handling_nil_step.
Qed.

Lemma failing_iterations cfg ks : ∀ s w q,
  always_fails cfg (engine w) → pc w = LoopHead →
  stop_event s = false →
  keyword_queue s = ks ++ q →
  NoDup ks → (∀ k, k ∈ ks → k ∉ scraped_keywords s) →
  Forall (λ k, stdout_encodes cfg k = true) ks →
  scraped_count w + Z.of_nat (length ks) ≤ cap cfg →
  consecutive_failures w + Z.of_nat (length ks) ≤ max_consecutive_failures →
  ∃ s', solo cfg (5 * length ks) (s, w) = (s', after_failures (Z.of_nat (length ks)) w)
        ∧ keyword_queue s' = q ∧ stop_event s' = false.
Proof.
  induction ks as [|k ks IH];
    intros s w q Hfail Hpc Hstop Hq Hnd Hfresh Henc Hcap Hthr.
  - exists s. simpl. unfold solo, after_failures. simpl.
    rewrite !Z.add_0_r. destruct w. simpl in *. by subst.
  - simpl length in *. apply NoDup_cons in Hnd as [Hk Hnd].
    apply Forall_cons in Henc as [Henck Henc].
    replace (5 * S (length ks))%nat with (5 + 5 * length ks)%nat by lia.
    rewrite solo_add.
    rewrite (failing_iteration cfg s w k (ks ++ q)); try done.
    2:{ apply loop_guard_true. split; [done|lia]. }
    2:{ apply Hfresh. left. }
    assert (∀ k', k' ∈ ks → k' ∉ scraped_keywords s ∪ {[k]}) as Hfresh'.
    { intros k' Hk'. apply not_elem_of_union. split.
      - apply Hfresh. by right.
      - apply not_elem_of_singleton. intros ->. done. }
    destruct (IH (note_query k (set_scraped (λ ks0, ks0 ∪ {[k]}) (set_queue (ks ++ q) s)))
                (after_failures 1 w) q Hfail eq_refl Hstop eq_refl Hnd Hfresh' Henc)
      as (s' & Hs' & Hq' & Hst').
    { cbn [after_failures scraped_count]. lia. }
    { cbn [after_failures consecutive_failures]. lia. }
    exists s'. rewrite Hs'. split; [|done]. f_equal.
    unfold after_failures. cbn [engine scraped_count consecutive_failures issued].
    f_equal; lia.
Qed.

Lemma foldl_put s ks :
  let s' := foldl (λ s keyword, put keyword s) s ks in
  keyword_queue s' = keyword_queue s ++ ks
  ∧ put_log s' = put_log s ++ ks
  ∧ scraped_keywords s' = scraped_keywords s
  ∧ stop_event s' = stop_event s
  ∧ query_log s' = query_log s
  ∧ file_lines s' = file_lines s.
Proof.
  revert s. induction ks as [|k ks IH]; intros s; simpl.
  - by rewrite !app_nil_r.
  - destruct (IH (put k s)) as (-> & -> & -> & -> & -> & ->). simpl.
    by rewrite <- !app_assoc.
Qed.

(** The state [start_scraping] hands to the workers. *)
Lemma start_scraping_app cfg input s :
  get_seed_keywords input ≠ [] →
  let r := start_scraping cfg input s in
  keyword_queue (app r) = keyword_queue s ++ get_seed_keywords input
  ∧ put_log (app r) = put_log s ++ get_seed_keywords input
  ∧ scraped_keywords (app r) = scraped_keywords s
  ∧ stop_event (app r) = stop_event s
  ∧ query_log (app r) = query_log s
  ∧ workers r = spawn <$> selected_engines cfg.
Proof.
  intros Hne. unfold start_scraping.
  destruct (get_seed_keywords input) as [|k ks] eqn:Hseeds; [done|].
  cbv zeta. cbn [app workers].
  match goal with |- context [foldl _ ?s1 _] => set (s0 := s1) end.
  assert (keyword_queue s0 = keyword_queue s ∧ put_log s0 = put_log s
          ∧ scraped_keywords s0 = scraped_keywords s
          ∧ stop_event s0 = stop_event s ∧ query_log s0 = query_log s)
    as (Hq & Hp & Hk & Hst & Hl).
  { subst s0. destruct (save_to_file _ && _); [|done].
    unfold truncate_file. destruct (disk s) as [|[|] d]; simpl; done. }
  destruct (foldl_put s0 (k :: ks)) as (-> & -> & -> & -> & -> & _).
  rewrite Hq, Hp, Hk, Hst, Hl. done.
Qed.

Lemma start_step cfg s w c :
  pc w = Start → clients cfg (engine w) = Some c →
  worker_step cfg s w = (s, goto LoopHead w).
Proof. intros Hpc Hc. unfold worker_step. by rewrite Hpc, Hc. Qed.

Lemma guard_exit_step cfg s w :
  pc w = LoopHead → loop_guard cfg s w = false →
  worker_step cfg s w = (s, goto (Finished GuardFalse) w).
Proof. intros Hpc Hg. unfold worker_step. by rewrite Hpc, Hg. Qed.

Lemma starved_step cfg s w :
  pc w = Waiting → keyword_queue s = [] →
  worker_step cfg s w = (s, goto (Finished QueueEmpty) w).
Proof. intros Hpc Hq. unfold worker_step. by rewrite Hpc, Hq. Qed.

Lemma scrape_keywords_worker_solo cfg e n s :
  scrape_keywords_worker cfg e n s = solo cfg n (s, spawn e).
Proof. reflexivity. Qed.

(** A fresh worker with a failing source, left alone with five distinct
    unscraped keywords at the head of the queue, all of which can be
    printed, is done after 27 actions. *)
Lemma solo_breaker cfg s e ks q :
  always_fails cfg e → is_Some (clients cfg e) →
  stop_event s = false → keyword_queue s = ks ++ q →
  length ks = 5%nat → NoDup ks → (∀ k, k ∈ ks → k ∉ scraped_keywords s) →
  Forall (λ k, stdout_encodes cfg k = true) ks →
  5 ≤ cap cfg →
  ∃ s', scrape_keywords_worker cfg e 27 s =
          (s', {| engine := e; pc := Finished GuardFalse; scraped_count := 5;
                  consecutive_failures := 5; issued := 5 |})
        ∧ keyword_queue s' = q ∧ stop_event s' = false.
Proof.
  intros Hfail [c Hc] Hstop Hq Hlen Hnd Hfresh Henc Hcap.
  rewrite scrape_keywords_worker_solo.
  change 27%nat with (1 + (5 * 5 + 1))%nat. rewrite solo_add.
  change (solo cfg 1 (s, spawn e)) with (worker_step cfg s (spawn e)).
  rewrite (start_step cfg s (spawn e) c eq_refl Hc). rewrite solo_add.
  destruct (failing_iterations cfg ks s (goto LoopHead (spawn e)) q)
    as (s' & Hs' & Hq' & Hst'); try done.
  { rewrite Hlen. simpl. lia. }
  { rewrite Hlen. simpl. unfold max_consecutive_failures. lia. }
  rewrite Hlen in Hs'. rewrite Hs'.
  exists s'. split; [|done].
  change (solo cfg 1 ?sw) with (worker_step cfg sw.1 sw.2). cbn [fst snd].
  rewrite guard_exit_step; [done|done|].
  apply loop_guard_false. right. right. simpl. done.
Qed.

(** C3, as amended: take a worker whose source never yields a suggestion,
    in a run whose cap is at least the threshold of five.  Under every
    interleaving it calls its source at most five times; if its loop was
    ended by the loop condition while the stop flag is down, the breaker test
    after the loop holds and the worker has counted exactly five consecutive
    failures, each a failed call or a keyword it could not print, so that at
    a terminal that prints every keyword it made exactly five calls; once
    finished it never moves again.  And it does get there: started on at
    least five distinct seeds that can be printed and left to run, it is
    finished after 27 actions with exactly five failed queries. *)
Theorem breaker_trips_after_five_failures cfg input disk0 i e
    (Hcap : 5 ≤ max_keywords_per_engine (scraping_config cfg))
    (He : selected_engines cfg !! i = Some e)
    (Hclient : is_Some (clients cfg e))
    (Hfail : always_fails cfg e) :
  let r0 := start_scraping cfg input (KeywordSheeter_init disk0) in
  (∀ evs w,
     workers (run_events cfg r0 evs) !! i = Some w →
     issued w ≤ 5
     ∧ (pc w = Finished GuardFalse →
        stop_event (app (run_events cfg r0 evs)) = false →
        tripped w = true ∧ consecutive_failures w = 5
        ∧ ((∀ k, stdout_encodes cfg k = true) → issued w = 5))
     ∧ (finished w = true →
        ∀ evs', workers (run_events cfg r0 (evs ++ evs')) !! i = Some w))
  ∧ (NoDup (get_seed_keywords input) →
     (5 ≤ length (get_seed_keywords input))%nat →
     Forall (λ k, stdout_encodes cfg k = true) (take 5 (get_seed_keywords input)) →
     workers (run_events cfg r0 (repeat (Step i) 27)) !! i
     = Some {| engine := e; pc := Finished GuardFalse; scraped_count := 5;
               consecutive_failures := 5; issued := 5 |}).
Proof.
  intros r0. split.
  - intros evs w Hw.
    assert (engine w = e) as Hengine.
    { revert w Hw.
      apply (run_events_ind cfg (λ r, ∀ w, workers r !! i = Some w → engine w = e)).
      - intros w Hw. subst r0. unfold start_scraping in Hw.
        destruct (get_seed_keywords input); simpl in Hw; [done|].
        rewrite list_lookup_fmap, He in Hw. by injection Hw as <-.
      - intros r ev IH w Hw. destruct ev as [j|]; simpl in Hw; [|by apply IH].
        destruct (workers r !! j) as [w'|] eqn:Hj; simpl in Hw; [|by apply IH].
        destruct (decide (j = i)) as [->|Hne].
        + rewrite list_lookup_insert_eq in Hw by (by eapply lookup_lt_Some).
          injection Hw as <-. rewrite worker_step_engine. by apply IH.
        + rewrite list_lookup_insert_ne in Hw by done. by apply IH. }
    pose proof (breaker_inv_run cfg input (KeywordSheeter_init disk0) evs) as Hall.
    cbv zeta in Hall. eapply Forall_lookup_1 in Hall; [|exact Hw].
    rewrite Hengine in Hall. specialize (Hall Hfail).
    destruct Hall as (Hle & Hrange & Henc & Hpc).
    unfold max_consecutive_failures in *.
    split; [|split].
    + destruct (pc w) as [| | | | | |[| |]]; lia.
    + intros Epc Hstop. rewrite Epc in Hpc. fold r0 in Hpc. rewrite Hstop in Hpc.
      unfold tripped, max_consecutive_failures, cap in *.
      destruct Hpc as (Hi & [?|[?|?]]); [done| |];
        (split; [apply Z.leb_le; lia|]; split; [lia|];
         intros Hall; specialize (Henc Hall); lia).
    + intros Hfin evs'. rewrite run_events_app. by apply finished_stays.
  - intros Hnd Hlen Hprint.
    assert (get_seed_keywords input ≠ []) as Hne.
    { intros Heq. rewrite Heq in Hlen. simpl in Hlen. lia. }
    destruct (start_scraping_app cfg input (KeywordSheeter_init disk0) Hne)
      as (Hq & _ & Hk & Hst & _ & Hws).
    fold r0 in Hq, Hk, Hst, Hws. simpl in Hq, Hk, Hst.
    assert (workers r0 !! i = Some (spawn e)) as Hw.
    { by rewrite Hws, list_lookup_fmap, He. }
    destruct (run_solo cfg r0 i (spawn e) 27 Hw) as [_ ->].
    rewrite list_lookup_insert_eq by (by eapply lookup_lt_Some).
    rewrite <- scrape_keywords_worker_solo.
    destruct (solo_breaker cfg (app r0) e (take 5 (get_seed_keywords input))
                (drop 5 (get_seed_keywords input))) as (s' & -> & _); try done.
    + by rewrite take_drop.
    + rewrite length_take. lia.
    + eapply sublist_NoDup; [done|apply sublist_take].
    + intros k _. rewrite Hk. apply not_elem_of_empty.
Qed.

(** *** Deduplication *)

Lemma pending_cons w ws : pending (w :: ws) = option_list (pend w) ++ pending ws.
Proof. unfold pending. simpl. by destruct (pend w). Qed.

(** Replacing worker [i] only replaces its own contribution. *)
Lemma pending_insert ws : ∀ i w,
  ws !! i = Some w →
  ∃ rest, pending ws ≡ₚ option_list (pend w) ++ rest
          ∧ ∀ w', pending (<[i := w']> ws) ≡ₚ option_list (pend w') ++ rest.
Proof.
  induction ws as [|w0 ws IH]; intros i w Hw; [done|].
  destruct i as [|i]; simpl in Hw.
  - injection Hw as ->. exists (pending ws). split.
    + by rewrite pending_cons.
    + intros w'. change (<[0%nat := w']> (w :: ws)) with (w' :: ws).
      by rewrite pending_cons.
  - destruct (IH i w Hw) as (rest & Hp & Hins).
    exists (option_list (pend w0) ++ rest). split.
    + rewrite pending_cons, Hp. apply Permutation_app_swap_app.
    + intros w'. change (<[S i := w']> (w0 :: ws)) with (w0 :: <[i := w']> ws).
      rewrite pending_cons, (Hins w'). apply Permutation_app_swap_app.
Qed.

Lemma dedup_inv_neutral r s' i w w' :
  dedup_inv r → workers r !! i = Some w →
  pend w = None → pend w' = None →
  query_log s' = query_log (app r) →
  scraped_keywords (app r) ⊆ scraped_keywords s' →
  dedup_inv {| app := s'; workers := <[i := w']> (workers r) |}.
Proof.
  intros [Hnd Hin] Hw Hp Hp' Hlog Hsub.
  destruct (pending_insert (workers r) i w Hw) as (rest & Hperm & Hins).
  specialize (Hins w'). rewrite Hp in Hperm. rewrite Hp' in Hins. simpl in *.
  unfold dedup_inv. simpl. rewrite Hlog. split.
  - by rewrite Hins, <- Hperm.
  - intros k Hk. rewrite Hins, <- Hperm in Hk. by apply Hsub, Hin.
Qed.

(** Closes the case of an action that neither queries nor prepares a
    query; [Epc] tells where the worker stood. *)
Ltac neutral Epc :=
  eapply dedup_inv_neutral;
  [done | done | by unfold pend; rewrite Epc | done | done | done].

Lemma dedup_inv_step cfg r ev : dedup_inv r → dedup_inv (run_event cfg r ev).
Proof.
  intros Hinv. destruct ev as [i|]; simpl; [|exact Hinv].
  destruct (workers r !! i) as [w|] eqn:Hw; [|exact Hinv].
  destruct (pc w) as [| | |k|k|k l|e] eqn:Epc.
  - unfold worker_step. rewrite Epc.
    destruct (clients cfg (engine w)); simpl; neutral Epc.
  - unfold worker_step. rewrite Epc.
    destruct (loop_guard cfg (app r) w); simpl; neutral Epc.
  - unfold worker_step. rewrite Epc.
    destruct (keyword_queue (app r)); simpl; neutral Epc.
  - unfold worker_step. rewrite Epc.
    destruct (bool_decide (k ∈ scraped_keywords (app r))) eqn:Hk; simpl.
    { neutral Epc. }
    apply bool_decide_eq_false in Hk. destruct Hinv as [Hnd Hin].
    destruct (pending_insert (workers r) i w Hw) as (rest & Hperm & Hins).
    specialize (Hins (goto (Querying k) w)).
    unfold pend at 1 in Hperm. rewrite Epc in Hperm. simpl in Hperm, Hins.
    unfold dedup_inv. simpl. rewrite Hperm in Hnd.
    assert (∀ x, x ∈ query_log (app r) ++ rest → x ∈ scraped_keywords (app r)) as Hin'.
    { intros x Hx. apply Hin. by rewrite Hperm. }
    split.
    + rewrite Hins, <- Permutation_middle. apply NoDup_cons. split; [|done].
      intros Hx. apply Hk, Hin'. done.
    + intros x Hx. rewrite Hins, <- Permutation_middle in Hx.
      apply elem_of_cons in Hx as [->|Hx]; [set_solver|].
      apply elem_of_union_l, Hin'. done.
  - rewrite (querying_step cfg (app r) w k Epc).
    destruct Hinv as [Hnd Hin].
    destruct (pending_insert (workers r) i w Hw) as (rest & Hperm & Hins).
    unfold pend at 1 in Hperm. rewrite Epc in Hperm. simpl in Hperm.
    destruct (stdout_encodes cfg k).
    + specialize (Hins (after_query cfg w k)). simpl in Hins.
      unfold dedup_inv. simpl.
      assert ((query_log (app r) ++ [k]) ++ rest
              ≡ₚ query_log (app r) ++ pending (workers r)) as Hp.
      { rewrite Hperm, <- app_assoc. done. }
      split.
      * by rewrite Hins, Hp.
      * intros x Hx. rewrite Hins, Hp in Hx. by apply Hin.
    + specialize (Hins (after_print_failure w)). simpl in Hins.
      unfold dedup_inv. simpl. rewrite Hperm in Hnd.
      apply NoDup_app in Hnd as (Hl & Hdisj & Hr). apply NoDup_cons in Hr as [_ Hr].
      split.
      * rewrite Hins. apply NoDup_app. split; [done|]. split; [|done].
        intros x Hx Hx'. apply (Hdisj x Hx). by right.
      * intros x Hx. rewrite Hins in Hx. apply Hin. rewrite Hperm.
        apply elem_of_app in Hx as [Hx|Hx]; apply elem_of_app; [by left|].
        right. by right.
  - destruct (handling_step cfg (app r) w k l Epc) as (s' & -> & Hk & _ & Hl & _).
    simpl. eapply dedup_inv_neutral; [done|done|by unfold pend; rewrite Epc|done|done|].
    by rewrite Hk.
  - rewrite (worker_step_finished cfg (app r) w e Epc). simpl.
    rewrite list_insert_id by done. by destruct r.
Qed.

Lemma dedup_inv_start cfg input disk0 :
  dedup_inv (start_scraping cfg input (KeywordSheeter_init disk0)).
Proof.
  assert (pending (workers (start_scraping cfg input (KeywordSheeter_init disk0))) = [])
    as Hp.
  { pose proof (start_scraping_workers cfg input (KeywordSheeter_init disk0)) as H.
    induction H as [|w ws (Hpc & _) _ IH]; [done|].
    rewrite pending_cons, IH. unfold pend. by rewrite Hpc. }
  assert (query_log (app (start_scraping cfg input (KeywordSheeter_init disk0))) = [])
    as Hl.
  { destruct (decide (get_seed_keywords input = [])) as [He|Hne].
    - unfold start_scraping. by rewrite He.
    - by destruct (start_scraping_app cfg input (KeywordSheeter_init disk0) Hne)
        as (_ & _ & _ & _ & -> & _). }
  unfold dedup_inv. rewrite Hp, Hl. simpl. split; [constructor|].
  intros k Hk. by apply not_elem_of_nil in Hk.
Qed.


(** *** Termination *)

Lemma spawn_weight es : sum_list (weight <$> (spawn <$> es)) = (3 * length es)%nat.
Proof. induction es as [|e es IH]; simpl in *; [done|]. unfold fmap in IH. lia. Qed.

Lemma finished_or_live r : all_finished r ∨ ∃ i, live r i.
Proof.
  unfold all_finished, live. induction (workers r) as [|w ws IH].
  - left. constructor.
  - destruct (finished w) eqn:Hf.
    + destruct IH as [IH|[i (w' & Hw & Hf')]].
      * left. by constructor.
      * right. exists (S i), w'. done.
    + right. exists 0%nat, w. done.
Qed.

(** No client returns more than twenty suggestions. *)
Lemma fetch_and_pick_length {B} (net : Upstream B) pick limit keyword :
  (length (SearchEngineClient.fetch_and_pick net pick limit keyword).1 ≤ limit)%nat.
Proof.
  unfold SearchEngineClient.fetch_and_pick.
  destruct (negb _); simpl; [lia|].
  destruct (net _); simpl; try lia.
  unfold Text.slice_to. rewrite length_take. lia.
Qed.

Lemma ask_length cfg e keyword : (length (ask cfg e keyword) ≤ 20)%nat.
Proof.
  unfold ask. destruct (clients cfg e) as [c|]; simpl; [|lia].
  unfold SearchEngineClient.get_suggestions.
  destruct c; simpl;
    match goal with
    | |- context [SearchEngineClient.fetch_and_pick ?n ?p ?l ?k] =>
        pose proof (fetch_and_pick_length n p l k)
    end; lia.
Qed.

Lemma quiet_tame cfg : quiet cfg → tame cfg.
Proof. intros Hq e keyword. rewrite (Hq e keyword). constructor. Qed.

Lemma quiet_within cfg V : quiet cfg → within cfg V.
Proof.
  intros Hq e keyword x Hx. rewrite (Hq e keyword) in Hx.
  by apply not_elem_of_nil in Hx.
Qed.

Section Termination.

Variable cfg : Setup.
Variable V : gset string.
Hypothesis Hwithin : within cfg V.

(** One action of an unfinished worker uses up work and keeps the keywords
    in circulation inside [V]. *)
Lemma worker_step_work s w :
  (∀ k, k ∈ keyword_queue s → k ∈ V) → known_worker V w → finished w = false →
  let s' := (worker_step cfg s w).1 in
  let w' := (worker_step cfg s w).2 in
  (100 * size (V ∖ scraped_keywords s') + 5 * length (keyword_queue s') + weight w'
   < 100 * size (V ∖ scraped_keywords s) + 5 * length (keyword_queue s) + weight w)%nat
  ∧ (∀ k, k ∈ keyword_queue s' → k ∈ V)
  ∧ known_worker V w'.
Proof.
  intros Hqueue Hknown Hfin. unfold finished in Hfin. unfold known_worker in Hknown.
  destruct (pc w) as [| | |k|k|k l|e] eqn:Epc; [| | | | | |done].
  6:{ destruct (handling_step cfg s w k l Epc)
        as (s' & -> & Hk & _ & _ & Hq' & _).
      cbn [fst snd]. rewrite Hk, Hq'. destruct Hknown as [Hl Hlen].
      unfold weight, known_worker. rewrite Epc. simpl.
      rewrite length_app.
      pose proof (queued_by_length cfg (scraped_keywords s) l) as Hf.
      split; [lia|]. split; [|done].
      intros x [Hx|Hx]%elem_of_app; [by apply Hqueue|].
      apply queued_by_elem in Hx as [Hx _]. by apply Hl. }
  5:{ rewrite (querying_step cfg s w k Epc). unfold weight. rewrite Epc.
      destruct (stdout_encodes cfg k); cbn [fst snd]; unfold known_worker; simpl.
      - pose proof (ask_length cfg (engine w) k) as Hlen.
        split; [lia|]. split; [done|]. split; [|done].
        intros x Hx. by eapply Hwithin.
      - split; [lia|]. done. }
  all: unfold worker_step, weight, known_worker; rewrite Epc.
  - destruct (clients cfg (engine w)); simpl; (split; [lia|done]).
  - destruct (loop_guard cfg s w); simpl; (split; [lia|done]).
  - destruct (keyword_queue s) as [|k q] eqn:Equeue; simpl; rewrite ?Equeue; simpl.
    + split; [lia|]. split; [|done]. intros k Hk. by apply not_elem_of_nil in Hk.
    + split; [lia|]. split.
      * intros k' Hk'. apply Hqueue. by right.
      * apply Hqueue. by left.
  - destruct (bool_decide (k ∈ scraped_keywords s)) eqn:Hk; simpl.
    { split; [lia|done]. }
    apply bool_decide_eq_false in Hk.
    assert (V ∖ (scraped_keywords s ∪ {[k]}) ⊂ V ∖ scraped_keywords s) as Hsub.
    { split.
      - intros x. rewrite !elem_of_difference, elem_of_union. tauto.
      - intros Hsub'. specialize (Hsub' k).
        rewrite !elem_of_difference, elem_of_union, elem_of_singleton in Hsub'.
        tauto. }
    apply subset_size in Hsub. split; [lia|done].
Qed.

Lemma sum_weight_insert ws : ∀ i w w',
  ws !! i = Some w →
  (sum_list (weight <$> <[i := w']> ws) + weight w
   = sum_list (weight <$> ws) + weight w')%nat.
Proof.
  induction ws as [|w0 ws IH]; intros i w w' Hw; [done|].
  destruct i as [|i]; simpl in *.
  - injection Hw as ->. lia.
  - specialize (IH i w w' Hw). unfold fmap in IH. lia.
Qed.

(** A step of a live worker uses up work and keeps [known]. *)
Lemma work_decreases r i :
  known V r → live r i →
  (work V (run_event cfg r (Step i)) < work V r)%nat
  ∧ known V (run_event cfg r (Step i)).
Proof.
  intros [Hqueue Hws] (w & Hw & Hfin).
  pose proof (Forall_lookup_1 _ _ _ _ Hws Hw) as Hkw.
  destruct (worker_step_work (app r) w Hqueue Hkw Hfin) as (Hlt & Hqueue' & Hkw').
  unfold work, known. simpl. rewrite Hw. simpl.
  pose proof (sum_weight_insert (workers r) i w (worker_step cfg (app r) w).2 Hw).
  split; [lia|]. split; [done|]. by apply Forall_insert.
Qed.

Lemma known_interrupt r : known V r → known V (run_event cfg r Interrupt).
Proof. intros [Hq Hws]. by split. Qed.

(** Every step of an effective schedule uses up work. *)
Lemma effective_bounded evs : ∀ r,
  known V r → effective cfg r evs →
  (steps_in evs + work V (run_events cfg r evs) ≤ work V r)%nat
  ∧ known V (run_events cfg r evs).
Proof.
  induction evs as [|ev evs IH]; intros r Hk Heff.
  - unfold steps_in. simpl. split; [lia|done].
  - destruct Heff as [Hlive Heff].
    change (run_events cfg r (ev :: evs))
      with (run_events cfg (run_event cfg r ev) evs).
    unfold steps_in in *. rewrite filter_cons.
    destruct ev as [i|].
    + destruct (work_decreases r i Hk Hlive) as [Hlt Hk'].
      destruct (IH _ Hk' Heff) as [Hle Hk'']. simpl in *. split; [lia|done].
    + destruct (IH _ (known_interrupt r Hk) Heff) as [Hle Hk''].
      assert (work V (run_event cfg r Interrupt) = work V r) as Hw by done.
      simpl in *. split; [lia|done].
Qed.

(** From any state, stepping unfinished workers leads to a state in which
    every worker has finished. *)
Lemma can_complete : ∀ n r,
  known V r → (work V r ≤ n)%nat →
  ∃ evs, effective cfg r evs ∧ all_finished (run_events cfg r evs).
Proof.
  induction n as [|n IH]; intros r Hk Hn.
  - destruct (finished_or_live r) as [Hall|[i Hlive]].
    + by exists [].
    + destruct (work_decreases r i Hk Hlive) as [Hlt _]. lia.
  - destruct (finished_or_live r) as [Hall|[i Hlive]].
    + by exists [].
    + destruct (work_decreases r i Hk Hlive) as [Hlt Hk'].
      destruct (IH (run_event cfg r (Step i)) Hk') as (evs & Heff & Hall); [lia|].
      exists (Step i :: evs). simpl. done.
Qed.

Lemma effective_app evs : ∀ r evs',
  effective cfg r evs → effective cfg (run_events cfg r evs) evs' →
  effective cfg r (evs ++ evs').
Proof.
  induction evs as [|ev evs IH]; intros r evs' H1 H2; [done|].
  destruct H1 as [Hl H1]. simpl. split; [done|]. by apply IH.
Qed.

Lemma start_scraping_known input disk0 :
  (∀ k, k ∈ get_seed_keywords input → k ∈ V) →
  let r0 := start_scraping cfg input (KeywordSheeter_init disk0) in
  known V r0
  ∧ (work V r0
     ≤ 100 * size V + 5 * length (get_seed_keywords input)
       + 3 * length (selected_engines cfg))%nat.
Proof.
  intros Hseeds r0.
  assert (Forall (known_worker V) (workers r0)) as Hws.
  { eapply Forall_impl; [apply start_scraping_workers|].
    intros w (Hpc & _). unfold known_worker. by rewrite Hpc. }
  assert (size (V ∖ scraped_keywords (app r0)) ≤ size V)%nat as Hsize.
  { apply subseteq_size. intros x. rewrite elem_of_difference. tauto. }
  destruct (decide (get_seed_keywords input = [])) as [He|Hne].
  - subst r0. unfold start_scraping, known, work in *. rewrite He in *. simpl in *.
    split; [split; [|done]|].
    + intros k Hk. by apply not_elem_of_nil in Hk.
    + lia.
  - destruct (start_scraping_app cfg input (KeywordSheeter_init disk0) Hne)
      as (Hqueue & _ & _ & _ & _ & Hws').
    fold r0 in Hqueue, Hws'. simpl in Hqueue.
    split; [split; [|done]|].
    + rewrite Hqueue. done.
    + unfold work. rewrite Hqueue, Hws', spawn_weight. lia.
Qed.

(** C5: let every seed and every suggestion any source yields belong to a
    finite set [V], so that the sources bring in nothing from outside it (in
    particular when they yield nothing at all, or only seeds).  Then a run
    cannot go on for ever: a schedule that only steps unfinished workers
    holds at most [100 * |V| + 5 * seeds + 3 * workers] steps, whatever the
    interleaving and however often the operator interrupts, and it can
    always be continued to a state in which every worker has finished.  A
    worker whose [get] finds the queue empty leaves the loop: its next
    state is final. *)
Theorem starvation_termination input disk0
    (Hseeds : ∀ k, k ∈ get_seed_keywords input → k ∈ V) :
  let r0 := start_scraping cfg input (KeywordSheeter_init disk0) in
  (∀ evs, effective cfg r0 evs →
     (steps_in evs
      ≤ 100 * size V + 5 * length (get_seed_keywords input)
        + 3 * length (selected_engines cfg))%nat
     ∧ ∃ evs', effective cfg r0 (evs ++ evs')
               ∧ all_finished (run_events cfg r0 (evs ++ evs')))
  ∧ (∀ s w, pc w = Waiting → keyword_queue s = [] →
       worker_step cfg s w = (s, goto (Finished QueueEmpty) w)).
Proof using Hwithin.
  intros r0. destruct (start_scraping_known input disk0 Hseeds) as [Hk0 Hw0].
  fold r0 in Hk0, Hw0. split.
  - intros evs Heff.
    destruct (effective_bounded evs r0 Hk0 Heff) as [Hle Hk].
    split; [lia|].
    destruct (can_complete (work V (run_events cfg r0 evs))
                (run_events cfg r0 evs) Hk) as (evs' & Heff' & Hall); [lia|].
    exists evs'. split; [by apply effective_app|].
    by rewrite run_events_app.
  - intros s w Hpc Hq. by apply starved_step.
Qed.

End Termination.

(* ===================================================================== *)
(** * Scenarios *)
(* ===================================================================== *)

(** *** The breaker, the cap, the counters *)

(** A source that cannot be reached never yields a suggestion. *)
Lemma unreachable_google_fails cap0 :
  quiet (setup_with [GOOGLE] (only_google unreachable_google) cap0).
Proof.
  intros e keyword. unfold ask. destruct e; simpl; try done.
  apply get_suggestions_failed. simpl. intros d. discriminate.
Qed.

(** The breaker at work: default cap, six seeds, a source that cannot be
    reached.  Left to run, the worker stops after five failed queries. *)
Lemma breaker_witness :
  workers (run_events (setup_with [GOOGLE] (only_google unreachable_google) 1000)
             (start_scraping (setup_with [GOOGLE] (only_google unreachable_google) 1000)
                six_lines (KeywordSheeter_init []))
             (repeat (Step 0) 27)) !! 0%nat
  = Some {| engine := GOOGLE; pc := Finished GuardFalse; scraped_count := 5;
            consecutive_failures := 5; issued := 5 |}.
Proof.
  apply (breaker_trips_after_five_failures
           (setup_with [GOOGLE] (only_google unreachable_google) 1000)
           six_lines [] 0 GOOGLE).
  - simpl. lia.
  - reflexivity.
  - simpl. eauto.
  - intros keyword. apply unreachable_google_fails.
  - apply (bool_decide_unpack _). vm_compute. exact I.
  - vm_compute. lia.
  - repeat constructor.
Defined.

(** The same worker beside a source whose suggestion cannot be printed:
    Google's worker fails four queries, takes the suggestion Yahoo's worker
    queued, cannot print it, and leaves the loop with the breaker tripped
    after four queries. *)
Remark breaker_after_four_queries :
  always_fails surrogate_setup GOOGLE
  ∧ workers (run_events surrogate_setup
               (start_scraping surrogate_setup six_lines (KeywordSheeter_init []))
               surrogate_schedule) !! 0%nat
    = Some {| engine := GOOGLE; pc := Finished GuardFalse; scraped_count := 4;
              consecutive_failures := 5; issued := 4 |}
  ∧ ¬ halts_after_exactly_five surrogate_setup
        (start_scraping surrogate_setup six_lines (KeywordSheeter_init [])) 0.
Proof.
  assert (workers (run_events surrogate_setup
               (start_scraping surrogate_setup six_lines (KeywordSheeter_init []))
               surrogate_schedule) !! 0%nat
    = Some {| engine := GOOGLE; pc := Finished GuardFalse; scraped_count := 4;
              consecutive_failures := 5; issued := 4 |}) as Hw
    by (vm_compute; reflexivity).
  split; [|split; [exact Hw|]].
  - intros keyword. unfold ask. simpl.
    apply get_suggestions_failed. simpl. intros d. discriminate.
  - intros H. specialize (H surrogate_schedule _ Hw eq_refl).
    assert (4 = 5) as Habs; [|lia].
    apply H. vm_compute. reflexivity.
Qed.

(** With a valid cap of three, the worker below leaves its loop after three
    failed queries, with keywords still queued and no stop request. *)
Lemma breaker_cap_three_counterexample :
  validate (scraping_config (setup_with [GOOGLE] (only_google unreachable_google) 3)) = true
  ∧ always_fails (setup_with [GOOGLE] (only_google unreachable_google) 3) GOOGLE
  ∧ ¬ halts_after_exactly_five
        (setup_with [GOOGLE] (only_google unreachable_google) 3)
        (start_scraping (setup_with [GOOGLE] (only_google unreachable_google) 3)
           six_lines (KeywordSheeter_init []))
        0
  ∧ keyword_queue
      (app (run_events (setup_with [GOOGLE] (only_google unreachable_google) 3)
              (start_scraping (setup_with [GOOGLE] (only_google unreachable_google) 3)
                 six_lines (KeywordSheeter_init []))
              (repeat (Step 0%nat) 17)))
    = ["k4"; "k5"; "k6"].
Proof.
  split; [reflexivity|]. split.
  { intros keyword. apply unreachable_google_fails. }
  split; [|vm_compute; reflexivity].
  intros H.
  specialize (H (repeat (Step 0%nat) 17)
                {| engine := GOOGLE; pc := Finished GuardFalse; scraped_count := 3;
                   consecutive_failures := 3; issued := 3 |}).
  assert (3 = 5) as Habs; [|lia].
  apply H; vm_compute; reflexivity.
Qed.



(** A source that answers every query with two of the seeds brings nothing
    from outside the seeds. *)
Lemma seed_echo_within :
  within (setup_with [GOOGLE] (only_google seed_echo_google) 1000)
         (list_to_set (get_seed_keywords six_lines)).
Proof.
  intros e keyword x Hx. apply elem_of_list_to_set.
  change (get_seed_keywords six_lines) with ["k1"; "k2"; "k3"; "k4"; "k5"; "k6"].
  unfold ask in Hx. destruct e; simpl in Hx; try (by apply not_elem_of_nil in Hx).
  unfold SearchEngineClient.get_suggestions in Hx. simpl in Hx.
  unfold SearchEngineClient.fetch_and_pick in Hx.
  destruct (negb _); simpl in Hx; [by apply not_elem_of_nil in Hx|].
  apply (subseteq_take 20) in Hx.
  unfold SearchEngineClient.texts, SearchEngineClient.google_shape,
    SearchEngineClient.google_pick in Hx. simpl in Hx.
  destruct (Text.eqb "k1" keyword), (Text.eqb "k2" keyword); simpl in Hx;
    repeat (apply elem_of_cons in Hx as [[= ->]|Hx]; [by repeat constructor|]);
    by apply not_elem_of_nil in Hx.
Qed.

(** The bound at work: six seeds, one worker, a source that only repeats
    seeds. *)
Lemma starvation_witness :
  (steps_in [Step 0%nat; Interrupt; Step 0%nat]
   ≤ 100 * size (list_to_set (get_seed_keywords six_lines) : gset string)
     + 5 * length (get_seed_keywords six_lines) + 3 * 1)%nat.
Proof.
  eapply proj1.
  apply (starvation_termination
           (setup_with [GOOGLE] (only_google seed_echo_google) 1000)
           (list_to_set (get_seed_keywords six_lines))
           seed_echo_within six_lines []).
  - intros k Hk. by apply elem_of_list_to_set.
  - simpl. repeat split; eexists; split; vm_compute; reflexivity.
Defined.

(** The counter at work: a third failure in a row. *)
Lemma failure_counter_witness :
  consecutive_failures
    (worker_step (setup_with [GOOGLE] (only_google unreachable_google) 1000)
       (KeywordSheeter_init [])
       (worker_step (setup_with [GOOGLE] (only_google unreachable_google) 1000)
          (KeywordSheeter_init [])
          {| engine := GOOGLE; pc := Querying "k1"; scraped_count := 0;
             consecutive_failures := 2; issued := 0 |}).2).2
  = 2 + 1.
Proof.
  pose proof (failure_counter_transitions
                (setup_with [GOOGLE] (only_google unreachable_google) 1000)
                (KeywordSheeter_init []) (KeywordSheeter_init [])
                {| engine := GOOGLE; pc := Querying "k1"; scraped_count := 0;
                   consecutive_failures := 2; issued := 0 |}
                "k1" unreachable_google eq_refl eq_refl) as [_ H].
  destruct (H eq_refl) as (_ & _ & _ & _ & Hfail).
  apply Hfail. simpl. intros d. discriminate.
Defined.

(** A query that succeeds and yet leaves the counter at one: the answer
    holds a number, the suggestion loop raises on it after the reset, and
    the handler counts a failure. *)
Lemma reset_counterexample :
  SearchEngineClient.get_suggestions numeric_amazon "phone"
  = [Str "phone case"; NotStr]
  ∧ consecutive_failures
      (worker_step numeric_setup (KeywordSheeter_init [])
         (worker_step numeric_setup (KeywordSheeter_init [])
            {| engine := AMAZON; pc := Querying "phone"; scraped_count := 0;
               consecutive_failures := 0; issued := 0 |}).2).2 = 1
  ∧ ¬ resets_on_success numeric_setup.
Proof.
  split; [reflexivity|]. split; [reflexivity|].
  intros H.
  specialize (H (KeywordSheeter_init []) (KeywordSheeter_init [])
                {| engine := AMAZON; pc := Querying "phone"; scraped_count := 0;
                   consecutive_failures := 0; issued := 0 |}
                "phone" numeric_amazon eq_refl eq_refl eq_refl).
  assert (1 = 0) as Habs; [|lia].
  apply H. discriminate.
Qed.

(** A keyword the terminal cannot encode: [_save_keyword] raises, and the
    file is not touched. *)
Lemma save_keyword_raises_counterexample :
  _save_keyword surrogate_setup ("shoes " +:+ lone_surrogate) "Yahoo"
    (KeywordSheeter_init [])
  = Raised UnicodeEncodeError (KeywordSheeter_init [])
  ∧ ¬ save_never_raises surrogate_setup.
Proof.
  split; [reflexivity|].
  intros H.
  destruct (H ("shoes " +:+ lone_surrogate) "Yahoo" (KeywordSheeter_init []))
    as [s' Hs'].
  discriminate Hs'.
Qed.

(** A blank keyword: no request is sent. *)
Lemma invalid_keyword_witness :
  Text.strip "   " = EmptyString
  ∧ SearchEngineClient.get_suggestions_traced unreachable_google "   " = ([], []).
Proof.
  split; [reflexivity|].
  apply (invalid_keyword_counts_as_failure
           (setup_with [GOOGLE] (only_google unreachable_google) 1000)
           (KeywordSheeter_init []) (KeywordSheeter_init [])
           {| engine := GOOGLE; pc := Querying "   "; scraped_count := 0;
              consecutive_failures := 0; issued := 0 |}
           "   ").
  - left. reflexivity.
  - reflexivity.
Defined.

(** *** Admission to the queue *)


(** *** Rediscovery *)

(** C2, the code at the failing input: two seeds, two sources that both
    answer "blue widget".  The suggestion is written to the output file,
    shown on the terminal and put on the queue twice, because neither write
    records it in the scraped set. *)
Theorem rediscovered_suggestion_saved_twice :
  let r := run_events widget_setup
             (start_scraping widget_setup (TypeManually "widget, gadget")
                (KeywordSheeter_init []))
             widget_schedule in
  file_lines (app r) = ["blue widget"; "blue widget"]
  ∧ terminal (app r) = ["blue widget"; "blue widget"]
  ∧ keyword_queue (app r) = ["blue widget"; "blue widget"]
  ∧ ("blue widget" ∉ scraped_keywords (app r))
  ∧ ¬ NoDup (file_lines (app r)).
Proof.
  cbv zeta.
  assert (file_lines (app (run_events widget_setup
            (start_scraping widget_setup (TypeManually "widget, gadget")
               (KeywordSheeter_init [])) widget_schedule))
          = ["blue widget"; "blue widget"]) as Hfile by (vm_compute; reflexivity).
  rewrite Hfile. split; [done|]. split; [vm_compute; reflexivity|].
  split; [vm_compute; reflexivity|]. split.
  - apply (bool_decide_unpack _). vm_compute. exact I.
  - intros H. apply NoDup_cons in H as [H _]. apply H. left.
Qed.

(** *** Normal form of keywords *)

Section Strip.

Import Text.

Lemma rstrip_idem s : rstrip (rstrip s) = rstrip s.
Proof.
  induction s as [|c s IH]; [done|].
  simpl. destruct (rstrip s) as [|c' r] eqn:Hr.
  - destruct (is_space c) eqn:Hc; [done|]. simpl. by rewrite Hc.
  - simpl. simpl in IH. destruct (rstrip r) as [|c'' r'] eqn:Hr'.
    + destruct (is_space c'); [done|]. by rewrite IH.
    + by rewrite IH.
Qed.

Lemma lstrip_tight s : tight_left (lstrip s).
Proof.
  induction s as [|c s IH]; [done|]. simpl.
  destruct (is_space c) eqn:Hc; [done|]. simpl. done.
Qed.

Lemma rstrip_tight s : tight_left s → tight_left (rstrip s).
Proof.
  destruct s as [|c s]; [done|]. simpl. intros Hc.
  destruct (rstrip s); [by rewrite Hc|done].
Qed.

Lemma lstrip_id s : tight_left s → lstrip s = s.
Proof. destruct s as [|c s]; [done|]. simpl. by intros ->. Qed.

Lemma strip_idem s : strip (strip s) = strip s.
Proof.
  unfold strip.
  rewrite (lstrip_id (rstrip (lstrip s))) by apply rstrip_tight, lstrip_tight.
  apply rstrip_idem.
Qed.

Lemma stripped_nonblank_spec xs k :
  k ∈ stripped_nonblank xs → strip k = k ∧ k ≠ EmptyString.
Proof.
  unfold stripped_nonblank. intros [x [_ Hx]]%list_elem_of_omap.
  destruct (falsy (strip x)) eqn:Hf; [done|]. injection Hx as <-.
  split; [apply strip_idem|]. intros He. by rewrite He in Hf.
Qed.

End Strip.

(** Seeds are in normal form: [get_seed_keywords] trims them, drops the
    blank ones and skips those longer than 200 characters. *)
Lemma get_seed_keywords_normalized input :
  Forall normalized (get_seed_keywords input).
Proof.
  apply Forall_forall. intros k Hk. unfold get_seed_keywords in Hk.
  apply list_elem_of_filter in Hk as [Hlen Hk].
  assert (k ∈ stripped_nonblank
            match input with
            | TypeManually seed_input => split_comma seed_input
            | LoadFromFile (Some lines) => lines
            | LoadFromFile None => []
            end) as Hin.
  { destruct input as [seed_input|[lines|]]; try done.
    destruct (Text.falsy seed_input); [by apply not_elem_of_nil in Hk|done]. }
  apply stripped_nonblank_spec in Hin as [Hs Hne].
  unfold normalized. repeat split; [done|done|lia].
Qed.

(** C7, the code at the failing input: the source answers the seed "shoes"
    with a padded suggestion and one of 201 characters.  The worker puts
    both on the queue and writes both to the output file as they came,
    although neither is in normal form. *)
Theorem unnormalized_suggestions_admitted :
  let r := run_events shoes_setup
             (start_scraping shoes_setup (TypeManually "shoes") (KeywordSheeter_init []))
             (repeat (Step 0%nat) 6) in
  keyword_queue (app r) = ["  running shoes "; long_text]
  ∧ file_lines (app r) = ["  running shoes "; long_text]
  ∧ ¬ normalized "  running shoes "
  ∧ ¬ normalized long_text.
Proof.
  cbv zeta. split; [vm_compute; reflexivity|]. split; [vm_compute; reflexivity|].
  split.
  - intros (H & _). vm_compute in H. discriminate.
  - intros (_ & _ & H). vm_compute in H. by apply H.
Qed.

(* ===================================================================== *)
(** * Further properties of the run *)
(* ===================================================================== *)

(** ** What the scraped set counts *)

Lemma finished_pend w : finished w = true → pend w = None.
Proof. unfold finished, pend. by destruct (pc w). Qed.

Lemma all_finished_pending ws :
  Forall (λ w, finished w = true) ws → pending ws = [].
Proof.
  induction 1 as [|w ws Hw _ IH]; [done|].
  by rewrite pending_cons, IH, (finished_pend w Hw).
Qed.

Lemma scraped_accounted_step cfg r ev :
  scraped_accounted cfg r → scraped_accounted cfg (run_event cfg r ev).
Proof.
  intros [Hinv Henc]. destruct ev as [i|]; simpl; [|by split].
  destruct (workers r !! i) as [w|] eqn:Hw; [|by split].
  destruct (pending_insert (workers r) i w Hw) as (rest & Hperm & Hins).
  assert (∀ s' w', pend w = None → pend w' = None →
            query_log s' = query_log (app r) →
            scraped_keywords s' = scraped_keywords (app r) →
            scraped_accounted cfg {| app := s'; workers := <[i := w']> (workers r) |})
    as Hneutral.
  { intros s' w' Hp Hp' Hl Hk. split; simpl; [|by rewrite Hl].
    intros x Hx. rewrite Hk in Hx.
    specialize (Hins w'). rewrite Hp' in Hins. rewrite Hp in Hperm.
    rewrite Hl, Hins, <- Hperm. by apply Hinv. }
  destruct (pc w) as [| | |k|k|k l|e] eqn:Epc.
  - unfold worker_step. rewrite Epc.
    destruct (clients cfg (engine w)); simpl;
      (apply Hneutral; [by unfold pend; rewrite Epc|done..]).
  - unfold worker_step. rewrite Epc.
    destruct (loop_guard cfg (app r) w); simpl;
      (apply Hneutral; [by unfold pend; rewrite Epc|done..]).
  - unfold worker_step. rewrite Epc.
    destruct (keyword_queue (app r)); simpl;
      (apply Hneutral; [by unfold pend; rewrite Epc|done..]).
  - unfold worker_step. rewrite Epc.
    destruct (bool_decide (k ∈ scraped_keywords (app r))); simpl.
    { apply Hneutral; [by unfold pend; rewrite Epc|done..]. }
    split; simpl; [|done]. intros x Hx.
    specialize (Hins (goto (Querying k) w)). simpl in Hins.
    unfold pend at 1 in Hperm. rewrite Epc in Hperm. simpl in Hperm.
    rewrite Hins, <- Permutation_middle.
    apply elem_of_union in Hx as [Hx|Hx%elem_of_singleton].
    + destruct (Hinv x Hx) as [Hin|Hno]; [|by right].
      left. right. by rewrite <- Hperm.
    + subst x. left. left.
  - rewrite (querying_step cfg (app r) w k Epc).
    unfold pend at 1 in Hperm. rewrite Epc in Hperm. simpl in Hperm.
    destruct (stdout_encodes cfg k) eqn:Hk.
    + specialize (Hins (after_query cfg w k)). simpl in Hins.
      split; simpl.
      * intros x Hx. rewrite Hins, <- app_assoc. simpl.
        destruct (Hinv x Hx) as [Hin|Hno]; [|by right].
        left. rewrite Hperm in Hin.
        apply elem_of_app in Hin as [Hin|Hin]; apply elem_of_app; [by left|by right].
      * apply Forall_app. split; [done|]. by repeat constructor.
    + specialize (Hins (after_print_failure w)). simpl in Hins.
      split; simpl; [|done].
      intros x Hx. rewrite Hins.
      destruct (Hinv x Hx) as [Hin|Hno]; [|by right].
      rewrite Hperm in Hin.
      apply elem_of_app in Hin as [Hin|Hin]; [left; apply elem_of_app; by left|].
      apply elem_of_cons in Hin as [->|Hin]; [by right|].
      left. apply elem_of_app. by right.
  - destruct (handling_step cfg (app r) w k l Epc) as (s' & -> & Hk & _ & Hl & _).
    simpl. apply Hneutral; [by unfold pend; rewrite Epc|done..].
  - rewrite (worker_step_finished cfg (app r) w e Epc). simpl.
    rewrite list_insert_id by done. by destruct r.
Qed.

Lemma start_scraping_accounted cfg input disk0 :
  scraped_accounted cfg (start_scraping cfg input (KeywordSheeter_init disk0)).
Proof.
  assert (scraped_keywords
            (app (start_scraping cfg input (KeywordSheeter_init disk0))) = ∅
          ∧ query_log
              (app (start_scraping cfg input (KeywordSheeter_init disk0))) = [])
    as [He Hl].
  { destruct (decide (get_seed_keywords input = [])) as [He|Hne].
    - unfold start_scraping. by rewrite He.
    - by destruct (start_scraping_app cfg input (KeywordSheeter_init disk0) Hne)
        as (_ & _ & -> & _ & -> & _). }
  split.
  - intros x Hx. rewrite He in Hx. by apply not_elem_of_empty in Hx.
  - rewrite Hl. constructor.
Qed.

(** X1: what the scraped set counts.  Every keyword handed to a client, or
    about to be, is in the scraped set, once; every other member of the set
    is a keyword its worker could not print, for which no query was made;
    every queried keyword could be printed.  So the size of the set, which
    the closing message reports as the number of unique keywords found, is
    at least the number of queries made and about to be made, and at a
    terminal that prints every keyword it is exactly that number: once every
    worker has finished, the number of queries, whatever was discovered and
    saved. *)
Theorem scraped_set_counts_queries cfg input disk0 evs :
  let r := run_events cfg (start_scraping cfg input (KeywordSheeter_init disk0)) evs in
  NoDup (query_log (app r) ++ pending (workers r))
  ∧ (∀ x, x ∈ query_log (app r) ++ pending (workers r) → x ∈ scraped_keywords (app r))
  ∧ (∀ x, x ∈ scraped_keywords (app r) →
          x ∈ query_log (app r) ++ pending (workers r) ∨ stdout_encodes cfg x = false)
  ∧ Forall (λ k, stdout_encodes cfg k = true) (query_log (app r))
  ∧ (length (query_log (app r)) + length (pending (workers r))
     ≤ size (scraped_keywords (app r)))%nat
  ∧ ((∀ k, stdout_encodes cfg k = true) →
     scraped_keywords (app r) = list_to_set (query_log (app r) ++ pending (workers r))
     ∧ size (scraped_keywords (app r))
       = (length (query_log (app r)) + length (pending (workers r)))%nat
     ∧ (all_finished r → size (scraped_keywords (app r)) = length (query_log (app r)))).
Proof.
  intros r.
  assert (dedup_inv r) as [Hnd Hin].
  { subst r. apply run_events_ind; [apply dedup_inv_start|].
    intros r ev. apply dedup_inv_step. }
  assert (scraped_accounted cfg r) as [Hacc Henc].
  { subst r. apply run_events_ind; [|intros r ev; apply scraped_accounted_step].
    apply start_scraping_accounted. }
  split; [done|]. split; [done|]. split; [done|]. split; [done|]. split.
  - rewrite <- length_app, <- (size_list_to_set (C := gset string)) by done.
    apply subseteq_size. intros x Hx. apply elem_of_list_to_set in Hx. by apply Hin.
  - intros Hall.
    assert (scraped_keywords (app r)
            = list_to_set (query_log (app r) ++ pending (workers r))) as Heq.
    { apply set_eq. intros x. rewrite elem_of_list_to_set. split; [|apply Hin].
      intros Hx. destruct (Hacc x Hx) as [?|Hno]; [done|].
      by rewrite Hall in Hno. }
    split; [done|]. split.
    + rewrite Heq at 1. rewrite size_list_to_set by done. by rewrite length_app.
    + intros Hfin. rewrite Heq at 1. rewrite size_list_to_set by done.
      rewrite length_app, (all_finished_pending _ Hfin). simpl. lia.
Qed.

(** ** What reaches the sink *)

Lemma written_nil d : written d [] = [].
Proof. by destruct d. Qed.

Lemma written_script_nil ks : written [] ks = ks.
Proof. by destruct ks. Qed.

Lemma written_app d a : ∀ b,
  written d (a ++ b) = written d a ++ written (drop (length a) d) b.
Proof.
  revert d. induction a as [|k a IH]; intros d b.
  { simpl. by rewrite written_nil. }
  destruct d as [|[|] d].
  - by rewrite drop_nil, !written_script_nil.
  - simpl. by rewrite IH.
  - simpl. by rewrite IH.
Qed.



(** One save: the terminal, the file and the script. *)
Lemma save_keyword_file cfg keyword source s :
  let d := if stdout_encodes cfg keyword then [keyword] else [] in
  ∃ s', _save_keyword cfg keyword source s =
          (if stdout_encodes cfg keyword then Returned s'
           else Raised UnicodeEncodeError s')
        ∧ scraped_keywords s' = scraped_keywords s
        ∧ put_log s' = put_log s
        ∧ terminal s' = terminal s ++ d
        ∧ file_lines s' =
            (if saving cfg then file_lines s ++ written (disk s) d else file_lines s)
        ∧ disk s' = (if saving cfg then drop (length d) (disk s) else disk s)
        ∧ error_log s `prefix_of` error_log s'.
Proof.
  unfold _save_keyword, print, saving.
  destruct (stdout_encodes cfg keyword); simpl.
  2:{ exists s. rewrite written_nil, !app_nil_r.
      by destruct (save_to_file (scraping_config cfg) && _). }
  destruct (save_to_file (scraping_config cfg) && bool_decide (is_Some (output_file cfg)));
    simpl; [|eauto 10].
  unfold append_line. simpl.
  destruct (disk s) as [|[|] d]; simpl; rewrite ?written_nil, ?app_nil_r;
    eexists; (split; [done|]); simpl; repeat split; try done.
  by apply prefix_app_r.
Qed.

(** The whole suggestion loop, whether it ends or raises: what is put,
    shown and written. *)
Lemma add_suggestions_sink cfg source suggestions : ∀ s,
  let s' := state_of (add_suggestions cfg source suggestions s) in
  let d := shown_by cfg (scraped_keywords s) suggestions in
  put_log s' = put_log s ++ queued_by cfg (scraped_keywords s) suggestions
  ∧ terminal s' = terminal s ++ d
  ∧ file_lines s' =
      (if saving cfg then file_lines s ++ written (disk s) d else file_lines s)
  ∧ disk s' = (if saving cfg then drop (length d) (disk s) else disk s)
  ∧ error_log s `prefix_of` error_log s'.
Proof.
  induction suggestions as [|[x|] l IH]; intros s; cbv zeta.
  - cbn [add_suggestions queued_by state_of]. rewrite shown_by_nil, !app_nil_r.
    destruct (saving cfg); by rewrite ?written_nil, ?app_nil_r.
  - cbn [add_suggestions]. rewrite queued_by_cons, shown_by_cons. unfold fresh.
    destruct (bool_decide (x ∉ scraped_keywords s) && (0 <? Text.len (Text.strip x)));
      [|apply IH].
    cbn [and_then].
    destruct (save_keyword_file cfg x source (put x s))
      as (s1 & -> & Hk & Hp & Ht & Hf & Hd & He).
    destruct (stdout_encodes cfg x); cbn [and_then state_of].
    + specialize (IH s1). cbv zeta in IH. rewrite Hk in IH. simpl in IH.
      destruct IH as (Hp2 & Ht2 & Hf2 & Hd2 & He2).
      rewrite Hp2, Ht2, Hf2, Hd2, Hp, Ht, Hf, Hd. simpl.
      rewrite <- !app_assoc. split; [done|]. split; [done|].
      split; [|split; [|by etrans]].
      * destruct (saving cfg); [|done].
        change (x :: shown_by cfg (scraped_keywords s) l)
          with ([x] ++ shown_by cfg (scraped_keywords s) l).
        rewrite written_app, <- app_assoc. done.
      * destruct (saving cfg); [|done]. by rewrite drop_drop.
    + rewrite Hp, Ht, Hf, Hd. simpl. rewrite written_nil, !app_nil_r.
      split; [done|]. split; [done|]. by destruct (saving cfg).
  - cbn [add_suggestions queued_by state_of]. rewrite shown_by_notstr, !app_nil_r.
    destruct (saving cfg); by rewrite ?written_nil, ?app_nil_r.
Qed.

(** One action of a worker: what it puts, shows and writes.  Only the
    handling of an answer does any of it; what is put and cannot be printed
    is neither shown nor written. *)
Lemma worker_step_sink cfg s w :
  ∃ q, put_log (worker_step cfg s w).1 = put_log s ++ q
       ∧ terminal (worker_step cfg s w).1 = terminal s ++ shown cfg q
       ∧ file_lines (worker_step cfg s w).1 =
           (if saving cfg then file_lines s ++ written (disk s) (shown cfg q)
            else file_lines s)
       ∧ disk (worker_step cfg s w).1 =
           (if saving cfg then drop (length (shown cfg q)) (disk s) else disk s)
       ∧ error_log s `prefix_of` error_log (worker_step cfg s w).1.
Proof.
  assert (∀ s' : KeywordSheeter,
            put_log s' = put_log s → terminal s' = terminal s →
            file_lines s' = file_lines s → disk s' = disk s →
            error_log s `prefix_of` error_log s' →
            ∃ q, put_log s' = put_log s ++ q ∧ terminal s' = terminal s ++ shown cfg q
                 ∧ file_lines s' =
                     (if saving cfg then file_lines s ++ written (disk s) (shown cfg q)
                      else file_lines s)
                 ∧ disk s' =
                     (if saving cfg then drop (length (shown cfg q)) (disk s) else disk s)
                 ∧ error_log s `prefix_of` error_log s')
    as Hsame.
  { intros s' -> -> -> -> He. exists []. unfold shown. simpl.
    rewrite !app_nil_r, written_nil, app_nil_r. by destruct (saving cfg). }
  unfold worker_step, print. destruct (pc w) as [| | |k|k|k l|e].
  - destruct (clients cfg (engine w)); apply Hsame; try done.
    by apply prefix_app_r.
  - destruct (loop_guard cfg s w); by apply Hsame.
  - destruct (keyword_queue s); by apply Hsame.
  - destruct (bool_decide (k ∈ scraped_keywords s)); by apply Hsame.
  - destruct (stdout_encodes cfg k); apply Hsame; try done.
    by apply prefix_app_r.
  - destruct l as [|x l]; [by apply Hsame|].
    pose proof (add_suggestions_sink cfg (engine_value (engine w)) (x :: l) s) as H.
    cbv zeta in H. exists (queued_by cfg (scraped_keywords s) (x :: l)).
    change (shown cfg (queued_by cfg (scraped_keywords s) (x :: l)))
      with (shown_by cfg (scraped_keywords s) (x :: l)).
    destruct (add_suggestions cfg (engine_value (engine w)) (x :: l) s);
      cbn [state_of fst] in *; [done|].
    destruct H as (? & ? & ? & ? & ?). repeat split; try done.
    etrans; [done|]. by apply prefix_app_r.
  - by apply Hsame.
Qed.

Lemma foldl_put_sink s ks :
  terminal (foldl (λ s keyword, put keyword s) s ks) = terminal s
  ∧ disk (foldl (λ s keyword, put keyword s) s ks) = disk s.
Proof. revert s. induction ks as [|k ks IH]; intros s; [done|]. apply (IH (put k s)). Qed.

Lemma start_scraping_sink cfg input disk0 :
  let r0 := start_scraping cfg input (KeywordSheeter_init disk0) in
  put_log (app r0) = get_seed_keywords input
  ∧ terminal (app r0) = []
  ∧ file_lines (app r0) = []
  ∧ disk (app r0) =
      (if saving cfg && bool_decide (get_seed_keywords input ≠ [])
       then drop 1 disk0 else disk0).
Proof.
  unfold start_scraping.
  destruct (get_seed_keywords input) as [|k ks] eqn:Hseeds.
  { simpl. by rewrite andb_false_r. }
  rewrite (bool_decide_eq_true_2 (k :: ks ≠ [])) by discriminate.
  rewrite andb_true_r. fold (saving cfg). cbn [app].
  match goal with |- context [foldl _ ?s1 (k :: ks)] => set (s0 := s1) end.
  assert (put_log s0 = [] ∧ terminal s0 = [] ∧ file_lines s0 = []
          ∧ disk s0 = (if saving cfg then drop 1 disk0 else disk0))
    as (Hp & Ht & Hf & Hd).
  { subst s0. destruct (saving cfg); simpl; [|done].
    unfold truncate_file. simpl. destruct disk0 as [|[|] d]; simpl; done. }
  destruct (foldl_put s0 (k :: ks)) as (_ & Hp' & _ & _ & _ & Hf').
  destruct (foldl_put_sink s0 (k :: ks)) as (Ht' & Hd').
  rewrite Hp', Ht', Hf', Hd', Hp, Ht, Hf, Hd. done.
Qed.

Lemma shown_app cfg a b : shown cfg (a ++ b) = shown cfg a ++ shown cfg b.
Proof. unfold shown. apply filter_app. Qed.


Lemma shown_elem cfg l x : x ∈ shown cfg l ↔ stdout_encodes cfg x = true ∧ x ∈ l.
Proof. unfold shown. by rewrite list_elem_of_filter. Qed.

Lemma sink_inv_run cfg input disk0 evs :
  let r0 := start_scraping cfg input (KeywordSheeter_init disk0) in
  let r := run_events cfg r0 evs in
  (∃ q, put_log (app r) = get_seed_keywords input ++ q
        ∧ terminal (app r) = shown cfg q)
  ∧ file_lines (app r) =
      (if saving cfg then written (disk (app r0)) (terminal (app r)) else [])
  ∧ disk (app r) =
      (if saving cfg then drop (length (terminal (app r))) (disk (app r0))
       else disk (app r0)).
Proof.
  intros r0 r. subst r.
  destruct (start_scraping_sink cfg input disk0) as (Hp0 & Ht0 & Hf0 & _).
  fold r0 in Hp0, Ht0, Hf0.
  apply (run_events_ind cfg (λ r,
    (∃ q, put_log (app r) = get_seed_keywords input ++ q
          ∧ terminal (app r) = shown cfg q)
    ∧ file_lines (app r) =
        (if saving cfg then written (disk (app r0)) (terminal (app r)) else [])
    ∧ disk (app r) =
        (if saving cfg then drop (length (terminal (app r))) (disk (app r0))
         else disk (app r0)))).
  - rewrite Hp0, Ht0, Hf0, written_nil. simpl. split.
    + exists []. by rewrite app_nil_r.
    + by destruct (saving cfg).
  - intros r ev ((q & Hp & Ht) & Hf & Hd). destruct ev as [i|]; simpl; [|eauto].
    destruct (workers r !! i) as [w|]; simpl; [|eauto].
    destruct (worker_step_sink cfg (app r) w) as (d & -> & -> & -> & -> & _).
    split.
    + exists (q ++ d). by rewrite Hp, Ht, shown_app, app_assoc.
    + rewrite Hf, Hd. destruct (saving cfg); [|done].
      by rewrite written_app, length_app, drop_drop.
Qed.



(** ** The breaker of every worker *)

Lemma failures_inv_step cfg s w :
  failures_inv w → failures_inv (worker_step cfg s w).2.
Proof.
  unfold failures_inv, max_consecutive_failures.
  intros (Hr & Hle & Hpos).
  destruct (pc w) as [| | |k|k|k l|e] eqn:Hpc.
  - unfold worker_step. rewrite Hpc.
    destruct (clients cfg (engine w)); simpl; intuition lia.
  - unfold worker_step. rewrite Hpc.
    destruct (loop_guard cfg s w) eqn:Hg; simpl; [|intuition lia].
    apply loop_guard_true in Hg as (_ & _ & Hlt).
    unfold max_consecutive_failures in Hlt. intuition lia.
  - unfold worker_step. rewrite Hpc.
    destruct (keyword_queue s); simpl; intuition lia.
  - unfold worker_step. rewrite Hpc.
    destruct (bool_decide (k ∈ scraped_keywords s)); simpl; intuition lia.
  - rewrite (querying_step cfg s w k Hpc).
    destruct (stdout_encodes cfg k); simpl; intuition lia.
  - destruct (handling_step cfg s w k l Hpc) as (s' & -> & _).
    simpl. destruct l, (completes cfg (scraped_keywords s) _); intuition lia.
  - rewrite (worker_step_finished cfg s w e Hpc). simpl. rewrite Hpc.
    destruct e; intuition lia.
Qed.

(** X4: the breaker of every worker, whatever its source answers and
    whatever the terminal prints.  The failure count stays between zero and
    five.  A worker whose count has reached five stands at the loop test or
    has left through it, so it asks for nothing more; at the loop test its
    next action is to leave, and the shared state is not touched. *)
Theorem tripped_worker_only_leaves cfg input disk0 evs :
  let r := run_events cfg (start_scraping cfg input (KeywordSheeter_init disk0)) evs in
  Forall (λ w, 0 ≤ consecutive_failures w ≤ 5
               ∧ 0 ≤ scraped_count w
               ∧ (tripped w = true → pc w = LoopHead ∨ pc w = Finished GuardFalse))
         (workers r)
  ∧ ∀ s w, pc w = LoopHead → tripped w = true →
           worker_step cfg s w = (s, goto (Finished GuardFalse) w).
Proof.
  intros r. split.
  - assert (Forall failures_inv (workers r)) as Hinv.
    { subst r. apply (run_events_ind cfg (λ r, Forall failures_inv (workers r))).
      - eapply Forall_impl; [apply start_scraping_workers|].
        intros w (Hpc & Hc & Hf & _). unfold failures_inv, max_consecutive_failures.
        rewrite Hpc, Hc, Hf. lia.
      - intros r ev Hws. destruct ev as [i|]; simpl; [|done].
        destruct (workers r !! i) as [w|] eqn:Hw; [|done]. simpl.
        apply Forall_insert; [done|]. apply failures_inv_step.
        by eapply Forall_lookup_1. }
    eapply Forall_impl; [exact Hinv|].
    intros w (Hr & Hle & Hpos). unfold max_consecutive_failures in *.
    split; [done|]. split; [done|].
    unfold tripped, max_consecutive_failures. intros Ht%Z.leb_le.
    destruct (pc w) as [| | |k|k|k l|[| |]]; auto; lia.
  - intros s w Hpc Ht. apply guard_exit_step; [done|].
    apply loop_guard_false. right. right. unfold tripped in Ht. lia.
Qed.

(** ** Keywords in circulation *)

Lemma len_pos_nonblank x : 0 < Text.len (Text.strip x) → nonblank x.
Proof. unfold nonblank, Text.len. intros H He. rewrite He in H. simpl in H. lia. Qed.

Lemma queued_by_nonblank cfg ks l : Forall nonblank (queued_by cfg ks l).
Proof.
  apply Forall_forall. intros x Hx. apply queued_by_elem in Hx as [_ Hf].
  unfold fresh in Hf. apply andb_true_iff in Hf as [_ Hf].
  apply len_pos_nonblank. lia.
Qed.

Lemma normalized_nonblank k : normalized k → nonblank k.
Proof. intros (Hs & Hne & _). unfold nonblank. by rewrite Hs. Qed.

Lemma circulating_update r i w s' w' d :
  circulating r → workers r !! i = Some w →
  put_log s' = put_log (app r) ++ d → Forall nonblank d →
  keyword_queue s' ⊆ put_log s' → query_log s' ⊆ put_log s' →
  held w' ⊆ put_log s' →
  circulating {| app := s'; workers := <[i := w']> (workers r) |}.
Proof.
  intros (Hnb & Hq & Hl & Hws) Hw Hp Hd Hq' Hl' Hh'. unfold circulating. simpl.
  split; [rewrite Hp; by apply Forall_app|]. split; [done|]. split; [done|].
  apply Forall_insert; [|done]. eapply Forall_impl; [exact Hws|].
  intros w0 H0 x Hx. rewrite Hp. apply elem_of_app. left. by apply H0.
Qed.

Lemma circulating_step cfg r ev : circulating r → circulating (run_event cfg r ev).
Proof.
  intros Hinv. destruct ev as [i|]; simpl; [|exact Hinv].
  destruct (workers r !! i) as [w|] eqn:Hw; [|exact Hinv].
  pose proof Hinv as (Hnb & Hq & Hl & Hws).
  pose proof (Forall_lookup_1 _ _ _ _ Hws Hw) as Hh. simpl in Hh.
  assert (∀ s' w', put_log s' = put_log (app r) →
            keyword_queue s' ⊆ put_log (app r) → query_log s' ⊆ put_log (app r) →
            held w' ⊆ put_log (app r) →
            circulating {| app := s'; workers := <[i := w']> (workers r) |})
    as Hsame.
  { intros s' w' Hp Hq' Hl' Hh'.
    apply (circulating_update r i w s' w' []); rewrite ?Hp, ?app_nil_r; done. }
  destruct (pc w) as [| | |k|k|k l|e] eqn:Hpc.
  - unfold worker_step. rewrite Hpc.
    destruct (clients cfg (engine w)); simpl;
      (apply Hsame; [done..|apply list_subseteq_nil]).
  - unfold worker_step. rewrite Hpc.
    destruct (loop_guard cfg (app r) w); simpl;
      (apply Hsame; [done..|apply list_subseteq_nil]).
  - unfold worker_step. rewrite Hpc.
    destruct (keyword_queue (app r)) as [|k q] eqn:Equeue; simpl.
    + apply Hsame; [done|by rewrite Equeue|done|apply list_subseteq_nil].
    + apply Hsame; simpl; [done| |done|].
      * intros x Hx. apply Hq. by right.
      * unfold held. simpl. intros x Hx%list_elem_of_singleton. subst x.
        apply Hq. by left.
  - unfold held in Hh. rewrite Hpc in Hh. unfold worker_step. rewrite Hpc.
    destruct (bool_decide (k ∈ scraped_keywords (app r))); simpl.
    + apply Hsame; [done..|apply list_subseteq_nil].
    + by apply Hsame.
  - unfold held in Hh. rewrite Hpc in Hh.
    rewrite (querying_step cfg (app r) w k Hpc).
    destruct (stdout_encodes cfg k); simpl.
    + apply Hsame; simpl; [done|done| |done].
      intros x [Hx|Hx%list_elem_of_singleton]%elem_of_app; [by apply Hl|].
      subst x. apply Hh. by left.
    + apply Hsame; simpl; [done..|apply list_subseteq_nil].
  - destruct (handling_step cfg (app r) w k l Hpc)
      as (s' & -> & Hk & _ & Hl' & Hq' & Hp' & _).
    simpl.
    apply (circulating_update r i w s' _
             (queued_by cfg (scraped_keywords (app r)) l)); try done.
    + apply queued_by_nonblank.
    + rewrite Hq', Hp'. intros x [Hx|Hx]%elem_of_app; apply elem_of_app; auto.
    + rewrite Hl', Hp'. intros x Hx. apply elem_of_app. left. by apply Hl.
    + apply list_subseteq_nil.
  - rewrite (worker_step_finished cfg (app r) w e Hpc). simpl.
    rewrite list_insert_id by done. by destruct r.
Qed.

Lemma circulating_start cfg input disk0 :
  circulating (start_scraping cfg input (KeywordSheeter_init disk0)).
Proof.
  destruct (decide (get_seed_keywords input = [])) as [He|Hne].
  - unfold start_scraping. rewrite He. unfold circulating. simpl.
    split; [done|]. split; [done|]. split; done.
  - destruct (start_scraping_app cfg input (KeywordSheeter_init disk0) Hne)
      as (Hq & Hp & _ & _ & Hl & Hws).
    unfold circulating. rewrite Hq, Hp, Hl, Hws. simpl.
    split; [|split; [done|split; [apply list_subseteq_nil|]]].
    + eapply Forall_impl; [apply get_seed_keywords_normalized|].
      apply normalized_nonblank.
    + apply Forall_fmap, Forall_forall. intros e _. apply list_subseteq_nil.
Qed.

(** X5: what circulates.  Every keyword that is put on the queue is
    non-blank, and every keyword waiting on the queue, held by a worker or
    handed to an engine was put on the queue; one that was put is a seed or
    a recorded suggestion, or cannot be printed, and one that was handed to
    an engine is a seed or a recorded suggestion.  So no engine is ever
    asked for a blank keyword, and the clients' check for one never fires
    during a run. *)
Theorem only_queued_nonblank_keywords_are_queried cfg input disk0 evs :
  let r := run_events cfg (start_scraping cfg input (KeywordSheeter_init disk0)) evs in
  Forall nonblank (put_log (app r))
  ∧ Forall nonblank (query_log (app r))
  ∧ query_log (app r) ⊆ get_seed_keywords input ++ terminal (app r)
  ∧ keyword_queue (app r) ⊆ put_log (app r)
  ∧ Forall (λ w, held w ⊆ put_log (app r)) (workers r)
  ∧ (∀ k, k ∈ put_log (app r) →
          k ∈ get_seed_keywords input ++ terminal (app r)
          ∨ stdout_encodes cfg k = false).
Proof.
  intros r.
  assert (circulating r) as (Hnb & Hq & Hl & Hws).
  { subst r. apply run_events_ind; [apply circulating_start|].
    intros r ev. apply circulating_step. }
  assert (scraped_accounted cfg r) as [_ Henc].
  { subst r. apply run_events_ind; [|intros r ev; apply scraped_accounted_step].
    apply start_scraping_accounted. }
  destruct (sink_inv_run cfg input disk0 evs) as ((q & Hp & Ht) & _).
  fold r in Hp, Ht.
  assert (∀ k, k ∈ put_log (app r) →
            k ∈ get_seed_keywords input ++ terminal (app r)
            ∨ stdout_encodes cfg k = false) as Hput.
  { intros k Hk. rewrite Hp in Hk. rewrite Ht.
    destruct (stdout_encodes cfg k) eqn:Hek; [left|by right].
    apply elem_of_app in Hk as [Hk|Hk]; apply elem_of_app; [by left|right].
    by apply shown_elem. }
  split; [done|]. split.
  { apply Forall_forall. intros k Hk. rewrite Forall_forall in Hnb. by apply Hnb, Hl. }
  split; [|done].
  intros k Hk. destruct (Hput k (Hl k Hk)) as [?|Hno]; [done|].
  rewrite Forall_forall in Henc. by rewrite (Henc k Hk) in Hno.
Qed.

(** ** What a run never takes back *)

Lemma worker_step_grows cfg s w :
  let s' := (worker_step cfg s w).1 in
  scraped_keywords s ⊆ scraped_keywords s'
  ∧ query_log s `prefix_of` query_log s'.
Proof.
  cbv zeta. destruct (pc w) as [| | |k|k|k l|e] eqn:Hpc.
  - unfold worker_step. rewrite Hpc.
    by destruct (clients cfg (engine w)).
  - unfold worker_step. rewrite Hpc. by destruct (loop_guard cfg s w).
  - unfold worker_step. rewrite Hpc. by destruct (keyword_queue s).
  - unfold worker_step. rewrite Hpc.
    destruct (bool_decide (k ∈ scraped_keywords s)); simpl; [done|].
    split; [apply union_subseteq_l|done].
  - rewrite (querying_step cfg s w k Hpc).
    destruct (stdout_encodes cfg k); simpl; [|done].
    split; [done|]. by apply prefix_app_r.
  - destruct (handling_step cfg s w k l Hpc) as (s' & -> & Hk & _ & Hl & _).
    simpl. by rewrite Hk, Hl.
  - by rewrite (worker_step_finished cfg s w e Hpc).
Qed.

(** X6: a run takes nothing back.  From any state and under any schedule
    the scraped set only grows, the queries made, the keywords queued and
    shown, the output file and the error log are only extended (the file is
    never truncated again once the workers run), the stop flag stays up
    once it is up, and the threads keep their engines. *)
Theorem run_only_extends cfg r evs :
  let r' := run_events cfg r evs in
  scraped_keywords (app r) ⊆ scraped_keywords (app r')
  ∧ query_log (app r) `prefix_of` query_log (app r')
  ∧ put_log (app r) `prefix_of` put_log (app r')
  ∧ terminal (app r) `prefix_of` terminal (app r')
  ∧ file_lines (app r) `prefix_of` file_lines (app r')
  ∧ error_log (app r) `prefix_of` error_log (app r')
  ∧ (stop_event (app r) = true → stop_event (app r') = true)
  ∧ engine <$> workers r' = engine <$> workers r.
Proof.
  cbv zeta.
  apply (run_events_ind cfg (λ r',
    scraped_keywords (app r) ⊆ scraped_keywords (app r')
    ∧ query_log (app r) `prefix_of` query_log (app r')
    ∧ put_log (app r) `prefix_of` put_log (app r')
    ∧ terminal (app r) `prefix_of` terminal (app r')
    ∧ file_lines (app r) `prefix_of` file_lines (app r')
    ∧ error_log (app r) `prefix_of` error_log (app r')
    ∧ (stop_event (app r) = true → stop_event (app r') = true)
    ∧ engine <$> workers r' = engine <$> workers r)).
  { repeat split; done. }
  intros r' ev (Hk & Hl & Hp & Ht & Hf & He & Hs & Hws).
  destruct ev as [i|]; simpl; [|repeat split; done].
  destruct (workers r' !! i) as [w|] eqn:Hw; [|repeat split; done]. simpl.
  destruct (worker_step_grows cfg (app r') w) as (Hk' & Hl').
  destruct (worker_step_sink cfg (app r') w) as (d & Hp' & Ht' & Hf' & _ & He').
  split; [by etrans|]. split; [by etrans|].
  split; [etrans; [exact Hp|]; rewrite Hp'; by apply prefix_app_r|].
  split; [etrans; [exact Ht|]; rewrite Ht'; by apply prefix_app_r|].
  split.
  { etrans; [exact Hf|]. rewrite Hf'. destruct (saving cfg); [|done].
    by apply prefix_app_r. }
  split; [by etrans|]. split.
  - intros H. rewrite worker_step_stop. by apply Hs.
  - rewrite list_fmap_insert, worker_step_engine, <- Hws.
    apply list_insert_id. by rewrite list_lookup_fmap, Hw.
Qed.

(** ** Cancellation *)

(** Under a raised stop flag every action brings the worker closer to the
    exit, and only the action at [Querying] makes a request. *)
Lemma stopped_step cfg s w :
  stop_event s = true →
  let w' := (worker_step cfg s w).2 in
  (rank w' ≤ pred (rank w))%nat
  ∧ issued w' + (if (3 <=? rank w')%nat then 1 else 0)
    ≤ issued w + (if (3 <=? rank w)%nat then 1 else 0).
Proof.
  intros Hstop. cbv zeta.
  destruct (pc w) as [| | |k|k|k l|e] eqn:Hpc.
  - unfold worker_step. rewrite Hpc.
    destruct (clients cfg (engine w)); unfold rank; simpl; rewrite Hpc; simpl; lia.
  - rewrite guard_exit_step; [|done|apply loop_guard_false; by left].
    unfold rank. simpl. rewrite Hpc. simpl. lia.
  - unfold worker_step. rewrite Hpc.
    destruct (keyword_queue s); unfold rank; simpl; rewrite Hpc; simpl; lia.
  - unfold worker_step. rewrite Hpc.
    destruct (bool_decide (k ∈ scraped_keywords s));
      unfold rank; simpl; rewrite Hpc; simpl; lia.
  - rewrite (querying_step cfg s w k Hpc).
    destruct (stdout_encodes cfg k); unfold rank; simpl; rewrite Hpc; simpl; lia.
  - destruct (handling_step cfg s w k l Hpc) as (s' & -> & _).
    unfold rank. simpl. rewrite Hpc. simpl. lia.
  - rewrite (worker_step_finished cfg s w e Hpc). unfold rank. simpl.
    rewrite Hpc. simpl. lia.
Qed.

Lemma rank_0_finished w : rank w = 0%nat → finished w = true.
Proof. unfold rank, finished. by destruct (pc w). Qed.

Lemma stopped_steps cfg ss : ∀ w,
  Forall (λ s, stop_event s = true) ss →
  (rank w ≤ length ss)%nat →
  finished (steps_through cfg ss w) = true
  ∧ issued (steps_through cfg ss w)
    ≤ issued w + (if (3 <=? rank w)%nat then 1 else 0).
Proof.
  induction ss as [|s ss IH]; intros w Hss Hlen; cbn [steps_through length] in *.
  - split; [apply rank_0_finished; lia|]. destruct (3 <=? rank w)%nat; lia.
  - apply Forall_cons in Hss as [Hs Hss].
    destruct (stopped_step cfg s w Hs) as [Hrank Hpot].
    destruct (IH (worker_step cfg s w).2 Hss) as [Hfin Hiss]; [lia|].
    split; [done|]. lia.
Qed.

(** X7: cancellation is prompt.  Once Ctrl+C has raised the stop flag, a
    worker leaves [scrape_keywords_worker] within five of its own actions,
    whatever the other threads do to the shared state in between, and it
    sends at most one more request: the one for a keyword it had already
    taken from the queue. *)
Theorem cancelled_worker_leaves_within_five cfg ss w
    (Hstop : Forall (λ s, stop_event s = true) ss)
    (Hlen : (5 ≤ length ss)%nat) :
  finished (steps_through cfg ss w) = true
  ∧ issued (steps_through cfg ss w) ≤ issued w + 1.
Proof.
  destruct (stopped_steps cfg ss w Hstop) as [Hfin Hiss].
  - unfold rank. destruct (pc w); lia.
  - split; [done|]. destruct (3 <=? rank w)%nat; lia.
Qed.

Lemma cancelled_worker_witness :
  Forall (λ s, stop_event s = true) (replicate 5 stopped_app)
  ∧ (5 ≤ length (replicate 5 stopped_app))%nat
  ∧ finished (steps_through widget_setup (replicate 5 stopped_app) waiting_google) = true
  ∧ issued (steps_through widget_setup (replicate 5 stopped_app) waiting_google)
    ≤ issued waiting_google + 1.
Proof.
  assert (Forall (λ s, stop_event s = true) (replicate 5 stopped_app)) as Hstop.
  { repeat constructor. }
  assert (5 ≤ length (replicate 5 stopped_app))%nat as Hlen.
  { simpl. lia. }
  split; [exact Hstop|]. split; [exact Hlen|].
  exact (cancelled_worker_leaves_within_five widget_setup
           (replicate 5 stopped_app) waiting_google Hstop Hlen).
Defined.

(** Both bounds are reached: a worker blocked in [get] when the flag goes
    up, with a keyword on the queue, still needs its five actions and
    sends one request. *)
Remark cancellation_bounds_reached :
  finished (steps_through widget_setup (replicate 4 stopped_app) waiting_google) = false
  ∧ issued (steps_through widget_setup (replicate 5 stopped_app) waiting_google) = 1.
Proof. split; vm_compute; reflexivity. Qed.

(** ** A worker without a client *)

Lemma idle_step cfg s w :
  clients cfg (engine w) = None → idle w → idle (worker_step cfg s w).2.
Proof.
  intros Hc ([Hpc|Hpc] & Hcount & Hf & Hi).
  - unfold worker_step. rewrite Hpc, Hc. unfold idle. simpl. auto.
  - rewrite (worker_step_finished cfg s w NoClient Hpc). unfold idle. auto.
Qed.

(** X8: an engine that was selected but has no client (its construction
    failed in [_initialize_clients]) is never asked anything.  Its worker
    logs the fact and returns at once, with all its counters at zero, and
    stays out for the rest of the run. *)
Theorem worker_without_client_stays_out cfg input disk0 evs :
  let r := run_events cfg (start_scraping cfg input (KeywordSheeter_init disk0)) evs in
  Forall (λ w, clients cfg (engine w) = None → idle w) (workers r)
  ∧ ∀ s w, clients cfg (engine w) = None → pc w = Start →
           worker_step cfg s w =
           (logger_error "No client available" s, goto (Finished NoClient) w).
Proof.
  intros r. split.
  - subst r.
    apply (run_events_ind cfg
             (λ r, Forall (λ w, clients cfg (engine w) = None → idle w) (workers r))).
    + eapply Forall_impl; [apply start_scraping_workers|].
      intros w (Hpc & Hc & Hf & Hi) _. unfold idle. auto.
    + intros r ev Hws. destruct ev as [i|]; simpl; [|done].
      destruct (workers r !! i) as [w|] eqn:Hw; [|done]. simpl.
      apply Forall_insert; [done|]. rewrite worker_step_engine. intros Hc.
      apply idle_step; [done|]. by apply (Forall_lookup_1 _ _ _ _ Hws Hw).
  - intros s w Hc Hpc. unfold worker_step. by rewrite Hpc, Hc.
Qed.

(** ** Seeds *)

Lemma stripped_nonblank_elem xs k :
  k ∈ stripped_nonblank xs ↔
  ∃ p, p ∈ xs ∧ k = Text.strip p ∧ k ≠ EmptyString.
Proof.
  unfold stripped_nonblank. rewrite list_elem_of_omap. split.
  - intros (p & Hp & Hk). exists p. split; [done|].
    destruct (Text.falsy (Text.strip p)) eqn:Hf; [done|]. injection Hk as <-.
    split; [done|]. intros He. by rewrite He in Hf.
  - intros (p & Hp & -> & Hne). exists p. split; [done|].
    destruct (Text.falsy (Text.strip p)) eqn:Hf; [|done].
    by apply falsy_spec in Hf.
Qed.

Lemma split_comma_empty : stripped_nonblank (split_comma EmptyString) = [].
Proof. reflexivity. Qed.

Lemma get_seed_keywords_pieces input :
  get_seed_keywords input =
  filter (λ keyword, ¬ (200 < Text.len keyword)) (stripped_nonblank (pieces input)).
Proof.
  unfold get_seed_keywords, pieces.
  destruct input as [seed_input|[lines|]]; [|done..].
  by destruct (Text.falsy seed_input).
Qed.

(** X9: the seeds.  A keyword is a seed exactly when it is the trimmed form
    of one of the pieces of the operator's answer (the parts between commas
    of a typed line, or the lines of the file), is not empty, and has at most
    200 characters. *)
Theorem seed_keywords_characterized input k :
  k ∈ get_seed_keywords input ↔
  ∃ p, p ∈ pieces input ∧ k = Text.strip p ∧ k ≠ EmptyString ∧ Text.len k ≤ 200.
Proof.
  rewrite get_seed_keywords_pieces, list_elem_of_filter, stripped_nonblank_elem.
  split.
  - intros (Hlen & p & Hp & Hk & Hne). exists p. repeat split; try done. lia.
  - intros (p & Hp & Hk & Hne & Hlen). split; [lia|]. by exists p.
Qed.

Lemma rstrip_newline s : Text.rstrip (s +:+ newline) = Text.rstrip s.
Proof. induction s as [|c s IH]; [done|]. simpl. by rewrite IH. Qed.

Lemma strip_newline k : normalized k → Text.strip (k +:+ newline) = k.
Proof.
  intros (Hs & Hne & _).
  assert (tight_left k) as Ht.
  { rewrite <- Hs. apply rstrip_tight, lstrip_tight. }
  assert (Text.rstrip k = k) as Hr.
  { rewrite <- Hs at 1. unfold Text.strip. rewrite rstrip_idem. exact Hs. }
  unfold Text.strip.
  assert (Text.lstrip (k +:+ newline) = k +:+ newline) as ->.
  { destruct k as [|c k]; [done|]. simpl in *. by rewrite Ht. }
  by rewrite rstrip_newline.
Qed.

Lemma stripped_nonblank_cons x xs :
  stripped_nonblank (x :: xs) =
  if Text.falsy (Text.strip x) then stripped_nonblank xs
  else Text.strip x :: stripped_nonblank xs.
Proof. unfold stripped_nonblank. simpl. by destruct (Text.falsy (Text.strip x)). Qed.

Lemma stripped_nonblank_with_line_ends ks :
  Forall normalized ks → stripped_nonblank (with_line_ends ks) = ks.
Proof.
  induction 1 as [|k ks Hk _ IH]; [done|].
  change (with_line_ends (k :: ks)) with ((k +:+ newline) :: with_line_ends ks).
  rewrite stripped_nonblank_cons, (strip_newline k Hk), IH.
  destruct Hk as (_ & Hne & _).
  destruct (Text.falsy k) eqn:Hf; [by apply falsy_spec in Hf|done].
Qed.

Lemma get_seed_keywords_with_line_ends ks :
  Forall normalized ks →
  get_seed_keywords (LoadFromFile (Some (with_line_ends ks))) = ks.
Proof.
  intros Hks. unfold get_seed_keywords.
  rewrite (stripped_nonblank_with_line_ends ks Hks).
  induction Hks as [|k ks (_ & _ & Hlen) _ IH]; [done|].
  rewrite filter_cons_True by lia. by rewrite IH.
Qed.

Lemma append_assoc a b c : (a +:+ b) +:+ c = a +:+ b +:+ c.
Proof.
  induction a as [|x a IH]; [done|].
  change (String x ((a +:+ b) +:+ c) = String x (a +:+ b +:+ c)).
  by rewrite IH.
Qed.

(** Reading a line that holds no line end of its own. *)
Lemma readlines_line k : ∀ line rest,
  single_line k = true →
  readlines line (k +:+ newline +:+ rest)
  = (line +:+ k +:+ newline) :: readlines EmptyString rest.
Proof.
  induction k as [|c k IH]; intros line rest Hk; [done|].
  unfold single_line in Hk. simpl in Hk.
  apply andb_true_iff in Hk as [Hc Hk].
  apply negb_true_iff, orb_false_iff in Hc as [Hlf Hcr].
  change (readlines line (String c k +:+ newline +:+ rest))
    with (readlines line (String c (k +:+ newline +:+ rest))).
  cbn [readlines]. rewrite Hlf, Hcr, (IH _ _ Hk), append_assoc. done.
Qed.

Lemma readlines_one_per_line ks :
  Forall (λ k, single_line k = true) ks →
  readlines EmptyString (one_per_line ks) = with_line_ends ks.
Proof.
  induction 1 as [|k ks Hk _ IH]; [done|].
  change (one_per_line (k :: ks)) with (k +:+ newline +:+ one_per_line ks).
  by rewrite (readlines_line k _ _ Hk), IH.
Qed.

(** X10: seeding is idempotent on keywords that hold no line end.  Written
    to a file one per line and loaded again, such seeds come back as they
    are, in the same order and with their duplicates.  (A seed typed with a
    carriage return inside comes back as two.) *)
Theorem seed_keywords_reload input
    (Hlines : Forall (λ k, single_line k = true) (get_seed_keywords input)) :
  get_seed_keywords
    (LoadFromFile (Some (readlines EmptyString (one_per_line (get_seed_keywords input)))))
  = get_seed_keywords input.
Proof.
  rewrite (readlines_one_per_line _ Hlines).
  apply get_seed_keywords_with_line_ends, get_seed_keywords_normalized.
Qed.

Lemma seed_reload_witness :
  Forall (λ k, single_line k = true) (get_seed_keywords (TypeManually "shoes, red shoes"))
  ∧ get_seed_keywords
      (LoadFromFile (Some (readlines EmptyString
         (one_per_line (get_seed_keywords (TypeManually "shoes, red shoes"))))))
    = ["shoes"; "red shoes"].
Proof.
  assert (Forall (λ k, single_line k = true)
            (get_seed_keywords (TypeManually "shoes, red shoes"))) as Hlines.
  { repeat constructor. }
  split; [exact Hlines|].
  exact (seed_keywords_reload (TypeManually "shoes, red shoes") Hlines).
Defined.

(** The condition is needed: a carriage return inside a typed seed is a
    line end when the file is read. *)
Remark seed_with_line_end_splits :
  get_seed_keywords (TypeManually ("a" +:+ String "013"%char "b"))
  = ["a" +:+ String "013"%char "b"]
  ∧ get_seed_keywords
      (LoadFromFile (Some (readlines EmptyString
         (one_per_line [("a" +:+ String "013"%char "b")]))))
    = ["a"; "b"].
Proof. split; vm_compute; reflexivity. Qed.

Lemma no_seed_iff input :
  get_seed_keywords input = [] ↔ Forall unusable (pieces input).
Proof.
  rewrite get_seed_keywords_pieces. split.
  - intros He. apply Forall_forall. intros p Hp. unfold unusable.
    destruct (decide (Text.strip p = EmptyString)) as [|Hne]; [by left|].
    destruct (decide (200 < Text.len (Text.strip p))) as [|Hlen]; [by right|].
    assert (Text.strip p ∈ filter (λ keyword, ¬ (200 < Text.len keyword))
                             (stripped_nonblank (pieces input))) as Hin.
    { apply list_elem_of_filter. split; [done|].
      apply stripped_nonblank_elem. by exists p. }
    rewrite He in Hin. by apply not_elem_of_nil in Hin.
  - intros Hall. apply elem_of_nil_inv. intros k Hk.
    apply list_elem_of_filter in Hk as [Hlen Hk].
    apply stripped_nonblank_elem in Hk as (p & Hp & -> & Hne).
    rewrite Forall_forall in Hall. destruct (Hall p Hp) as [He|Hl]; [done|lia].
Qed.

(** X11: without a usable seed nothing happens.  If every piece of the
    operator's answer is blank or longer than 200 characters once trimmed,
    [start_scraping] returns before it touches the output file, queues
    nothing and starts no worker: whatever follows, the application object
    stays as it was, up to the stop flag of a Ctrl+C. *)
Theorem no_usable_seed_no_run cfg input s evs
    (Hnone : Forall unusable (pieces input)) :
  let r := run_events cfg (start_scraping cfg input s) evs in
  workers r = [] ∧ (app r = s ∨ app r = set_stop s).
Proof.
  apply no_seed_iff in Hnone. cbv zeta.
  apply (run_events_ind cfg (λ r, workers r = [] ∧ (app r = s ∨ app r = set_stop s))).
  - unfold start_scraping. rewrite Hnone. auto.
  - intros r ev [Hws Happ]. destruct ev as [i|]; simpl.
    + rewrite Hws. simpl. auto.
    + split; [done|]. right. by destruct Happ as [->| ->].
Qed.

Lemma no_usable_seed_witness :
  Forall unusable (pieces (TypeManually " , ,"))
  ∧ workers (run_events widget_setup
               (start_scraping widget_setup (TypeManually " , ,") (KeywordSheeter_init []))
               [Step 0%nat; Interrupt]) = [].
Proof.
  assert (Forall unusable (pieces (TypeManually " , ,"))) as Hnone.
  { repeat (constructor; [left; reflexivity|]). constructor. }
  split; [exact Hnone|].
  exact (proj1 (no_usable_seed_no_run widget_setup (TypeManually " , ,")
                  (KeywordSheeter_init []) [Step 0%nat; Interrupt] Hnone)).
Defined.

(** ** The output file of an earlier run *)

Lemma sink_run_from cfg r0 evs :
  let r := run_events cfg r0 evs in
  ∃ q, put_log (app r) = put_log (app r0) ++ q
       ∧ terminal (app r) = terminal (app r0) ++ shown cfg q
       ∧ file_lines (app r) =
           (if saving cfg
            then file_lines (app r0) ++ written (disk (app r0)) (shown cfg q)
            else file_lines (app r0))
       ∧ disk (app r) =
           (if saving cfg then drop (length (shown cfg q)) (disk (app r0))
            else disk (app r0)).
Proof.
  cbv zeta.
  apply (run_events_ind cfg (λ r,
    ∃ q, put_log (app r) = put_log (app r0) ++ q
         ∧ terminal (app r) = terminal (app r0) ++ shown cfg q
         ∧ file_lines (app r) =
             (if saving cfg
              then file_lines (app r0) ++ written (disk (app r0)) (shown cfg q)
              else file_lines (app r0))
         ∧ disk (app r) =
             (if saving cfg then drop (length (shown cfg q)) (disk (app r0))
              else disk (app r0)))).
  - exists []. unfold shown. simpl. rewrite !app_nil_r, written_nil, app_nil_r.
    by destruct (saving cfg).
  - intros r ev (q & Hp & Ht & Hf & Hd). destruct ev as [i|]; simpl; [|by exists q].
    destruct (workers r !! i) as [w|]; simpl; [|by exists q].
    destruct (worker_step_sink cfg (app r) w) as (d & -> & -> & -> & -> & _).
    exists (q ++ d). rewrite Ht, Hp, Hf, Hd, shown_app, !app_assoc.
    split; [done|]. split; [done|].
    destruct (saving cfg); [|done].
    by rewrite written_app, length_app, drop_drop, app_assoc.
Qed.

Lemma start_scraping_file cfg input s :
  get_seed_keywords input ≠ [] →
  let r0 := start_scraping cfg input s in
  terminal (app r0) = terminal s
  ∧ file_lines (app r0) = (if saving cfg && write_ok (disk s) then [] else file_lines s)
  ∧ disk (app r0) = (if saving cfg then drop 1 (disk s) else disk s).
Proof.
  intros Hne. unfold start_scraping, saving.
  destruct (get_seed_keywords input) as [|k ks]; [done|].
  cbv zeta. cbn [app workers].
  match goal with |- context [foldl _ ?s1 _] => set (s0 := s1) end.
  destruct (foldl_put s0 (k :: ks)) as (_ & _ & _ & _ & _ & ->).
  destruct (foldl_put_sink s0 (k :: ks)) as (-> & ->).
  subst s0.
  destruct (save_to_file (scraping_config cfg) && bool_decide (is_Some (output_file cfg)));
    simpl; [|done].
  unfold truncate_file. destruct (disk s) as [|[|] d]; simpl; done.
Qed.

(** X12: the run over the file of an earlier run.  With saving on and at
    least one seed, [start_scraping] empties the output file once.  If that
    [open] is refused, the failure is only logged and the run goes on: the
    old contents stay, and the keywords of this run are appended to them. *)
Theorem output_file_over_previous_contents cfg input s evs
    (Hseeds : get_seed_keywords input ≠ [])
    (Hsave : saving cfg = true) :
  let r := run_events cfg (start_scraping cfg input s) evs in
  ∃ shown, terminal (app r) = terminal s ++ shown
           ∧ file_lines (app r) =
               (if write_ok (disk s) then [] else file_lines s)
               ++ written (drop 1 (disk s)) shown.
Proof.
  cbv zeta.
  destruct (sink_run_from cfg (start_scraping cfg input s) evs)
    as (q & _ & Ht & Hf & _).
  destruct (start_scraping_file cfg input s Hseeds) as (Ht0 & Hf0 & Hd0).
  exists (shown cfg q). rewrite Ht, Hf, Ht0, Hf0, Hd0, Hsave. done.
Qed.

Lemma previous_contents_witness :
  get_seed_keywords (TypeManually "shoes") ≠ []
  ∧ saving shoes_setup = true
  ∧ ∃ shown,
      terminal (app (run_events shoes_setup
                       (start_scraping shoes_setup (TypeManually "shoes") stale_app)
                       (repeat (Step 0%nat) 6)))
      = terminal stale_app ++ shown
      ∧ file_lines (app (run_events shoes_setup
                           (start_scraping shoes_setup (TypeManually "shoes") stale_app)
                           (repeat (Step 0%nat) 6)))
        = (if write_ok (disk stale_app) then [] else file_lines stale_app)
          ++ written (drop 1 (disk stale_app)) shown.
Proof.
  assert (get_seed_keywords (TypeManually "shoes") ≠ []) as Hseeds.
  { intros H. vm_compute in H. discriminate. }
  assert (saving shoes_setup = true) as Hsave by reflexivity.
  split; [exact Hseeds|]. split; [exact Hsave|].
  exact (output_file_over_previous_contents shoes_setup (TypeManually "shoes")
           stale_app (repeat (Step 0%nat) 6) Hseeds Hsave).
Defined.

(** The old line is still there, before the two of this run. *)
Remark stale_line_kept :
  file_lines (app (run_events shoes_setup
                     (start_scraping shoes_setup (TypeManually "shoes") stale_app)
                     (repeat (Step 0%nat) 6)))
  = ["old keyword"; "  running shoes "; long_text].
Proof. vm_compute. reflexivity. Qed.

(** ** Where the recorded keywords come from *)





(** ** Nothing queued is lost *)

Lemma accounted_update r i w s' w' :
  accounted r → workers r !! i = Some w →
  (∀ k, k ∈ put_log s' → k ∈ put_log (app r) ∨ k ∈ keyword_queue s') →
  (∀ k, k ∈ keyword_queue (app r) →
        k ∈ keyword_queue s' ∨ k ∈ scraped_keywords s' ∨ pc w' = Popped k) →
  scraped_keywords (app r) ⊆ scraped_keywords s' →
  (∀ k, pc w = Popped k → k ∈ scraped_keywords s' ∨ pc w' = Popped k) →
  accounted {| app := s'; workers := <[i := w']> (workers r) |}.
Proof.
  intros Hinv Hw Hput Hqueue Hscr Hheld k Hk. simpl in *.
  assert (w' ∈ <[i := w']> (workers r)) as Hw'.
  { apply list_elem_of_lookup. exists i. apply list_lookup_insert_eq.
    by eapply lookup_lt_Some. }
  assert (∀ k, pc w' = Popped k → ∃ w0, w0 ∈ <[i := w']> (workers r) ∧ pc w0 = Popped k)
    as Hnew by (intros k0 Hk0; by exists w').
  destruct (Hput k Hk) as [Hold|Hq]; [|by left].
  destruct (Hinv k Hold) as [Hq|[Hs|(w0 & Hw0 & Hpc0)]].
  - destruct (Hqueue k Hq) as [?|[?|?]]; auto.
  - right. left. by apply Hscr.
  - apply list_elem_of_lookup in Hw0 as [j Hj].
    destruct (decide (i = j)) as [<-|Hne].
    + rewrite Hw in Hj. injection Hj as <-.
      destruct (Hheld k Hpc0) as [?|?]; auto.
    + right. right. exists w0. split; [|done].
      apply list_elem_of_lookup. exists j. by rewrite list_lookup_insert_ne.
Qed.

Lemma accounted_step cfg r ev : accounted r → accounted (run_event cfg r ev).
Proof.
  intros Hinv. destruct ev as [i|]; simpl; [|exact Hinv].
  destruct (workers r !! i) as [w|] eqn:Hw; [|exact Hinv].
  assert (∀ s' w', put_log s' = put_log (app r) →
            keyword_queue s' = keyword_queue (app r) →
            scraped_keywords (app r) ⊆ scraped_keywords s' →
            (∀ k, pc w = Popped k → k ∈ scraped_keywords s' ∨ pc w' = Popped k) →
            accounted {| app := s'; workers := <[i := w']> (workers r) |})
    as Hsame.
  { intros s' w' Hp Hq Hs Hh. apply (accounted_update r i w s' w'); try done.
    - intros k Hk. left. by rewrite <- Hp.
    - intros k Hk. left. by rewrite Hq. }
  destruct (pc w) as [| | |k|k|k l|e] eqn:Hpc.
  - unfold worker_step. rewrite Hpc.
    destruct (clients cfg (engine w)); simpl; by apply Hsame.
  - unfold worker_step. rewrite Hpc.
    destruct (loop_guard cfg (app r) w); simpl; by apply Hsame.
  - unfold worker_step. rewrite Hpc.
    destruct (keyword_queue (app r)) as [|k q] eqn:Hq; simpl.
    + by apply Hsame.
    + apply (accounted_update r i w _ _); simpl; try done.
      * intros k0 Hk0. by left.
      * rewrite Hq. intros k0 [->|Hin]%elem_of_cons; auto.
      * intros k0 Hk0. by rewrite Hpc in Hk0.
  - unfold worker_step. rewrite Hpc.
    destruct (bool_decide (k ∈ scraped_keywords (app r))) eqn:Hin; simpl.
    + apply bool_decide_eq_true in Hin. apply Hsame; try done.
      intros k0 [= <-]. by left.
    + apply Hsame; simpl; try done.
      * apply union_subseteq_l.
      * intros k0 [= <-]. left. apply elem_of_union. right. by apply elem_of_singleton.
  - rewrite (querying_step cfg (app r) w k Hpc).
    destruct (stdout_encodes cfg k); simpl; by apply Hsame.
  - destruct (handling_step cfg (app r) w k l Hpc)
      as (s' & -> & Hk & _ & _ & Hq & Hp & _).
    simpl. apply (accounted_update r i w s' _); try done.
    + intros k0. rewrite Hp, Hq. intros [?|?]%elem_of_app; [by left|].
      right. apply elem_of_app. by right.
    + intros k0 Hk0. left. rewrite Hq. apply elem_of_app. by left.
    + by rewrite Hk.
    + intros k0 Hk0. by rewrite Hpc in Hk0.
  - rewrite (worker_step_finished cfg (app r) w e Hpc). simpl.
    rewrite list_insert_id by done. by destruct r.
Qed.

(** X14: nothing queued is lost.  Every keyword that was put on the queue
    is still there, or in the scraped set, or in the hands of the worker
    that has just taken it.  So when all workers have returned and the queue
    is empty, the keywords the engines were asked for are exactly the seeds
    and the recorded suggestions that the terminal can print: the run has
    explored all it found, but for the keywords it could not announce.  When
    the seeds can be printed these are all the seeds and all the recorded
    suggestions. *)
Theorem nothing_queued_is_lost cfg input disk0 evs :
  let r := run_events cfg (start_scraping cfg input (KeywordSheeter_init disk0)) evs in
  accounted r
  ∧ (all_finished r → keyword_queue (app r) = [] →
     (∀ k, k ∈ query_log (app r) ↔
           k ∈ get_seed_keywords input ++ terminal (app r)
           ∧ stdout_encodes cfg k = true)
     ∧ (Forall (λ k, stdout_encodes cfg k = true) (get_seed_keywords input) →
        ∀ k, k ∈ get_seed_keywords input ++ terminal (app r) ↔ k ∈ query_log (app r))).
Proof.
  intros r.
  assert (accounted r) as Hacc.
  { subst r. apply run_events_ind; [|intros r ev; apply accounted_step].
    intros k Hk. left.
    destruct (decide (get_seed_keywords input = [])) as [He|Hne].
    - unfold start_scraping in *. by rewrite He in *.
    - destruct (start_scraping_app cfg input (KeywordSheeter_init disk0) Hne)
        as (Hq & Hp & _). rewrite Hp in Hk. by rewrite Hq. }
  split; [done|]. intros Hall Hempty.
  destruct (sink_inv_run cfg input disk0 evs) as ((q & Hp & Ht) & _).
  fold r in Hp, Ht.
  assert (scraped_accounted cfg r) as [Hsa Henc].
  { subst r. apply run_events_ind; [|intros r ev; apply scraped_accounted_step].
    apply start_scraping_accounted. }
  assert (circulating r) as (_ & _ & Hl & _).
  { subst r. apply run_events_ind; [apply circulating_start|].
    intros r ev. apply circulating_step. }
  rewrite Forall_forall in Henc.
  assert (∀ k, k ∈ query_log (app r) ↔
               k ∈ get_seed_keywords input ++ terminal (app r)
               ∧ stdout_encodes cfg k = true) as Hiff.
  { intros k. split.
    - intros Hk. split; [|by apply Henc].
      pose proof (Hl k Hk) as Hput. rewrite Hp in Hput. rewrite Ht.
      apply elem_of_app in Hput as [?|?]; apply elem_of_app; [by left|right].
      apply shown_elem. split; [by apply Henc|done].
    - intros [Hk Hek].
      assert (k ∈ put_log (app r)) as Hput.
      { rewrite Hp. rewrite Ht in Hk.
        apply elem_of_app in Hk as [?|Hk]; apply elem_of_app; [by left|right].
        by apply shown_elem in Hk as [_ ?]. }
      destruct (Hacc k Hput) as [Hq|[Hs|(w & Hw & Hpc)]].
      + rewrite Hempty in Hq. by apply not_elem_of_nil in Hq.
      + destruct (Hsa k Hs) as [Hin|Hno]; [|by rewrite Hek in Hno].
        by rewrite (all_finished_pending _ Hall), app_nil_r in Hin.
      + unfold all_finished in Hall. rewrite Forall_forall in Hall.
        specialize (Hall w Hw). unfold finished in Hall. by rewrite Hpc in Hall. }
  split; [done|]. intros Hseeds k. rewrite Hiff. split; [|tauto].
  intros Hk. split; [done|].
  apply elem_of_app in Hk as [Hk|Hk].
  - rewrite Forall_forall in Hseeds. by apply Hseeds.
  - rewrite Ht in Hk. by apply shown_elem in Hk as [? _].
Qed.

(** A seed that cannot be printed is taken from the queue, recorded in the
    scraped set and never queried. *)
Remark unprintable_seed_is_never_queried :
  let r := run_events surrogate_setup
             (start_scraping surrogate_setup (TypeManually lone_surrogate)
                (KeywordSheeter_init []))
             (repeat (Step 0%nat) 7 ++ repeat (Step 1%nat) 3) in
  get_seed_keywords (TypeManually lone_surrogate) = [lone_surrogate]
  ∧ all_finished r
  ∧ keyword_queue (app r) = []
  ∧ query_log (app r) = []
  ∧ lone_surrogate ∈ scraped_keywords (app r).
Proof.
  cbv zeta. split; [reflexivity|]. split.
  { unfold all_finished. vm_compute. repeat constructor. }
  split; [vm_compute; reflexivity|]. split; [vm_compute; reflexivity|].
  apply (bool_decide_unpack _). vm_compute. exact I.
Qed.

(** ** The cap bounds the whole run *)

Lemma run_events_engines cfg r evs :
  engine <$> workers (run_events cfg r evs) = engine <$> workers r.
Proof.
  apply (run_events_ind cfg (λ r', engine <$> workers r' = engine <$> workers r));
    [done|].
  intros r' ev Hws. destruct ev as [i|]; simpl; [|done].
  destruct (workers r' !! i) as [w|] eqn:Hw; [|done]. simpl.
  rewrite list_fmap_insert, worker_step_engine, <- Hws.
  apply list_insert_id. by rewrite list_lookup_fmap, Hw.
Qed.

Lemma total_issued_insert ws : ∀ i w w',
  ws !! i = Some w →
  total_issued (<[i := w']> ws) = total_issued ws - issued w + issued w'.
Proof.
  induction ws as [|w0 ws IH]; intros i w w' Hw; [done|].
  destruct i as [|i]; simpl in *.
  - injection Hw as ->. lia.
  - rewrite (IH i w w' Hw). lia.
Qed.

Lemma total_issued_spawn es : total_issued (spawn <$> es) = 0.
Proof. induction es as [|e es IH]; simpl in *; [done|]. unfold fmap in IH. lia. Qed.

Lemma worker_step_issued cfg s w :
  Z.of_nat (length (query_log (worker_step cfg s w).1)) - issued (worker_step cfg s w).2
  = Z.of_nat (length (query_log s)) - issued w.
Proof.
  destruct (pc w) as [| | |k|k|k l|e] eqn:Hpc.
  - unfold worker_step. rewrite Hpc. by destruct (clients cfg (engine w)).
  - unfold worker_step. rewrite Hpc. by destruct (loop_guard cfg s w).
  - unfold worker_step. rewrite Hpc. by destruct (keyword_queue s).
  - unfold worker_step. rewrite Hpc.
    by destruct (bool_decide (k ∈ scraped_keywords s)).
  - rewrite (querying_step cfg s w k Hpc).
    destruct (stdout_encodes cfg k); simpl; [|done]. rewrite length_app. simpl. lia.
  - destruct (handling_step cfg s w k l Hpc) as (s' & -> & _ & _ & Hl & _).
    simpl. by rewrite Hl.
  - by rewrite (worker_step_finished cfg s w e Hpc).
Qed.

Lemma cap_inv_issued cfg w : cap_inv cfg w → 0 ≤ issued w ≤ Z.max 0 (cap cfg).
Proof. unfold cap_inv. intros (H0 & Hle & Hpc). destruct (pc w); lia. Qed.

Lemma total_issued_bound cfg ws :
  Forall (cap_inv cfg) ws →
  total_issued ws ≤ Z.of_nat (length ws) * Z.max 0 (cap cfg).
Proof.
  induction 1 as [|w ws Hw _ IH]; simpl; [lia|].
  apply cap_inv_issued in Hw. lia.
Qed.

Lemma query_log_issued cfg input disk0 evs :
  let r := run_events cfg (start_scraping cfg input (KeywordSheeter_init disk0)) evs in
  Z.of_nat (length (query_log (app r))) = total_issued (workers r).
Proof.
  cbv zeta.
  apply (run_events_ind cfg
           (λ r, Z.of_nat (length (query_log (app r))) = total_issued (workers r))).
  - destruct (decide (get_seed_keywords input = [])) as [He|Hne].
    + unfold start_scraping. by rewrite He.
    + destruct (start_scraping_app cfg input (KeywordSheeter_init disk0) Hne)
        as (_ & _ & _ & _ & -> & ->).
      by rewrite total_issued_spawn.
  - intros r ev Hinv. destruct ev as [i|]; simpl; [|done].
    destruct (workers r !! i) as [w|] eqn:Hw; [|done]. simpl.
    rewrite (total_issued_insert _ _ _ _ Hw).
    pose proof (worker_step_issued cfg (app r) w). lia.
Qed.

Lemma query_log_issued_bound cfg input disk0 evs :
  tame cfg →
  let r := run_events cfg (start_scraping cfg input (KeywordSheeter_init disk0)) evs in
  Z.of_nat (length (query_log (app r)))
  ≤ Z.of_nat (length (selected_engines cfg))
    * Z.max 0 (max_keywords_per_engine (scraping_config cfg)).
Proof.
  intros Htame r.
  pose proof (query_log_issued cfg input disk0 evs) as Heq.
  cbv zeta in Heq. fold r in Heq. rewrite Heq.
  etrans; [by apply (total_issued_bound cfg), cap_inv_run|].
  fold (cap cfg).
  assert (length (workers r) ≤ length (selected_engines cfg))%nat as Hlen.
  { subst r.
    pose proof (f_equal length (run_events_engines cfg
      (start_scraping cfg input (KeywordSheeter_init disk0)) evs)) as Hl.
    rewrite !length_fmap in Hl. rewrite Hl.
    unfold start_scraping. destruct (get_seed_keywords input); simpl; [lia|].
    by rewrite length_fmap. }
  nia.
Qed.

(** X15: the requests of the whole run.  The queries made are the calls
    the workers have issued.  When the sources yield only strings that the
    terminal can print, each worker issues at most [max_keywords_per_engine]
    of them, and the run never makes more than the number of selected
    engines times the cap. *)
Theorem total_queries_bounded cfg input disk0 evs
    (Htame : tame cfg) :
  let r := run_events cfg (start_scraping cfg input (KeywordSheeter_init disk0)) evs in
  Z.of_nat (length (query_log (app r))) = total_issued (workers r)
  ∧ Z.of_nat (length (query_log (app r)))
    ≤ Z.of_nat (length (selected_engines cfg))
      * Z.max 0 (max_keywords_per_engine (scraping_config cfg)).
Proof.
  intros r. split.
  - apply query_log_issued.
  - by apply query_log_issued_bound.
Qed.

Lemma total_queries_witness :
  tame (setup_with [GOOGLE] (only_google unreachable_google) 2)
  ∧ Z.of_nat (length (query_log (app
      (run_events (setup_with [GOOGLE] (only_google unreachable_google) 2)
         (start_scraping (setup_with [GOOGLE] (only_google unreachable_google) 2)
            six_lines (KeywordSheeter_init []))
         (repeat (Step 0%nat) 30)))))
    ≤ 1 * 2.
Proof.
  assert (tame (setup_with [GOOGLE] (only_google unreachable_google) 2)) as Htame.
  { apply quiet_tame, unreachable_google_fails. }
  split; [exact Htame|].
  exact (proj2 (total_queries_bounded
                  (setup_with [GOOGLE] (only_google unreachable_google) 2)
                  six_lines [] (repeat (Step 0%nat) 30) Htame)).
Defined.

(** Without the condition the bound fails: one engine, a cap of one, and
    three queries. *)
Remark total_queries_unbounded :
  length (query_log (app
    (run_events numeric_setup
       (start_scraping numeric_setup (TypeManually "phone") (KeywordSheeter_init []))
       (repeat (Step 0%nat) 16)))) = 3%nat.
Proof. vm_compute. reflexivity. Qed.

(** ** The cap ends every run *)

Section CapTermination.

Variable cfg : Setup.
Hypothesis Htame : tame cfg.

Lemma capped_step s w : capped cfg w → capped cfg (worker_step cfg s w).2.
Proof using Htame.
  intros [Hcap Hlen]. split; [by apply cap_inv_step|].
  destruct (pc w) as [| | |k|k|k l|e] eqn:Hpc.
  - unfold worker_step. rewrite Hpc. by destruct (clients cfg (engine w)).
  - unfold worker_step. rewrite Hpc. by destruct (loop_guard cfg s w).
  - unfold worker_step. rewrite Hpc. by destruct (keyword_queue s).
  - unfold worker_step. rewrite Hpc.
    by destruct (bool_decide (k ∈ scraped_keywords s)).
  - rewrite (querying_step cfg s w k Hpc).
    destruct (stdout_encodes cfg k); simpl; [apply ask_length|done].
  - by destruct (handling_step cfg s w k l Hpc) as (s' & -> & _).
  - rewrite (worker_step_finished cfg s w e Hpc). simpl. by rewrite Hpc.
Qed.

Lemma worker_step_effort s w :
  capped cfg w → finished w = false →
  (5 * length (keyword_queue (worker_step cfg s w).1) + load cfg (worker_step cfg s w).2
   < 5 * length (keyword_queue s) + load cfg w)%nat.
Proof.
  intros [Hcap Hlen] Hfin. unfold finished in Hfin.
  assert (∀ s' p,
            (5 * length (keyword_queue s') + stage (goto p w)
             < 5 * length (keyword_queue s) + stage w)%nat →
            (5 * length (keyword_queue s') + load cfg (goto p w)
             < 5 * length (keyword_queue s) + load cfg w)%nat) as Hgoto.
  { intros s' p. unfold load, budget. cbn [goto scraped_count]. lia. }
  destruct (pc w) as [| | |k|k|k l|e] eqn:Hpc; [..|done].
  - unfold worker_step. rewrite Hpc.
    destruct (clients cfg (engine w)); cbn [fst snd]; apply Hgoto;
      unfold stage; rewrite Hpc; cbn [goto pc logger_error keyword_queue]; lia.
  - unfold worker_step. rewrite Hpc.
    destruct (loop_guard cfg s w); cbn [fst snd]; apply Hgoto;
      unfold stage; rewrite Hpc; cbn [goto pc]; lia.
  - unfold worker_step. rewrite Hpc.
    destruct (keyword_queue s) as [|k q] eqn:Hq; cbn [fst snd]; apply Hgoto;
      unfold stage; rewrite Hpc; cbn [goto pc set_queue keyword_queue length];
      rewrite ?Hq; cbn [length]; lia.
  - unfold worker_step. rewrite Hpc.
    destruct (bool_decide (k ∈ scraped_keywords s)); cbn [fst snd]; apply Hgoto;
      unfold stage; rewrite Hpc; cbn [goto pc set_scraped keyword_queue]; lia.
  - rewrite (querying_step cfg s w k Hpc).
    destruct (stdout_encodes cfg k); cbn [fst snd];
      unfold load, budget, stage; rewrite Hpc;
      cbn [after_query after_print_failure pc scraped_count note_query logger_error
           keyword_queue]; lia.
  - destruct (handling_step cfg s w k l Hpc) as (s' & -> & _ & _ & _ & Hq & _).
    cbn [fst snd]. unfold load, budget, stage. rewrite Hpc.
    unfold cap_inv in Hcap. rewrite Hpc in Hcap.
    destruct Hcap as (H0 & _ & _ & Hlt & Hprint).
    cbn [after_handling pc scraped_count].
    rewrite (completes_printable _ _ _ Hprint), Hq, length_app.
    pose proof (queued_by_length cfg (scraped_keywords s) l) as Hfl.
    lia.
Qed.

Lemma sum_load_insert ws : ∀ i w w',
  ws !! i = Some w →
  (sum_list (load cfg <$> <[i := w']> ws) + load cfg w
   = sum_list (load cfg <$> ws) + load cfg w')%nat.
Proof.
  induction ws as [|w0 ws IH]; intros i w w' Hw; [done|].
  destruct i as [|i]; simpl in *.
  - injection Hw as ->. lia.
  - specialize (IH i w w' Hw). unfold fmap in IH. lia.
Qed.

Lemma effort_decreases r i :
  Forall (capped cfg) (workers r) → live r i →
  (effort cfg (run_event cfg r (Step i)) < effort cfg r)%nat
  ∧ Forall (capped cfg) (workers (run_event cfg r (Step i))).
Proof using Htame.
  intros Hws (w & Hw & Hfin).
  pose proof (Forall_lookup_1 _ _ _ _ Hws Hw) as Hcw.
  pose proof (worker_step_effort (app r) w Hcw Hfin) as Hlt.
  unfold effort. simpl. rewrite Hw. simpl.
  pose proof (sum_load_insert (workers r) i w (worker_step cfg (app r) w).2 Hw).
  split; [lia|]. apply Forall_insert; [done|]. by apply capped_step.
Qed.

Lemma effective_within_effort evs : ∀ r,
  Forall (capped cfg) (workers r) → effective cfg r evs →
  (steps_in evs + effort cfg (run_events cfg r evs) ≤ effort cfg r)%nat.
Proof using Htame.
  induction evs as [|ev evs IH]; intros r Hws Heff.
  - unfold steps_in. simpl. lia.
  - destruct Heff as [Hlive Heff].
    change (run_events cfg r (ev :: evs))
      with (run_events cfg (run_event cfg r ev) evs).
    unfold steps_in in *. rewrite filter_cons.
    destruct ev as [i|].
    + destruct (effort_decreases r i Hws Hlive) as [Hlt Hws'].
      specialize (IH _ Hws' Heff). simpl in *. lia.
    + specialize (IH (run_event cfg r Interrupt) Hws Heff).
      assert (effort cfg (run_event cfg r Interrupt) = effort cfg r) as Hw by done.
      simpl in *. lia.
Qed.

Lemma effort_can_complete : ∀ n r,
  Forall (capped cfg) (workers r) → (effort cfg r ≤ n)%nat →
  ∃ evs, effective cfg r evs ∧ all_finished (run_events cfg r evs).
Proof using Htame.
  induction n as [|n IH]; intros r Hws Hn.
  - destruct (finished_or_live r) as [Hall|[i Hlive]].
    + by exists [].
    + destruct (effort_decreases r i Hws Hlive) as [Hlt _]. lia.
  - destruct (finished_or_live r) as [Hall|[i Hlive]].
    + by exists [].
    + destruct (effort_decreases r i Hws Hlive) as [Hlt Hws'].
      destruct (IH (run_event cfg r (Step i)) Hws') as (evs & Heff & Hall); [lia|].
      exists (Step i :: evs). simpl. done.
Qed.

Lemma spawn_load es :
  sum_list (load cfg <$> (spawn <$> es))
  = (length es * (3 + 100 * Z.to_nat (cap cfg)))%nat.
Proof.
  induction es as [|e es IH]; simpl in *; [done|]. unfold fmap in IH.
  rewrite IH. unfold load, budget, stage. simpl. rewrite Z.sub_0_r. lia.
Qed.

Lemma start_scraping_capped input s :
  Forall (capped cfg) (workers (start_scraping cfg input s)).
Proof.
  eapply Forall_impl; [apply start_scraping_workers|].
  intros w (Hpc & Hc & Hf & Hi). unfold capped, cap_inv. rewrite Hpc, Hc, Hi.
  split; [|done]. lia.
Qed.

(** X16: the cap ends every run whose sources yield only strings that the
    terminal can print.  The actions the workers can still take are bounded
    by a quantity that every action lowers: five for each keyword on the
    queue, and for each worker its distance to the loop test plus a hundred
    for each iteration the cap still allows.  So from the start no schedule
    holds more worker actions than five per seed plus, for each engine,
    three and a hundred times the cap; and every run can be brought to the
    point where all workers have returned. *)
Theorem cap_ends_every_run input disk0 :
  let r0 := start_scraping cfg input (KeywordSheeter_init disk0) in
  (effort cfg r0
   ≤ 5 * length (get_seed_keywords input)
     + length (selected_engines cfg)
       * (3 + 100 * Z.to_nat (max_keywords_per_engine (scraping_config cfg))))%nat
  ∧ (∀ evs, effective cfg r0 evs → (steps_in evs ≤ effort cfg r0)%nat)
  ∧ ∃ evs, effective cfg r0 evs ∧ all_finished (run_events cfg r0 evs).
Proof using Htame.
  intros r0.
  pose proof (start_scraping_capped input (KeywordSheeter_init disk0)) as Hws.
  fold r0 in Hws. split; [|split].
  - subst r0. unfold effort.
    destruct (decide (get_seed_keywords input = [])) as [He|Hne].
    + unfold start_scraping. rewrite He. simpl. lia.
    + destruct (start_scraping_app cfg input (KeywordSheeter_init disk0) Hne)
        as (-> & _ & _ & _ & _ & ->).
      rewrite spawn_load. simpl. unfold cap. lia.
  - intros evs Heff. pose proof (effective_within_effort evs r0 Hws Heff). lia.
  - by apply (effort_can_complete (effort cfg r0)).
Qed.

End CapTermination.

Lemma cap_ends_witness :
  tame (setup_with [GOOGLE] (only_google unreachable_google) 2)
  ∧ (effort (setup_with [GOOGLE] (only_google unreachable_google) 2)
       (start_scraping (setup_with [GOOGLE] (only_google unreachable_google) 2)
          six_lines (KeywordSheeter_init []))
     ≤ 5 * 6 + 1 * (3 + 100 * 2))%nat.
Proof.
  assert (tame (setup_with [GOOGLE] (only_google unreachable_google) 2)) as Htame.
  { apply quiet_tame, unreachable_google_fails. }
  split; [exact Htame|].
  exact (proj1 (cap_ends_every_run
                  (setup_with [GOOGLE] (only_google unreachable_google) 2)
                  Htame six_lines [])).
Defined.

(* ===================================================================== *)
(** * Further properties of the clients *)
(* ===================================================================== *)

Lemma fetch_and_pick_elem {B} (net : Upstream B) pick limit keyword x :
  x ∈ (SearchEngineClient.fetch_and_pick net pick limit keyword).1 →
  ∃ d, net (Text.strip keyword) = Decoded d ∧ x ∈ pick keyword d.
Proof.
  unfold SearchEngineClient.fetch_and_pick.
  destruct (SearchEngineClient._validate_keyword keyword); cbn [negb fst];
    [|by intros ?%not_elem_of_nil].
  destruct (net (Text.strip keyword)) as [| | |d]; cbn [fst];
    try by intros ?%not_elem_of_nil.
  unfold Text.slice_to. intros Hx%subseteq_take. by exists d.
Qed.

Lemma fetch_and_pick_texts {B} (net : Upstream B) pick limit keyword :
  Forall (λ v, ∃ x, v = Str x)
    (SearchEngineClient.fetch_and_pick net (SearchEngineClient.texts pick)
       limit keyword).1.
Proof.
  apply Forall_forall. intros v (d & _ & Hv)%fetch_and_pick_elem.
  unfold SearchEngineClient.texts in Hv.
  apply list_elem_of_fmap in Hv as (x & -> & _). by exists x.
Qed.

(** X17: what [get_suggestions] yields, for each of the seven clients.  It
    returns at most twenty suggestions, at most ten for eBay; it returns
    some only for a keyword that passes [_validate_keyword] and from an
    exchange that ended in a decoded payload; and what Google, YouTube and
    eBay return are strings, while the other four clients hand on whatever
    the payload holds. *)
Theorem get_suggestions_bounded_answer (c : Client) (keyword : string) :
  (length (SearchEngineClient.get_suggestions c keyword)
   ≤ match c with EbayClient _ => 10 | _ => 20 end)%nat
  ∧ (SearchEngineClient.get_suggestions c keyword ≠ [] →
     SearchEngineClient._validate_keyword keyword = true
     ∧ ¬ reply_failed c (Text.strip keyword))
  ∧ match c with
    | GoogleClient _ | YouTubeClient _ | EbayClient _ =>
        Forall (λ v, ∃ x, v = Str x) (SearchEngineClient.get_suggestions c keyword)
    | _ => True
    end.
Proof.
  split; [|split].
  - unfold SearchEngineClient.get_suggestions.
    destruct c; simpl; apply fetch_and_pick_length.
  - intros Hne. split.
    + destruct (SearchEngineClient._validate_keyword keyword) eqn:Hv; [done|].
      destruct Hne. unfold SearchEngineClient.get_suggestions.
      destruct c; simpl; unfold SearchEngineClient.fetch_and_pick; by rewrite Hv.
    + intros Hfail. by apply Hne, get_suggestions_failed.
  - unfold SearchEngineClient.get_suggestions.
    destruct c; simpl; try done; apply fetch_and_pick_texts.
Qed.

(** The other clients do hand on a value that is no string. *)
Remark amazon_hands_on_a_number :
  SearchEngineClient.get_suggestions numeric_amazon "phone"
  = [Str "phone case"; NotStr].
Proof. reflexivity. Qed.

Lemma drop_tags_tagless m : tagless m → SearchEngineClient.drop_tags None m = m.
Proof.
  unfold tagless. induction m as [|c m IH]; [done|]. simpl.
  intros Hm. apply not_elem_of_cons in Hm as [Hc Hm].
  destruct (Ascii.eqb c "<") eqn:Heq.
  - apply Ascii.eqb_eq in Heq. by subst c.
  - by rewrite IH.
Qed.

Lemma ebay_pick_cons keyword m ms :
  SearchEngineClient.ebay_pick keyword {| matches := m :: ms |} =
  if Text.falsy (Text.strip (SearchEngineClient.drop_tags None m))
  then SearchEngineClient.ebay_pick keyword {| matches := ms |}
  else if Text.eqb (Text.strip (SearchEngineClient.drop_tags None m)) keyword
       then SearchEngineClient.ebay_pick keyword {| matches := ms |}
       else Text.strip (SearchEngineClient.drop_tags None m)
            :: SearchEngineClient.ebay_pick keyword {| matches := ms |}.
Proof.
  unfold SearchEngineClient.ebay_pick. simpl.
  destruct (Text.falsy _); [done|]. by destruct (Text.eqb _ keyword).
Qed.

(** X18: eBay's suggestions.  The pattern captures [[^<]+], so a match
    holds no tag and the tag removal leaves it as it is: a suggestion is a
    trimmed match, and the matches that are blank or trim to the keyword are
    dropped.  Alone among the seven clients, eBay's returns only trimmed,
    non-empty strings. *)
Theorem ebay_suggestions_are_trimmed_matches net keyword :
  Forall (λ v, ∃ x, v = Str x ∧ Text.strip x = x ∧ x ≠ EmptyString ∧ x ≠ keyword)
         (SearchEngineClient.get_suggestions (EbayClient net) keyword)
  ∧ ∀ p, Forall tagless (matches p) →
         SearchEngineClient.ebay_pick keyword p =
         filter (λ x, x ≠ EmptyString ∧ x ≠ keyword) (Text.strip <$> matches p).
Proof.
  split.
  - apply Forall_forall. intros v Hv.
    apply (fetch_and_pick_elem net
             (SearchEngineClient.texts SearchEngineClient.ebay_pick) 10%nat) in Hv
      as (p & _ & Hv).
    unfold SearchEngineClient.texts in Hv.
    apply list_elem_of_fmap in Hv as (x & -> & Hx). exists x. split; [done|].
    unfold SearchEngineClient.ebay_pick in Hx.
    apply list_elem_of_omap in Hx as (m & _ & Hm). cbv zeta in Hm.
    destruct (Text.falsy _) eqn:Hf; [done|].
    destruct (Text.eqb _ keyword) eqn:He; [done|]. injection Hm as <-.
    split; [apply strip_idem|]. split.
    + intros H. by rewrite H in Hf.
    + by apply eqb_neq.
  - intros [ms] Hp. cbn [matches] in *.
    induction Hp as [|m ms Hm _ IH]; [done|].
    rewrite fmap_cons, ebay_pick_cons, (drop_tags_tagless m Hm), IH.
    destruct (Text.falsy (Text.strip m)) eqn:Hf.
    + apply falsy_spec in Hf. rewrite filter_cons_False; [done|]. intros [H _]. done.
    + destruct (Text.eqb (Text.strip m) keyword) eqn:He.
      * apply eqb_spec in He. rewrite filter_cons_False; [done|]. intros [_ H]. done.
      * apply eqb_neq in He. rewrite filter_cons_True; [done|]. split; [|done].
        intros H. by rewrite H in Hf.
Qed.

(** A page as the pattern delivers it. *)
Remark ebay_page_picked :
  Forall tagless (matches ebay_page)
  ∧ SearchEngineClient.ebay_pick "camera" ebay_page = ["vintage camera"].
Proof.
  split; [|reflexivity]. repeat constructor.
  unfold tagless. vm_compute. intros H. repeat (inversion H as [|? ? ? H']; clear H; rename H' into H).
Qed.

(* ===================================================================== *)
(** * Properties of the proxy rotation *)
(* ===================================================================== *)

Lemma py_index_Some {A} (l : list A) i x :
  py_index l i = Some x →
  x ∈ l ∧ - Z.of_nat (length l) ≤ i < Z.of_nat (length l).
Proof.
  unfold py_index. cbv zeta.
  destruct ((0 <=? i) && (i <? Z.of_nat (length l))) eqn:H1.
  - intros Hx. split; [by eapply list_elem_of_lookup_2|]. lia.
  - destruct ((- Z.of_nat (length l) <=? i) && (i <? 0)) eqn:H2; [|done].
    intros Hx. split; [by eapply list_elem_of_lookup_2|]. lia.
Qed.

Lemma py_index_None {A} (l : list A) i :
  py_index l i = None → ¬ (- Z.of_nat (length l) ≤ i < Z.of_nat (length l)).
Proof.
  unfold py_index. cbv zeta.
  destruct ((0 <=? i) && (i <? Z.of_nat (length l))) eqn:H1.
  - intros Hx. apply lookup_ge_None in Hx. lia.
  - destruct ((- Z.of_nat (length l) <=? i) && (i <? 0)) eqn:H2; [|lia].
    intros Hx. apply lookup_ge_None in Hx. lia.
Qed.

(** X19: the cursor of [get_next_proxy].  With an empty list the call
    returns [None] and changes nothing.  Otherwise it raises [IndexError]
    exactly when the cursor lies outside the list, counting Python's
    negative indices as inside; and whenever it returns, it returns a member
    of the list and leaves the cursor at a valid non-negative index, with
    everything else as it was.  So a configuration whose cursor starts inside
    the list never raises, however often it is asked. *)
Theorem get_next_proxy_cursor (c : ProxyConfig) :
  match ProxyConfig.get_next_proxy c with
  | ProxyConfig.IndexError =>
      proxies c ≠ []
      ∧ ¬ (- Z.of_nat (length (proxies c)) ≤ current_proxy_index c
           < Z.of_nat (length (proxies c)))
  | ProxyConfig.Gives None c' => proxies c = [] ∧ c' = c
  | ProxyConfig.Gives (Some proxy) c' =>
      proxy ∈ proxies c
      ∧ - Z.of_nat (length (proxies c)) ≤ current_proxy_index c
        < Z.of_nat (length (proxies c))
      ∧ cursor_valid c'
      ∧ proxies c' = proxies c ∧ enabled c' = enabled c
      ∧ proxy_type c' = proxy_type c
  end.
Proof.
  unfold ProxyConfig.get_next_proxy.
  destruct (proxies c) as [|p0 ps] eqn:Hps; [done|]. rewrite <- Hps.
  destruct (py_index (proxies c) (current_proxy_index c)) as [proxy|] eqn:Hidx.
  - apply py_index_Some in Hidx as [Hin Hr].
    split; [done|]. split; [done|]. split; [|done].
    unfold cursor_valid. simpl. apply Z.mod_pos_bound. rewrite Hps. simpl. lia.
  - apply py_index_None in Hidx. split; [|done]. by rewrite Hps.
Qed.

Lemma set_index_same c : ProxyConfig.set_index (current_proxy_index c) c = c.
Proof. by destruct c. Qed.

Lemma get_next_proxy_at c i proxy :
  current_proxy_index c = Z.of_nat i → proxies c !! i = Some proxy →
  ProxyConfig.get_next_proxy c =
  ProxyConfig.Gives (Some proxy)
    (ProxyConfig.set_index (Z.of_nat (i + 1) `mod` Z.of_nat (length (proxies c))) c).
Proof.
  intros Hi Hp. pose proof (lookup_lt_Some _ _ _ Hp) as Hlt.
  unfold ProxyConfig.get_next_proxy.
  destruct (proxies c) as [|p0 ps] eqn:Hps; [done|]. rewrite <- Hps in Hp, Hlt |- *.
  unfold py_index. cbv zeta. rewrite Hi.
  assert ((0 <=? Z.of_nat i) && (Z.of_nat i <? Z.of_nat (length (proxies c))) = true)
    as -> by lia.
  rewrite Nat2Z.id, Hp. do 3 f_equal. lia.
Qed.

Lemma successive_proxies_take k : ∀ c i,
  current_proxy_index c = Z.of_nat i →
  (i < length (proxies c))%nat → (i + k ≤ length (proxies c))%nat →
  successive_proxies k c =
  ProxyConfig.Gives (Some <$> take k (drop i (proxies c)))
    (ProxyConfig.set_index (Z.of_nat (i + k) `mod` Z.of_nat (length (proxies c))) c).
Proof.
  induction k as [|k IH]; intros c i Hi Hlt Hle.
  - simpl. rewrite Nat.add_0_r, Z.mod_small by lia. by rewrite <- Hi, set_index_same.
  - destruct (lookup_lt_is_Some_2 (proxies c) i Hlt) as [proxy Hp].
    cbn [successive_proxies]. rewrite (get_next_proxy_at c i proxy Hi Hp).
    rewrite (drop_S _ _ _ Hp). cbn [take fmap list_fmap].
    destruct (decide (i + 1 < length (proxies c))%nat) as [Hin|Hout].
    + rewrite (IH _ (i + 1)%nat); cbn [ProxyConfig.set_index proxies current_proxy_index].
      * replace (i + 1 + k)%nat with (i + S k)%nat by lia.
        by replace (S i) with (i + 1)%nat by lia.
      * apply Z.mod_small. lia.
      * done.
      * lia.
    + assert (k = 0%nat) as -> by lia.
      cbn [successive_proxies take fmap list_fmap]. done.
Qed.

Lemma successive_proxies_add a b c :
  successive_proxies (a + b) c =
  match successive_proxies a c with
  | ProxyConfig.IndexError => ProxyConfig.IndexError
  | ProxyConfig.Gives l c' =>
      match successive_proxies b c' with
      | ProxyConfig.IndexError => ProxyConfig.IndexError
      | ProxyConfig.Gives l' c'' => ProxyConfig.Gives (l ++ l') c''
      end
  end.
Proof.
  revert c. induction a as [|a IH]; intros c; simpl.
  - by destruct (successive_proxies b c).
  - destruct (ProxyConfig.get_next_proxy c) as [proxy c'|]; [|done].
    rewrite IH. destruct (successive_proxies a c') as [l c''|]; [|done].
    by destruct (successive_proxies b c'').
Qed.

(** X20: the rotation is a round robin.  From a cursor inside the list, as
    many calls as there are proxies hand out every proxy exactly once, in
    list order starting at the cursor and wrapping around, and leave the
    configuration as it was. *)
Theorem proxies_served_round_robin (c : ProxyConfig) (Hc : cursor_valid c) :
  successive_proxies (length (proxies c)) c =
  ProxyConfig.Gives
    (Some <$> (drop (Z.to_nat (current_proxy_index c)) (proxies c)
               ++ take (Z.to_nat (current_proxy_index c)) (proxies c)))
    c.
Proof.
  unfold cursor_valid in Hc.
  set (i := Z.to_nat (current_proxy_index c)).
  assert (current_proxy_index c = Z.of_nat i) as Hi by (subst i; lia).
  assert (i < length (proxies c))%nat as Hlt by lia.
  replace (length (proxies c)) with ((length (proxies c) - i) + i)%nat at 1 by lia.
  rewrite successive_proxies_add.
  rewrite (successive_proxies_take _ c i Hi Hlt) by lia.
  replace (i + (length (proxies c) - i))%nat with (length (proxies c)) by lia.
  rewrite Z_mod_same_full.
  rewrite (successive_proxies_take i _ 0%nat); cbn [ProxyConfig.set_index proxies
    current_proxy_index]; [|done|lia|lia].
  rewrite drop_0, Nat.add_0_l, Z.mod_small, <- Hi by lia.
  rewrite take_ge by (rewrite length_drop; lia).
  rewrite fmap_app. f_equal. by destruct c.
Qed.

Lemma round_robin_witness :
  cursor_valid three_proxies
  ∧ successive_proxies 3 three_proxies =
    ProxyConfig.Gives
      [Some "10.0.0.2:1080"; Some "10.0.0.3:1080"; Some "10.0.0.1:1080"]
      three_proxies.
Proof.
  assert (cursor_valid three_proxies) as Hc.
  { unfold cursor_valid, three_proxies. simpl. lia. }
  split; [exact Hc|].
  exact (proxies_served_round_robin three_proxies Hc).
Defined.

(** X21: with proxies on, no request of a clearnet engine goes out
    directly.  For a configuration that is ready, [_get_proxies] of any
    client that does not go through Tor returns the proxy under the cursor,
    for both schemes and with the prefix of the proxy type, moves the
    cursor one step around the list, and leaves the configuration ready for
    the next request. *)
Theorem ready_proxies_cover_every_request e tor c
    (Hready : ready c)
    (Hclear : e ≠ DUCKDUCKGO_TOR ∨ tor = None) :
  ∃ proxy c',
    proxies c !! Z.to_nat (current_proxy_index c) = Some proxy
    ∧ _get_proxies e tor c =
      ProxyConfig.Gives
        (Some {[ "http" := endpoint c proxy; "https" := endpoint c proxy ]}) c'
    ∧ current_proxy_index c' =
      (current_proxy_index c + 1) `mod` Z.of_nat (length (proxies c))
    ∧ proxies c' = proxies c
    ∧ ready c'.
Proof.
  destruct Hready as (Hen & [pt Hpt] & Hcur & Hne).
  pose proof Hcur as Hcur'. unfold cursor_valid in Hcur'.
  destruct (lookup_lt_is_Some_2 (proxies c) (Z.to_nat (current_proxy_index c)))
    as [proxy Hp]; [lia|].
  assert (current_proxy_index c = Z.of_nat (Z.to_nat (current_proxy_index c)))
    as Hi by lia.
  exists proxy. eexists. split; [done|].
  assert (_get_proxies e tor c =
          if negb (enabled c) then ProxyConfig.Gives None c
          else
            match ProxyConfig.get_next_proxy c with
            | ProxyConfig.IndexError => ProxyConfig.IndexError
            | ProxyConfig.Gives None c' => ProxyConfig.Gives None c'
            | ProxyConfig.Gives (Some proxy) c' =>
                if Text.falsy proxy then ProxyConfig.Gives None c'
                else
                  match proxy_type c' with
                  | Some HTTPS =>
                      ProxyConfig.Gives (Some {[ "http" := proxy; "https" := proxy ]}) c'
                  | Some SOCKS5 =>
                      ProxyConfig.Gives
                        (Some {[ "http" := "socks5://" +:+ proxy;
                                 "https" := "socks5://" +:+ proxy ]}) c'
                  | None => ProxyConfig.Gives None c'
                  end
            end) as ->.
  { unfold _get_proxies. destruct Hclear as [He| ->].
    - by rewrite bool_decide_eq_false_2.
    - by destruct (bool_decide (e = DUCKDUCKGO_TOR)). }
  rewrite Hen. cbn [negb].
  rewrite (get_next_proxy_at c _ proxy Hi Hp).
  assert (Text.falsy proxy = false) as ->.
  { rewrite Forall_forall in Hne.
    destruct (Text.falsy proxy) eqn:Hf; [|done].
    apply falsy_spec in Hf. by destruct (Hne proxy (list_elem_of_lookup_2 _ _ _ Hp)). }
  cbn [ProxyConfig.set_index proxy_type]. unfold endpoint. rewrite Hpt.
  assert (Z.of_nat (Z.to_nat (current_proxy_index c) + 1) = current_proxy_index c + 1)
    as -> by lia.
  split; [by destruct pt|]. split; [done|]. split; [done|].
  unfold ready, cursor_valid. simpl. rewrite Hen, Hpt.
  split; [done|]. split; [by eexists|]. split; [|done].
  apply Z.mod_pos_bound. lia.
Qed.

Lemma ready_proxies_witness :
  ready three_proxies
  ∧ (GOOGLE ≠ DUCKDUCKGO_TOR ∨ (None : option TorManager) = None)
  ∧ ∃ proxy c',
      proxies three_proxies !! Z.to_nat (current_proxy_index three_proxies) = Some proxy
      ∧ _get_proxies GOOGLE None three_proxies =
        ProxyConfig.Gives
          (Some {[ "http" := endpoint three_proxies proxy;
                   "https" := endpoint three_proxies proxy ]}) c'
      ∧ current_proxy_index c' =
        (current_proxy_index three_proxies + 1)
          `mod` Z.of_nat (length (proxies three_proxies))
      ∧ proxies c' = proxies three_proxies
      ∧ ready c'.
Proof.
  assert (ready three_proxies) as Hready.
  { unfold ready, cursor_valid, three_proxies. simpl.
    split; [reflexivity|]. split; [by eexists|]. split; [lia|].
    repeat constructor; discriminate. }
  assert (GOOGLE ≠ DUCKDUCKGO_TOR ∨ (None : option TorManager) = None) as Hclear.
  { by right. }
  split; [exact Hready|]. split; [exact Hclear|].
  exact (ready_proxies_cover_every_request GOOGLE None three_proxies Hready Hclear).
Defined.

(* ===================================================================== *)
(** * Properties of the set-up *)
(* ===================================================================== *)

(** ** The engines *)

Lemma offered_spec stem :
  offered stem = engine_value <$> (if stem then all_engines else without_tor all_engines).
Proof. destruct stem; vm_compute; reflexivity. Qed.

Lemma all_engines_NoDup : NoDup all_engines.
Proof. apply (bool_decide_unpack _). vm_compute. exact I. Qed.

Lemma elem_of_all_engines e : e ∈ all_engines.
Proof. unfold all_engines. destruct e; set_solver. Qed.

(** X22: the selection.  The checkbox returns some of the choices it
    showed; if any is ticked, [_select_search_engines] goes on with a
    non-empty list of distinct engines, in the order of the enumeration,
    which holds exactly the engines whose names were ticked: nothing ticked
    is lost, nothing else is added.  The Tor engine can be among them only
    if the stem library is there.  The other settings are not touched. *)
Theorem selection_is_what_was_ticked stem sel self
    (Hsel : sel ⊆ offered stem)
    (Hne : sel ≠ []) :
  ∃ self',
    _select_search_engines (Answered (Some sel)) self = Completed self'
    ∧ selected_engines (setup self') ≠ []
    ∧ NoDup (selected_engines (setup self'))
    ∧ selected_engines (setup self') `sublist_of` all_engines
    ∧ (∀ choice, choice ∈ sel ↔
         ∃ e, e ∈ selected_engines (setup self') ∧ engine_value e = choice)
    ∧ (DUCKDUCKGO_TOR ∈ selected_engines (setup self') → stem = true)
    ∧ proxy_config self' = proxy_config self
    ∧ tor_manager self' = tor_manager self
    ∧ scraping_config (setup self') = scraping_config (setup self).
Proof.
  exists (with_engines (filter (λ engine, engine_value engine ∈ sel) all_engines) self).
  split; [by destruct sel|]. cbn [with_engines setup selected_engines].
  assert (∀ choice, choice ∈ sel ↔
            ∃ e, e ∈ filter (λ engine, engine_value engine ∈ sel) all_engines
                 ∧ engine_value e = choice) as Hiff.
  { intros choice. split.
    - intros Hin. pose proof (Hsel _ Hin) as Hoff. rewrite offered_spec in Hoff.
      apply list_elem_of_fmap in Hoff as (e & -> & _). exists e. split; [|done].
      apply list_elem_of_filter. split; [done|apply elem_of_all_engines].
    - intros (e & [He _]%list_elem_of_filter & <-). done. }
  split.
  { destruct sel as [|x sel']; [done|].
    destruct (proj1 (Hiff x)) as (e & He & _); [by left|].
    intros Hnil. rewrite Hnil in He. by apply not_elem_of_nil in He. }
  split; [apply NoDup_filter, all_engines_NoDup|].
  split; [apply sublist_filter|]. split; [exact Hiff|].
  split; [|done].
  intros [Htor _]%list_elem_of_filter. destruct stem; [done|]. exfalso.
  apply Hsel in Htor. revert Htor. apply (bool_decide_unpack _). vm_compute. exact I.
Qed.

Lemma selection_witness :
  ["Google"; "Bing"] ⊆ offered false
  ∧ ["Google"; "Bing"] ≠ []
  ∧ ∃ self',
      _select_search_engines (Answered (Some ["Google"; "Bing"]))
        (Settings_init plain_tty)
      = Completed self'
      ∧ selected_engines (setup self') ≠ []
      ∧ NoDup (selected_engines (setup self'))
      ∧ selected_engines (setup self') `sublist_of` all_engines
      ∧ (∀ choice, choice ∈ ["Google"; "Bing"] ↔
           ∃ e, e ∈ selected_engines (setup self') ∧ engine_value e = choice)
      ∧ (DUCKDUCKGO_TOR ∈ selected_engines (setup self') → false = true)
      ∧ proxy_config self' = proxy_config (Settings_init plain_tty)
      ∧ tor_manager self' = tor_manager (Settings_init plain_tty)
      ∧ scraping_config (setup self') = scraping_config (setup (Settings_init plain_tty)).
Proof.
  assert (["Google"; "Bing"] ⊆ offered false) as Hsel.
  { apply (bool_decide_unpack _). vm_compute. exact I. }
  assert (["Google"; "Bing"] ≠ []) as Hne by discriminate.
  split; [exact Hsel|]. split; [exact Hne|].
  exact (selection_is_what_was_ticked false ["Google"; "Bing"]
           (Settings_init plain_tty) Hsel Hne).
Defined.

(** ** The proxies and Tor *)

Lemma ask_proxies_spec up pt pf self self' :
  proxy_config self = ProxyConfig_default →
  ask_proxies up pt pf self = Completed self' →
  setup self' = setup self ∧ tor_manager self' = tor_manager self
  ∧ ProxyConfig.validate (proxy_config self') = true
  ∧ (enabled (proxy_config self') = true →
     ready (proxy_config self')
     ∧ Forall (λ proxy, Text.strip proxy = proxy) (proxies (proxy_config self'))).
Proof.
  intros Hdef. unfold ask_proxies. rewrite Hdef.
  destruct up as [|[[|]|]];
    try (intros [= <-]; rewrite Hdef; repeat split; done).
  destruct pt as [|t]; [done|].
  destruct (t ≫= ProxyType_of) as [ptype|]; [|done].
  destruct pf as [|[[| |lines]|]];
    try (intros [= <-]; repeat split; done).
  destruct (stripped_nonblank lines) as [|proxy loaded] eqn:Hl;
    intros [= <-]; [repeat split; done|].
  cbn [with_proxy_config setup tor_manager proxy_config].
  split; [done|]. split; [done|]. split; [done|]. intros _.
  assert (∀ k, k ∈ proxy :: loaded → Text.strip k = k ∧ k ≠ EmptyString) as Hspec.
  { intros k Hk. rewrite <- Hl in Hk. by apply stripped_nonblank_spec in Hk. }
  split.
  - unfold ready, cursor_valid. simpl.
    split; [done|]. split; [by eexists|]. split; [lia|].
    apply Forall_forall. intros k Hk. by apply Hspec.
  - apply Forall_forall. intros k Hk. by apply Hspec.
Qed.

Lemma require_tor_keeps stem tc self :
  proxy_config (require_tor stem tc self) = proxy_config self
  ∧ scraping_config (setup (require_tor stem tc self)) = scraping_config (setup self)
  ∧ clients (setup (require_tor stem tc self)) = clients (setup self)
  ∧ output_file (setup (require_tor stem tc self)) = output_file (setup self)
  ∧ (selected_engines (setup (require_tor stem tc self)) = selected_engines (setup self)
     ∨ selected_engines (setup (require_tor stem tc self))
       = without_tor (selected_engines (setup self))).
Proof.
  unfold require_tor.
  destruct (bool_decide (DUCKDUCKGO_TOR ∈ selected_engines (setup self))); [|by auto 10].
  destruct stem; simpl; [|by auto 10].
  destruct tc; simpl; auto 10.
Qed.

Lemma not_elem_of_without_tor es : DUCKDUCKGO_TOR ∉ without_tor es.
Proof. unfold without_tor. by intros [? _]%list_elem_of_filter. Qed.

(** X23: the proxy settings the menu can leave behind.  Starting from the
    default [ProxyConfig()] of [__init__] and whatever is answered, if
    [_configure_proxy_settings] completes then the proxy configuration
    passes [ProxyConfig.validate]; and if it leaves proxies
    on, there is a proxy type, the list holds at least one entry, every entry
    is trimmed and not empty, and the cursor points at the first: every
    request will find a proxy. *)
Theorem configured_proxies_validate stem up pt pf tc self self'
    (Hdef : proxy_config self = ProxyConfig_default)
    (Hdone : _configure_proxy_settings stem up pt pf tc self = Completed self') :
  ProxyConfig.validate (proxy_config self') = true
  ∧ (enabled (proxy_config self') = true →
     ready (proxy_config self')
     ∧ Forall (λ proxy, Text.strip proxy = proxy) (proxies (proxy_config self'))).
Proof.
  unfold _configure_proxy_settings in Hdone.
  destruct (ask_proxies up pt pf self) as [| |self1] eqn:Hask; try done.
  simpl in Hdone. injection Hdone as <-.
  destruct (ask_proxies_spec up pt pf self self1 Hdef Hask) as (_ & _ & Hv & Hr).
  destruct (require_tor_keeps stem tc self1) as (-> & _). done.
Qed.

Lemma configured_proxies_witness :
  proxy_config (Settings_init plain_tty) = ProxyConfig_default
  ∧ _configure_proxy_settings false (Answered (Some true)) (Answered (Some "SOCKS5"))
      (Answered (Some (Content [" 10.0.0.1:1080 " +:+ newline; newline]))) false
      (Settings_init plain_tty)
    = Completed
        (with_proxy_config
           {| enabled := true; proxy_type := Some SOCKS5;
              proxies := ["10.0.0.1:1080"]; current_proxy_index := 0 |}
           (Settings_init plain_tty))
  ∧ ProxyConfig.validate
      (proxy_config
         (with_proxy_config
            {| enabled := true; proxy_type := Some SOCKS5;
               proxies := ["10.0.0.1:1080"]; current_proxy_index := 0 |}
            (Settings_init plain_tty))) = true.
Proof.
  assert (proxy_config (Settings_init plain_tty) = ProxyConfig_default) as Hdef
    by reflexivity.
  assert (_configure_proxy_settings false (Answered (Some true)) (Answered (Some "SOCKS5"))
            (Answered (Some (Content [" 10.0.0.1:1080 " +:+ newline; newline]))) false
            (Settings_init plain_tty)
          = Completed
              (with_proxy_config
                 {| enabled := true; proxy_type := Some SOCKS5;
                    proxies := ["10.0.0.1:1080"]; current_proxy_index := 0 |}
                 (Settings_init plain_tty))) as Hdone.
  { vm_compute. reflexivity. }
  split; [exact Hdef|]. split; [exact Hdone|].
  exact (proj1 (configured_proxies_validate false (Answered (Some true))
                  (Answered (Some "SOCKS5"))
                  (Answered (Some (Content [" 10.0.0.1:1080 " +:+ newline; newline])))
                  false (Settings_init plain_tty) _ Hdef Hdone)).
Defined.

(** X24: the Tor engine never leaves Tor.  If the Tor engine is still
    selected when [_configure_proxy_settings] completes, then the stem
    library is there, the Tor manager has connected, and every request of
    that engine's client goes to the local Tor SOCKS port, for both schemes,
    without consuming a proxy of the list, whatever the proxy settings
    are. *)
Theorem tor_engine_only_through_tor stem up pt pf tc self self'
    (Hdone : _configure_proxy_settings stem up pt pf tc self = Completed self')
    (Htor : DUCKDUCKGO_TOR ∈ selected_engines (setup self')) :
  stem = true ∧ tc = true
  ∧ ∀ c, _get_proxies DUCKDUCKGO_TOR (tor_manager self') c =
         ProxyConfig.Gives
           (Some {[ "http" := "socks5://127.0.0.1:9050";
                    "https" := "socks5://127.0.0.1:9050" ]}) c.
Proof.
  unfold _configure_proxy_settings in Hdone.
  destruct (ask_proxies up pt pf self) as [| |self1]; try done.
  simpl in Hdone. injection Hdone as <-. revert Htor. unfold require_tor.
  destruct (bool_decide (DUCKDUCKGO_TOR ∈ selected_engines (setup self1))) eqn:Hin.
  - destruct stem; simpl; [|by intros ?%not_elem_of_without_tor].
    destruct tc; simpl; [|by intros ?%not_elem_of_without_tor].
    intros _. split; [done|]. split; [done|]. intros c. reflexivity.
  - apply bool_decide_eq_false in Hin. done.
Qed.

Lemma tor_engine_witness :
  _configure_proxy_settings true (Answered None) KeyboardInterrupt KeyboardInterrupt true
    tor_selected
  = Completed (with_tor_manager {| control_port := 9051; socks_port := 9050 |} tor_selected)
  ∧ DUCKDUCKGO_TOR
    ∈ selected_engines
        (setup (with_tor_manager {| control_port := 9051; socks_port := 9050 |}
                  tor_selected))
  ∧ ∀ c, _get_proxies DUCKDUCKGO_TOR
           (tor_manager (with_tor_manager {| control_port := 9051; socks_port := 9050 |}
                           tor_selected)) c =
         ProxyConfig.Gives
           (Some {[ "http" := "socks5://127.0.0.1:9050";
                    "https" := "socks5://127.0.0.1:9050" ]}) c.
Proof.
  assert (_configure_proxy_settings true (Answered None) KeyboardInterrupt
            KeyboardInterrupt true tor_selected
          = Completed (with_tor_manager {| control_port := 9051; socks_port := 9050 |}
                         tor_selected)) as Hdone.
  { reflexivity. }
  assert (DUCKDUCKGO_TOR
          ∈ selected_engines
              (setup (with_tor_manager {| control_port := 9051; socks_port := 9050 |}
                        tor_selected))) as Htor.
  { simpl. by left. }
  split; [exact Hdone|]. split; [exact Htor|].
  exact (proj2 (proj2 (tor_engine_only_through_tor _ _ _ _ _ _ _ Hdone Htor))).
Defined.

(** ** The whole menu *)

Lemma select_search_engines_keeps answer self self' :
  _select_search_engines answer self = Completed self' →
  proxy_config self' = proxy_config self ∧ tor_manager self' = tor_manager self
  ∧ scraping_config (setup self') = scraping_config (setup self)
  ∧ clients (setup self') = clients (setup self)
  ∧ NoDup (selected_engines (setup self')).
Proof.
  unfold _select_search_engines.
  destruct answer as [|[[|x sel]|]]; try done. intros [= <-].
  cbn [with_engines setup proxy_config tor_manager scraping_config clients
       selected_engines].
  repeat split. apply NoDup_filter, all_engines_NoDup.
Qed.

Lemma configure_scraping_settings_keeps mt sf fn self self' :
  _configure_scraping_settings mt sf fn self = Completed self' →
  proxy_config self' = proxy_config self ∧ tor_manager self' = tor_manager self
  ∧ selected_engines (setup self') = selected_engines (setup self)
  ∧ clients (setup self') = clients (setup self)
  ∧ timeout (scraping_config (setup self')) = timeout (scraping_config (setup self))
  ∧ max_retries (scraping_config (setup self'))
    = max_retries (scraping_config (setup self))
  ∧ max_keywords_per_engine (scraping_config (setup self'))
    = max_keywords_per_engine (scraping_config (setup self))
  ∧ mt = Answered (Some (Some (max_threads (scraping_config (setup self'))))).
Proof.
  unfold _configure_scraping_settings.
  destruct mt as [|[[n|]|]]; try done.
  destruct sf as [|sf]; [done|].
  destruct (default false sf).
  - destruct fn as [|[f|]]; try done. intros [= <-]. done.
  - intros [= <-]. done.
Qed.

Lemma configure_spec io tty self' :
  configure io (Settings_init tty) = Completed self' →
  ProxyConfig.validate (proxy_config self') = true
  ∧ NoDup (selected_engines (setup self'))
  ∧ clients (setup self') = (λ _, None)
  ∧ timeout (scraping_config (setup self')) = 10
  ∧ max_retries (scraping_config (setup self')) = 3
  ∧ max_keywords_per_engine (scraping_config (setup self')) = 1000
  ∧ max_threads_answer io
    = Answered (Some (Some (max_threads (scraping_config (setup self'))))).
Proof.
  unfold configure.
  destruct (_select_search_engines (engines_answer io) (Settings_init tty))
    as [| |self1] eqn:H1; try done. cbn [menu_then].
  destruct (_configure_proxy_settings (STEM_AVAILABLE io) (use_proxy_answer io)
              (proxy_type_answer io) (proxy_file_read io) (tor_connects io) self1)
    as [| |self2] eqn:H2; try done. cbn [menu_then]. intros H3.
  destruct (select_search_engines_keeps _ _ _ H1) as (Hp1 & _ & Hs1 & Hc1 & Hnd1).
  pose proof H2 as H2'. unfold _configure_proxy_settings in H2'.
  destruct (ask_proxies (use_proxy_answer io) (proxy_type_answer io)
              (proxy_file_read io) self1) as [| |self1'] eqn:Hask; try done.
  cbn [menu_then] in H2'. injection H2' as <-.
  destruct (ask_proxies_spec _ _ _ _ _ Hp1 Hask) as (Hsetup & _ & Hv & _).
  destruct (require_tor_keeps (STEM_AVAILABLE io) (tor_connects io) self1')
    as (Hp2 & Hs2 & Hc2 & _ & He2).
  destruct (configure_scraping_settings_keeps _ _ _ _ _ H3)
    as (Hp3 & _ & He3 & Hc3 & Ht3 & Hr3 & Hk3 & Hm3).
  rewrite Hp3, Hp2, He3, Hc3, Hc2, Ht3, Hr3, Hk3, Hs2, Hsetup, Hs1, Hc1.
  split; [done|]. split; [|done].
  destruct He2 as [-> | ->]; rewrite Hsetup; [done|]. by apply NoDup_filter.
Qed.

(** X25: the configuration the menu builds always validates.  The prompt
    for the number of threads accepts only digits that denote a positive
    number; given that, whenever the three configuration steps complete,
    [_validate_configurations] returns true, so [setup_interactive_menu]
    goes on to build the clients and its exit for a failed validation is
    never taken.  The menu asks for the threads and the file only: the
    per-engine cap is the default 1000 in every interactive run. *)
Theorem menu_configuration_validates io tty self'
    (Hthreads : ∀ n, max_threads_answer io = Answered (Some (Some n)) → 0 < n)
    (Hdone : configure io (Settings_init tty) = Completed self') :
  _validate_configurations self' = true
  ∧ setup_interactive_menu io (Settings_init tty)
    = Completed (_initialize_clients (network io) (client_raises io) self')
  ∧ max_keywords_per_engine (scraping_config (setup self')) = 1000.
Proof.
  destruct (configure_spec io tty self' Hdone) as (Hv & _ & _ & Ht & Hr & Hk & Hm).
  assert (_validate_configurations self' = true) as Hvalid.
  { unfold _validate_configurations, validate. rewrite Hv, Ht, Hr, Hk.
    specialize (Hthreads _ Hm). simpl.
    destruct (max_threads (scraping_config (setup self')) <? 1) eqn:Hlt; [lia|done]. }
  split; [done|]. split; [|done].
  unfold setup_interactive_menu. rewrite Hdone. cbn [menu_then]. by rewrite Hvalid.
Qed.

Lemma menu_validates_witness :
  ∃ self',
    (∀ n, max_threads_answer sample_session = Answered (Some (Some n)) → 0 < n)
    ∧ configure sample_session (Settings_init plain_tty) = Completed self'
    ∧ _validate_configurations self' = true.
Proof.
  assert (∀ n, max_threads_answer sample_session = Answered (Some (Some n)) → 0 < n)
    as Hthreads.
  { intros n [= <-]. lia. }
  eexists. split; [exact Hthreads|]. split; [vm_compute; reflexivity|].
  eapply proj1.
  apply (menu_configuration_validates sample_session plain_tty); [exact Hthreads|].
  vm_compute. reflexivity.
Defined.

Lemma initialize_clients_fold (net : Network) (raises : SearchEngine → bool) es :
  ∀ self : Settings,
  let self' :=
    foldl (λ self engine,
             if raises engine then self
             else with_client engine (client_classes net engine) self) self es in
  selected_engines (setup self') = selected_engines (setup self)
  ∧ scraping_config (setup self') = scraping_config (setup self)
  ∧ output_file (setup self') = output_file (setup self)
  ∧ ∀ e, clients (setup self') e =
         if bool_decide (e ∈ es) && negb (raises e)
         then Some (client_classes net e) else clients (setup self) e.
Proof.
  induction es as [|x es IH]; intros self; cbv zeta.
  - simpl. repeat split.
  - cbn [foldl].
    destruct (IH (if raises x then self
                  else with_client x (client_classes net x) self))
      as (He & Hs & Ho & Hc).
    rewrite He, Hs, Ho.
    split; [by destruct (raises x)|]. split; [by destruct (raises x)|].
    split; [by destruct (raises x)|].
    intros e. rewrite Hc.
    destruct (decide (e = x)) as [->|Hne].
    + rewrite (bool_decide_eq_true_2 (x ∈ x :: es)) by left.
      destruct (raises x) eqn:Hr; simpl.
      * by rewrite andb_false_r.
      * rewrite andb_true_r, (bool_decide_eq_true_2 (x = x)) by done.
        by destruct (bool_decide (x ∈ es)).
    + assert (bool_decide (e ∈ x :: es) = bool_decide (e ∈ es)) as ->.
      { apply bool_decide_ext. rewrite elem_of_cons.
        split; [intros [Heq|Hin]; [by destruct Hne|done]|intros Hin; by right]. }
      destruct (bool_decide (e ∈ es) && negb (raises e)); [done|].
      destruct (raises x); [done|]. simpl.
      by rewrite (bool_decide_eq_false_2 (e = x)).
Qed.

(** X26: what the menu hands to the run.  When [setup_interactive_menu]
    completes, the selected engines are pairwise distinct, and the clients
    dict holds, for exactly the selected engines whose client could be
    built, a client of the class the table gives.  In the run that follows
    no two threads work for the same engine, and a worker returns for lack
    of a client only if building that client had failed. *)
Theorem menu_gives_each_engine_one_thread io tty self'
    (Hdone : setup_interactive_menu io (Settings_init tty) = Completed self') :
  NoDup (selected_engines (setup self'))
  ∧ (∀ e, clients (setup self') e =
          if bool_decide (e ∈ selected_engines (setup self'))
             && negb (client_raises io e)
          then Some (client_classes (network io) e) else None)
  ∧ ∀ input disk0 evs,
      NoDup (engine <$> workers
               (run_events (setup self')
                  (start_scraping (setup self') input (KeywordSheeter_init disk0)) evs)).
Proof.
  unfold setup_interactive_menu in Hdone.
  destruct (configure io (Settings_init tty)) as [| |self1] eqn:Hconf; try done.
  cbn [menu_then] in Hdone.
  destruct (negb (_validate_configurations self1)); [done|]. injection Hdone as <-.
  destruct (configure_spec io tty self1 Hconf) as (_ & Hnd & Hc & _).
  unfold _initialize_clients.
  destruct (initialize_clients_fold (network io) (client_raises io)
              (selected_engines (setup self1)) self1) as (He & _ & _ & Hcl).
  rewrite He.
  split; [done|]. split.
  - intros e. rewrite Hcl, Hc. done.
  - intros input disk0 evs. rewrite run_events_engines.
    unfold start_scraping. destruct (get_seed_keywords input); simpl; [constructor|].
    rewrite He, <- list_fmap_compose.
    replace (engine ∘ spawn) with (@id SearchEngine) by done.
    by rewrite list_fmap_id.
Qed.

Lemma menu_run_witness :
  ∃ self',
    setup_interactive_menu sample_session (Settings_init plain_tty) = Completed self'
    ∧ NoDup (selected_engines (setup self')).
Proof.
  eexists. split; [vm_compute; reflexivity|].
  eapply proj1.
  apply (menu_gives_each_engine_one_thread sample_session plain_tty).
  vm_compute. reflexivity.
Defined.

Lemma NoDup_engines_length (es : list SearchEngine) : NoDup es → (length es ≤ 8)%nat.
Proof.
  intros Hnd. change 8%nat with (length all_engines).
  apply submseteq_length, NoDup_submseteq; [done|].
  intros e _. apply elem_of_all_engines.
Qed.

(** X27: the query budget of an interactive run.  The menu leaves the
    per-engine cap at its default and selects each engine at most once, so
    a run set up through [setup_interactive_menu] whose sources yield only
    strings that the terminal can print makes at most 8000 calls of
    [get_suggestions], whatever is answered. *)
Theorem interactive_run_query_budget io tty self' input disk0 evs
    (Hdone : setup_interactive_menu io (Settings_init tty) = Completed self')
    (Htame : tame (setup self')) :
  Z.of_nat
    (length (query_log
               (app (run_events (setup self')
                       (start_scraping (setup self') input (KeywordSheeter_init disk0))
                       evs))))
  ≤ 8000.
Proof.
  unfold setup_interactive_menu in Hdone.
  destruct (configure io (Settings_init tty)) as [| |self1] eqn:Hconf; try done.
  cbn [menu_then] in Hdone.
  destruct (negb (_validate_configurations self1)); [done|]. injection Hdone as <-.
  destruct (configure_spec io tty self1 Hconf) as (_ & Hnd & _ & _ & _ & Hk & _).
  unfold _initialize_clients in *.
  destruct (initialize_clients_fold (network io) (client_raises io)
              (selected_engines (setup self1)) self1) as (He & Hs & _).
  match goal with |- context [run_events ?c _ _] => set (cfg := c) in * end.
  pose proof (query_log_issued_bound cfg input disk0 evs Htame) as Hle.
  cbv zeta in Hle. rewrite He, Hs, Hk in Hle. apply NoDup_engines_length in Hnd. lia.
Qed.

Lemma silent_network_tame self' :
  setup_interactive_menu sample_session (Settings_init plain_tty) = Completed self' →
  tame (setup self').
Proof.
  intros [= <-]. apply quiet_tame. intros e keyword. unfold ask.
  destruct e; try reflexivity;
    (apply get_suggestions_failed; simpl; intros d; discriminate).
Qed.

Lemma query_budget_witness :
  ∃ self',
    setup_interactive_menu sample_session (Settings_init plain_tty) = Completed self'
    ∧ tame (setup self')
    ∧ Z.of_nat
        (length (query_log
                   (app (run_events (setup self')
                           (start_scraping (setup self') (TypeManually "shoes")
                              (KeywordSheeter_init []))
                           (repeat (Step 0%nat) 6)))))
      ≤ 8000.
Proof.
  eexists. split; [vm_compute; reflexivity|].
  match goal with |- tame ?c ∧ _ => assert (tame c) as Htame end.
  { apply silent_network_tame. vm_compute. reflexivity. }
  split; [exact Htame|].
  apply (interactive_run_query_budget sample_session plain_tty); [|exact Htame].
  vm_compute. reflexivity.
Defined.
